(** * IDEAL_Summary: the segmented generation engine of [llama_adapter.py]

    A shallow embedding of [LLaMA_adapter.forward], [forward_inference] and
    [generate] (src/LLaMA_lora_hyper_infini_query/llama/llama_adapter.py).

    Tensors are nested lists: a token grid is [list (list Z)] (rows are
    sequences), a hidden state is batch x positions x width over IEEE
    floats (Rocq's primitive binary64 floats stand for torch's half/float
    values; only their IEEE special-value behaviour is used).  Sizes and
    positions are [nat].  The transformer layers, the hypernetwork, the
    output head, the sampler and the tokenizer live outside the file and
    are the fields of [Net.Collaborators].  Python exceptions are values of
    [exn]; the
    mutable attributes of [self] (the LoRA tensors installed in each layer,
    [self.pooling_states]) and a log of the calls made to the external
    collaborators are threaded through a state-and-exception monad. *)

From Stdlib Require Import String Ascii Floats.
From Stdlib Require Import Arith ZArith Bool Lia List Permutation Sorted.
Import ListNotations.

Set Implicit Arguments.

(** ** Python and torch helpers *)

Module Py.

(** Exceptions the modelled code can raise. *)
Inductive exn : Type :=
| AssertionError
| ValueError
| IndexError
| TypeError
| RuntimeError
| UnboundLocalError
| ZeroDivisionError.

(** [range(start, stop, step)] for a non-negative [step]; Python raises
    [ValueError] on a zero step, which the callers check before. *)
Definition range (start stop step : nat) : list nat :=
  map (fun k => start + k * step) (seq 0 ((stop - start + (step - 1)) / step)).

(** [l[a:b]] for non-negative bounds: out-of-range bounds are clamped. *)
Definition slice {A} (a b : nat) (l : list A) : list A :=
  firstn (b - a) (skipn a l).

(** [g[:, a:b]] on a two-dimensional tensor. *)
Definition cols {A} (a b : nat) (g : list (list A)) : list (list A) :=
  map (slice a b) g.

(** [g.shape[1]]. *)
Definition ncols {A} (g : list (list A)) : nat :=
  match g with
  | [] => 0
  | r :: _ => length r
  end.

(** [torch.tensor_split(g, indices, dim=1)]: the sections
    [g[:, :i0]], [g[:, i0:i1]], ..., [g[:, ilast:]]. *)
Fixpoint tensor_split_from {A} (prev : nat) (indices : list nat)
    (g : list (list A)) : list (list (list A)) :=
  match indices with
  | [] => [cols prev (ncols g) g]
  | i :: rest => cols prev i g :: tensor_split_from i rest g
  end.

Definition tensor_split {A} (g : list (list A)) (indices : list nat) :=
  tensor_split_from 0 indices g.

(** [s in t] on strings: [s] occurs in [t] as a substring. *)
Fixpoint contains (s t : string) : bool :=
  if String.prefix s t then true
  else match t with
       | EmptyString => false
       | String _ t' => contains s t'
       end.

(** [l.index(x)] on a list of integers; [None] is Python's [ValueError]. *)
Fixpoint index (x : Z) (l : list Z) : option nat :=
  match l with
  | [] => None
  | y :: l' => if Z.eqb y x then Some 0 else option_map S (index x l')
  end.

(** [min] and [max] of a list of lengths; [None] is the [ValueError] of an
    empty argument. *)
Definition min_list (l : list nat) : option nat :=
  match l with
  | [] => None
  | x :: l' => Some (fold_left Nat.min l' x)
  end.

Definition max_list (l : list nat) : option nat :=
  match l with
  | [] => None
  | x :: l' => Some (fold_left Nat.max l' x)
  end.

End Py.

(** Python helpers on signed integers, as the driver [example.py] uses
    them: slices whose bounds may be negative, [range] with a signed
    step, [math.ceil] of a quotient and [sorted] with a key. *)

Module PyZ.

(** A slice bound [i] on a sequence of length [len], as [slice.indices]
    normalises it: a negative bound counts from the end, and the result
    is clamped to [0 .. len]. *)
Definition clamp (len i : Z) : Z :=
  if (i <? 0)%Z then Z.max (i + len) 0 else Z.min i len.

(** [l[a:b]] *)
Definition slice {A} (a b : Z) (l : list A) : list A :=
  let len := Z.of_nat (length l) in
  let a' := clamp len a in
  let b' := clamp len b in
  firstn (Z.to_nat (b' - a')) (skipn (Z.to_nat a') l).

(** [range(start, stop, step)]; [None] is the [ValueError] of a zero
    step. *)
Definition range (start stop step : Z) : option (list Z) :=
  if (step =? 0)%Z then None
  else
    let n := if (0 <? step)%Z then ((stop - start + step - 1) / step)%Z
             else ((start - stop - step - 1) / (- step))%Z in
    Some (map (fun k => (start + Z.of_nat k * step)%Z) (seq 0 (Z.to_nat n))).

(** [math.ceil(a / b)] on integers; [None] is the [ZeroDivisionError].
    The float quotient of two integers below [2^53] has the ceiling of
    the exact quotient, so the result is exact for list lengths. *)
Definition ceil_div (a b : Z) : option Z :=
  if (b =? 0)%Z then None else Some (- ((- a) / b))%Z.

(** [sorted(l, key=key)]: ascending and stable. *)
Fixpoint insert_by {A} (key : A -> nat) (x : A) (l : list A) : list A :=
  match l with
  | [] => [x]
  | y :: l' => if key x <=? key y then x :: l else y :: insert_by key x l'
  end.

Definition sorted_by {A} (key : A -> nat) (l : list A) : list A :=
  fold_right (insert_by key) [] l.

End PyZ.

(** ** The state-and-exception monad *)

Module Run.

Inductive result (A : Type) : Type :=
| Ok (a : A)
| Raise (e : Py.exn).
Arguments Raise {A} e.

Section Monad.
Variable St : Type.

(** A computation reads and writes the state; an exception stops it and
    keeps the state reached so far. *)
Definition M (A : Type) : Type := St -> result A * St.

Definition ret {A} (a : A) : M A := fun s => (Ok a, s).

Definition raise {A} (e : Py.exn) : M A := fun s => (Raise e, s).

Definition bind {A B} (c : M A) (k : A -> M B) : M B :=
  fun s =>
    match c s with
    | (Ok a, s') => k a s'
    | (Raise e, s') => (Raise e, s')
    end.

Definition get : M St := fun s => (Ok s, s).

Definition modify (f : St -> St) : M unit := fun s => (Ok tt, f s).

(** [assert b] *)
Definition assert (b : bool) : M unit :=
  if b then ret tt else raise Py.AssertionError.

(** Run an [option] whose [None] is the exception [e]. *)
Definition orraise {A} (e : Py.exn) (o : option A) : M A :=
  match o with
  | Some a => ret a
  | None => raise e
  end.
End Monad.

Arguments ret {St A} a.
Arguments raise {St A} e.
Arguments get {St}.
Arguments assert {St} b.
Arguments orraise {St A} e o.

End Run.

Import Run.

Declare Scope run_scope.
Delimit Scope run_scope with run.
Notation "x <- c ;; k" := (bind c (fun x => k))
  (at level 61, c at next level, right associativity) : run_scope.
Notation "' pat <- c ;; k" := (bind c (fun x => match x with pat => k end))
  (at level 61, pat pattern, c at next level, right associativity) : run_scope.
Notation "c ;;; k" := (bind c (fun _ => k))
  (at level 61, right associativity) : run_scope.

Local Open Scope run_scope.

(** ** Tensors *)

Module Tensor.

Definition vec : Type := list float.
(** batch x positions x width *)
Definition hidden : Type := list (list vec).
(** batch x positions, the float mask [prompt_mask] *)
Definition fmask : Type := list (list float).
(** batch x width, [pooling_states] *)
Definition pooled : Type := list vec.

(** [torch.sum] of a one-dimensional float tensor. *)
Definition fsum (l : list float) : float :=
  match l with
  | [] => 0%float
  | x :: l' => fold_left PrimFloat.add l' x
  end.

Fixpoint vadd (u v : vec) : vec :=
  match u, v with
  | x :: u', y :: v' => PrimFloat.add x y :: vadd u' v'
  | _, _ => []
  end.

(** [torch.sum(t, dim=1)] on one batch row of width [dim]. *)
Definition vsum (dim : nat) (l : list vec) : vec :=
  match l with
  | [] => repeat 0%float dim
  | v :: l' => fold_left vadd l' v
  end.

(** One batch row of [h * prompt_mask.unsqueeze(-1)]. *)
Fixpoint mask_row (hb : list vec) (mb : list float) : list vec :=
  match hb, mb with
  | v :: hb', m :: mb' => map (fun x => PrimFloat.mul x m) v :: mask_row hb' mb'
  | _, _ => []
  end.

(** The batch and position dimensions of [h] and [prompt_mask] agree. *)
Fixpoint same_shape (h : hidden) (m : fmask) : bool :=
  match h, m with
  | [], [] => true
  | hb :: h', mb :: m' => (length hb =? length mb) && same_shape h' m'
  | _, _ => false
  end.

(** [denom = torch.sum(prompt_mask, -1).unsqueeze(-1)] *)
Definition denom_of (prompt_mask : fmask) : list float := map fsum prompt_mask.

(** [torch.sum(h * prompt_mask.unsqueeze(-1), dim=1) / denom].  The division
    is IEEE division: it never raises.  The mask has the batch and
    position dimensions of [h], as every mask [generate] builds has; any
    other shape is the [RuntimeError] of a mismatch (a mask of one row,
    which torch would broadcast, is not modelled).  The arithmetic is
    binary64 where torch computes in half or single precision: the
    theory relies on the IEEE special values of the division only, not
    on rounded values. *)
Definition masked_mean (dim : nat) (h : hidden) (prompt_mask : fmask)
    (denom : list float) : option pooled :=
  if same_shape h prompt_mask && (length denom =? length h) then
    Some (map (fun '(hb, mb, d) =>
                 map (fun x => PrimFloat.div x d) (vsum dim (mask_row hb mb)))
              (combine (combine h prompt_mask) denom))
  else None.

(** [h[:, -1, :]]: the last position of every row; [None] is the
    [IndexError] of an empty position axis. *)
Fixpoint last_position (h : hidden) : option (list vec) :=
  match h with
  | [] => Some []
  | hb :: h' =>
      match rev hb, last_position h' with
      | v :: _, Some r => Some (v :: r)
      | _, _ => None
      end
  end.

(** [g[:, c]]; [None] is the [IndexError] of a column out of range. *)
Fixpoint column {A} (c : nat) (g : list (list A)) : option (list A) :=
  match g with
  | [] => Some []
  | r :: g' =>
      match nth_error r c, column c g' with
      | Some x, Some col => Some (x :: col)
      | _, _ => None
      end
  end.

(** [g[:, c] = v] for a one-dimensional [v] with one entry per row; [None]
    is the error of a column out of range or of a [v] of another length. *)
Fixpoint set_column {A} (c : nat) (v : list A) (g : list (list A))
    : option (list (list A)) :=
  match g, v with
  | [], [] => Some []
  | r :: g', x :: v' =>
      if c <? length r then
        option_map (cons (firstn c r ++ x :: skipn (S c) r)) (set_column c v' g')
      else None
  | _, _ => None
  end.

(** [torch.where(cond, a, b)] on one-dimensional tensors of one length. *)
Fixpoint where_ {A} (cond : list bool) (a b : list A) : option (list A) :=
  match cond, a, b with
  | [], [], [] => Some []
  | c :: cond', x :: a', y :: b' =>
      option_map (cons (if c then x else y)) (where_ cond' a' b')
  | _, _, _ => None
  end.

(** [torch.full((bsz, total_len), pad_id)] *)
Definition full (bsz total_len : nat) (pad_id : Z) : list (list Z) :=
  repeat (repeat pad_id total_len) bsz.

(** [row[a:b] = 1] on a float mask row: the slice is clamped to the row. *)
Definition set_span (a b : nat) (row : list float) : list float :=
  firstn a row ++ repeat 1%float (length (Py.slice a b row)) ++ skipn (a + length (Py.slice a b row)) row.

(** [prompt_mask[j, a:b] = 1]; [None] is the [IndexError] of a row [j]
    out of range. *)
Definition set_row_span (j a b : nat) (m : fmask) : option fmask :=
  match nth_error m j with
  | Some row => Some (firstn j m ++ set_span a b row :: skipn (S j) m)
  | None => None
  end.

(** [tokens[k, :len(t)] = torch.tensor(t)]: the target slice has
    [min(len(t), width)] columns; a source of another length is a
    [RuntimeError], except that a one-element source is broadcast. *)
Definition fill_row (t : list Z) (row : list Z) : option (list Z) :=
  let w := length (Py.slice 0 (length t) row) in
  if length t =? w then Some (t ++ skipn w row)
  else match t with
       | [x] => Some (repeat x w ++ skipn w row)
       | _ => None
       end.

(** A chunk of a batch of [bsz] sequences: rectangular, with at least one
    position. *)
Definition chunk_ok {A} (bsz : nat) (seg : list (list A)) : Prop :=
  length seg = bsz /\ exists n, 0 < n /\ Forall (fun r => length r = n) seg.

(** A float that is a zero or a NaN. *)
Definition zero_or_nan (x : float) : Prop :=
  Prim2SF x = S754_nan \/ exists sg, Prim2SF x = S754_zero sg.

(** A sum of an int64 tensor: torch adds in two's complement and wraps;
    [wrap64] brings an integer back into [-2^63 .. 2^63 - 1]. *)
Definition wrap64 (z : Z) : Z := ((z + 2 ^ 63) mod 2 ^ 64 - 2 ^ 63)%Z.

(** [t.sum()] of an int64 tensor given by its entries. *)
Definition int64_sum (l : list Z) : Z := wrap64 (fold_left Z.add l 0%Z).

(** The entry at row [b], column [p] of a grid. *)
Definition cell {A} (g : list (list A)) (b p : nat) : option A :=
  match nth_error g b with
  | Some r => nth_error r p
  | None => None
  end.

End Tensor.

Import Tensor.

(** ** The adapter *)

(** The fields of [ModelArgs], of the tokenizer and of the adapter that the
    modelled methods read. *)
Record Config : Type := {
  dim : nat;                       (* model_args.dim *)
  n_layers : nat;                  (* len(self.llama.layers) *)
  vocab_size : Z;                  (* self.llama.vocab_size *)
  max_seq_len : nat;               (* params.max_seq_len *)
  max_batch_size : nat;            (* params.max_batch_size *)
  serial_generate : bool;          (* self.serial_generate *)
  hyper_lora_start : option nat;   (* self.hyper_lora_start, None when no layer is hyper-adapted *)
  pad_id : Z;                      (* self.tokenizer.pad_id *)
  eos_id : Z                       (* self.tokenizer.eos_id *)
}.

(** The same adapter over a vocabulary of another size. *)
Definition with_vocab_size (v : Z) (c : Config) : Config :=
  {| dim := dim c; n_layers := n_layers c; vocab_size := v;
     max_seq_len := max_seq_len c; max_batch_size := max_batch_size c;
     serial_generate := serial_generate c; hyper_lora_start := hyper_lora_start c;
     pad_id := pad_id c; eos_id := eos_id c |}.

(** The same adapter with another first hyper-adapted layer. *)
Definition with_hyper_lora_start (k : option nat) (c : Config) : Config :=
  {| dim := dim c; n_layers := n_layers c; vocab_size := vocab_size c;
     max_seq_len := max_seq_len c; max_batch_size := max_batch_size c;
     serial_generate := serial_generate c; hyper_lora_start := k;
     pad_id := pad_id c; eos_id := eos_id c |}.


(** ** The collaborators

    What the adapter calls and does not own: the base transformer, the
    hypernetwork, the sampler's numeric kernels and the tokenizer.
    [memory] and [norm_term] are the opaque dictionaries threaded through
    the layers, [lora_param] the six LoRA tensors of one layer. *)

Module Net.

Record Collaborators (memory norm_term lora_param : Type) : Type := {
  (** [self.llama.tok_embeddings] on one token. *)
  tok_embeddings : Z -> vec;
  (** [layer(h, start_pos, freqs_cis, mask, prompt_mask, memory, norm_term)]
      of layer [i] with the LoRA tensors installed in it; [freqs_cis] and
      the causal mask are functions of [start_pos] and the sequence
      length. *)
  layer_forward :
    nat -> option lora_param -> hidden -> nat -> option fmask ->
    memory -> norm_term -> hidden * memory * norm_term;
  (** [self.lora_hyper_net(pooling_states)]: one entry per hyper layer. *)
  lora_hyper_net : pooled -> list lora_param;
  (** [self.lora_hyper_net(pooling_states, hyper_index=i)] *)
  lora_hyper_net_at : pooled -> nat -> lora_param;
  (** [self.llama.norm] and [self.llama.output] on one position. *)
  llama_norm : vec -> vec;
  llama_output : vec -> vec;
  (** [torch.softmax(., dim=-1)] and [torch.argmax(., dim=-1)] on one row;
      [sample_top_p] on one row, its random draw indexed by the decode
      position and the row. *)
  softmax : vec -> vec;
  argmax : vec -> Z;
  sample_top_p : nat -> nat -> vec -> float -> Z;
  (** [self.tokenizer.decode] *)
  tokenizer_decode : list Z -> string;
  (** [output.mean()] and [self.criterion] of the training loss. *)
  tensor_mean : list (list vec) -> float;
  criterion : list vec -> list Z -> float
}.

End Net.

(** ** A small concrete adapter

    Three layers, the last two hyper-adapted; width-2 hidden states whose
    first component is the token and whose second component is the
    [start_pos] of the call; greedy decoding yields token 7 while
    [start_pos < 4] and the end-of-sequence token 1 afterwards. *)

Module Demo.

Definition of_nat (n : nat) : float := PrimFloat.of_uint63 (Uint63.of_Z (Z.of_nat n)).

Definition config (serial : bool) : Config :=
  {| dim := 2; n_layers := 3; vocab_size := 32000; max_seq_len := 8;
     max_batch_size := 2; serial_generate := serial;
     hyper_lora_start := Some 1; pad_id := 0; eos_id := 1 |}.

(** LoRA tensors are tagged with the hyper index and the pooled vector they
    were generated from. *)
Definition lora_param : Type := nat * pooled.

Definition tok_embeddings (t : Z) : vec :=
  [PrimFloat.of_uint63 (Uint63.of_Z t); 0%float].

Definition layer_forward (i : nat) (_ : option lora_param) (h : hidden)
    (start_pos : nat) (_ : option fmask) (mem nt : unit) : hidden * unit * unit :=
  (map (map (fun v => [hd 0%float v; of_nat start_pos])) h, mem, nt).

Definition lora_hyper_net (p : pooled) : list lora_param :=
  [(0, p); (1, p)].

Definition lora_hyper_net_at (p : pooled) (i : nat) : lora_param := (i, p).

Definition llama_norm (v : vec) : vec := v.
Definition llama_output (v : vec) : vec := v.
Definition softmax (v : vec) : vec := v.

Definition argmax (v : vec) : Z :=
  if PrimFloat.ltb (nth 1 v 0%float) 4%float then 7%Z else 1%Z.

Definition sample_top_p (cur_pos row : nat) (v : vec) (top_p : float) : Z := argmax v.

Definition tokenizer_decode (t : list Z) : string :=
  String.concat " " (map (fun z => String (ascii_of_nat (48 + Z.to_nat z)) EmptyString) t).

Definition net : Net.Collaborators unit unit lora_param :=
  {| Net.tok_embeddings := tok_embeddings;
     Net.layer_forward := layer_forward;
     Net.lora_hyper_net := lora_hyper_net;
     Net.lora_hyper_net_at := lora_hyper_net_at;
     Net.llama_norm := llama_norm;
     Net.llama_output := llama_output;
     Net.softmax := softmax;
     Net.argmax := argmax;
     Net.sample_top_p := sample_top_p;
     Net.tokenizer_decode := tokenizer_decode;
     Net.tensor_mean := fun _ => 0%float;
     Net.criterion := fun _ _ => 0%float |}.

End Demo.

(** ** [get_trainable_params] (llama_adapter.py, lines 79-92)

    The entries of [self.named_parameters()]: the name of a parameter,
    its [requires_grad] flag and the dtype of its data, which
    [para.data.float()] turns into float32. *)

Module Trainable.

Inductive dtype : Type := Half | BFloat16 | Float32.

Record parameter : Type := {
  name : string;
  requires_grad : bool;
  data : dtype
}.

(** [para.requires_grad = False] *)
Definition freeze (para : parameter) : parameter :=
  {| name := name para; requires_grad := false; data := data para |}.

(** [para.data = para.data.float(); para.requires_grad = True] *)
Definition unfreeze (para : parameter) : parameter :=
  {| name := name para; requires_grad := true; data := Float32 |}.

(** The body of the second loop, lines 84-92. *)
Definition select (w_bias : bool) (para : parameter) : parameter :=
  let para :=
    if String.prefix "llama." (name para) then
      if w_bias then
        if Py.contains "norm" (name para) || Py.contains "bias" (name para)
        then unfreeze para else para
      else para
    else para in
  if Py.contains "lora" (name para) || Py.contains "gate" (name para)
  then unfreeze para else para.

Definition get_trainable_params (w_bias : bool) (params : list parameter)
    : list parameter :=
  map (select w_bias) (map freeze params).

End Trainable.

(** ** The driver [example.py] (src/LLaMA_lora_bias-hyper) *)

Module Example.

Definition nl : string := String (ascii_of_nat 10) EmptyString.

(** [prompt_input] (lines 19-25) *)
Definition prompt_input : string * string * string :=
  (("Below is an instruction that describes a task, paired with an input that provides further context. "
    ++ "Write a response that appropriately completes the request." ++ nl ++ nl
    ++ "### Instruction:" ++ nl)%string,
   (nl ++ nl ++ "### Input:" ++ nl)%string,
   (nl ++ nl ++ "### Response:")%string).

(** [split_list] (lines 123-124):
    [[lst[i:i+size] for i in range(0, len(lst), size)]] *)
Definition split_list {A} (lst : list A) (size : Z) : result (list (list A)) :=
  match PyZ.range 0 (Z.of_nat (length lst)) size with
  | Some r => Ok (map (fun i => PyZ.slice i (i + size) lst) r)
  | None => Raise Py.ValueError
  end.

(** Lines 167-168: the examples of one rank,
    [ann[local_rank*local_num:(local_rank+1)*local_num]] with
    [local_num = math.ceil(len(ann)/world_size)]. *)
Definition local_ann {A} (ann : list A) (local_rank world_size : Z)
    : result (list A) :=
  match PyZ.ceil_div (Z.of_nat (length ann)) world_size with
  | Some local_num =>
      Ok (PyZ.slice (local_rank * local_num) ((local_rank + 1) * local_num) ann)
  | None => Raise Py.ZeroDivisionError
  end.

(** One entry of [ann]: the values under the keys ['instruction'],
    ['input'] and ['output']. *)
Record example : Type := {
  instruction : string;
  input : string;
  output : string
}.

(** An entry of [hyper_input_spans]: one span, or the pair of spans the
    policy ['both'] appends. *)
Inductive span_arg : Type :=
| Span (h_span : nat * nat)
| SpanPair (instruction_span document_span : nat * nat).

Section Main.

(** [model.tokenizer.encode(s, bos=, eos=)] *)
Variable encode : string -> bool -> bool -> list Z.
(** [len(s.split())] *)
Variable words : string -> nat.
(** [generate_params['max_seq_len']] and [min_gen_len] *)
Variables max_seq_len min_gen_len : Z.
(** [generate_params['hyper_input_type']] *)
Variable hyper_input_type : string.

(** Lines 167-170: the batches of one rank. *)
Definition batches (ann : list example) (local_rank world_size max_batch_size : Z)
    : result (list (list example)) :=
  match local_ann ann local_rank world_size with
  | Ok l => split_list (PyZ.sorted_by (fun x => words (input x)) l) max_batch_size
  | Raise e => Raise e
  end.

(** Lines 189-208: the prompt of one example with its instruction span
    and its document span. *)
Definition build_prompt (x : example) : list Z * (nat * nat) * (nat * nat) :=
  let prompt0_token := encode (fst (fst prompt_input)) true false in
  let instruction_token := encode (instruction x) false false in
  let prompt1_token := encode (snd (fst prompt_input)) false false in
  let instruction_span :=
    (length prompt0_token, length prompt0_token + length instruction_token) in
  let part1_token := prompt0_token ++ instruction_token ++ prompt1_token in
  let input_token := encode (input x) false false in
  let prompt2_token := encode (snd prompt_input) false false in
  let max_input_length :=
    (max_seq_len
     - (Z.of_nat (length part1_token + length prompt2_token) + min_gen_len))%Z in
  let input_token := PyZ.slice 0 max_input_length input_token in
  let document_span :=
    (length part1_token, length part1_token + length input_token) in
  (part1_token ++ input_token ++ prompt2_token, instruction_span, document_span).

(** Lines 211-216: what one example appends to [hyper_input_spans]. *)
Definition spans_of (instruction_span document_span : nat * nat) : list span_arg :=
  if String.eqb hyper_input_type "instruction" then [Span instruction_span]
  else if String.eqb hyper_input_type "document" then [Span document_span]
  else if String.eqb hyper_input_type "both"
       then [SpanPair instruction_span document_span]
       else [].

(** Lines 186-216: [prompts] and [hyper_input_spans] of a batch. *)
Definition batch_inputs (batch : list example) : list (list Z) * list span_arg :=
  (map (fun x => fst (fst (build_prompt x))) batch,
   flat_map (fun x => let '(_, i, d) := build_prompt x in spans_of i d) batch).

(** The room line 204 leaves for the input of [x]. *)
Definition max_input_length (x : example) : Z :=
  (max_seq_len
   - (Z.of_nat (length (encode (fst (fst prompt_input)) true false
                        ++ encode (instruction x) false false
                        ++ encode (snd (fst prompt_input)) false false)
                + length (encode (snd prompt_input) false false))
      + min_gen_len))%Z.

End Main.

End Example.

(** ** A small driver run

    A tokenizer with one token per character (1 is the begin-of-sequence
    token, 2 the end-of-sequence token), three examples and a few named
    parameters. *)

Module DemoDriver.

Definition encode (s : string) (bos eos : bool) : list Z :=
  (if bos then [1%Z] else [])
  ++ map (fun c => Z.of_nat (nat_of_ascii c)) (list_ascii_of_string s)
  ++ (if eos then [2%Z] else []).

Fixpoint count_words (in_word : bool) (s : string) : nat :=
  match s with
  | EmptyString => 0
  | String c s' =>
      if Ascii.eqb c " " then count_words false s'
      else (if in_word then 0 else 1) + count_words true s'
  end.

Definition words (s : string) : nat := count_words false s.

Definition long : Example.example :=
  {| Example.instruction := "Write a summary";
     Example.input := "the quick brown fox jumps over the lazy dog";
     Example.output := "a fox jumps" |}.

Definition short : Example.example :=
  {| Example.instruction := "Write a title";
     Example.input := "rain";
     Example.output := "weather" |}.

Definition middle : Example.example :=
  {| Example.instruction := "Write a summary";
     Example.input := "two words";
     Example.output := "two" |}.

Definition ann : list Example.example := [long; short; middle].

Definition params : list Trainable.parameter :=
  [ {| Trainable.name := "llama.norm.weight";
       Trainable.requires_grad := true; Trainable.data := Trainable.Half |};
    {| Trainable.name := "llama.layers.0.attention.lora_wq_l1.weight";
       Trainable.requires_grad := false; Trainable.data := Trainable.Half |};
    {| Trainable.name := "lora_hyper_net.encoder.weight";
       Trainable.requires_grad := false; Trainable.data := Trainable.BFloat16 |};
    {| Trainable.name := "llama.tok_embeddings.weight";
       Trainable.requires_grad := true; Trainable.data := Trainable.Half |} ].

End DemoDriver.

Section Adapter.

(** The opaque [memory] and [norm_term] dictionaries, and the six LoRA
    tensors the hypernetwork produces for one layer. *)
Variables memory norm_term lora_param : Type.

Variable cfg : Config.

(** The collaborators of this adapter. *)
Variable net : Net.Collaborators memory norm_term lora_param.

Local Abbreviation tok_embeddings := (Net.tok_embeddings net).
Local Abbreviation layer_forward := (Net.layer_forward net).
Local Abbreviation lora_hyper_net := (Net.lora_hyper_net net).
Local Abbreviation lora_hyper_net_at := (Net.lora_hyper_net_at net).
Local Abbreviation llama_norm := (Net.llama_norm net).
Local Abbreviation llama_output := (Net.llama_output net).
Local Abbreviation softmax := (Net.softmax net).
Local Abbreviation argmax := (Net.argmax net).
Local Abbreviation sample_top_p := (Net.sample_top_p net).
Local Abbreviation tokenizer_decode := (Net.tokenizer_decode net).
Local Abbreviation tensor_mean := (Net.tensor_mean net).
Local Abbreviation criterion := (Net.criterion net).

(** Calls to the collaborators, in the order they are made. *)
Inductive event : Type :=
| HyperNet (pooling_states : pooled) (hyper_index : option nat)
| ApplyLora (layer : nat) (p : lora_param)
| Forward (start_pos seqlen : nat) (prompt_mask : option fmask).

(** The mutable state of [self]. *)
Record self_state : Type := {
  lora : nat -> option lora_param;     (* tensors installed by apply_lora_params *)
  pooling_states : option pooled;      (* self.pooling_states *)
  calls : list event
}.

Definition init_state : self_state :=
  {| lora := fun _ => None; pooling_states := None; calls := [] |}.

Definition log (e : event) : M self_state unit :=
  modify (fun s => {| lora := lora s; pooling_states := pooling_states s;
                      calls := calls s ++ [e] |}).

(** Reading the log: the [(start_pos, seqlen)] of the forward calls, the
    [hyper_index] arguments of the hypernetwork calls, the layers LoRA
    tensors were applied to. *)
Definition forward_spans (l : list event) : list (nat * nat) :=
  flat_map (fun e => match e with
                     | Forward sp n _ => [(sp, n)]
                     | _ => []
                     end) l.

Definition hyper_indices (l : list event) : list (option nat) :=
  flat_map (fun e => match e with
                     | HyperNet _ i => [i]
                     | _ => []
                     end) l.

Definition applied_layers (l : list event) : list nat :=
  flat_map (fun e => match e with
                     | ApplyLora i _ => [i]
                     | _ => []
                     end) l.

(** Every logged call is a forward call with [start_pos > 0]. *)
Definition decode_only (l : list event) : Prop :=
  Forall (fun e => match e with
                   | Forward sp _ _ => 0 < sp
                   | _ => False
                   end) l.

(** Some forward call with [start_pos > 0] is directly followed by a call
    of the hypernetwork. *)
Fixpoint hyper_follows_decode (l : list event) : bool :=
  match l with
  | [] => false
  | Forward sp _ _ :: l' =>
      match l' with
      | HyperNet _ _ :: _ => (0 <? sp) || hyper_follows_decode l'
      | _ => hyper_follows_decode l'
      end
  | _ :: l' => hyper_follows_decode l'
  end.

(** The [apply_lora_params] calls that install [params] in [layers]. *)
Definition apply_events (layers : list nat) (params : list lora_param) : list event :=
  map (fun '(l, q) => ApplyLora l q) (combine layers params).

(** The [(start_pos, seqlen)] pairs of consecutive chunks of the given
    sizes, the first one starting at [a]. *)
Fixpoint spans_from (a : nat) (sizes : list nat) : list (nat * nat) :=
  match sizes with
  | [] => []
  | n :: rest => (a, n) :: spans_from (a + n) rest
  end.

(** No logged call is a forward call. *)
Definition no_forward (l : list event) : Prop := forward_spans l = [].

(** No logged call is a call of the hypernetwork or of
    [apply_lora_params]. *)
Definition no_hyper (l : list event) : Prop :=
  hyper_indices l = [] /\ applied_layers l = [].

(** A computation that leaves the state of the adapter as it is. *)
Definition silent {A} (c : M self_state A) : Prop :=
  forall s, snd (c s) = s.

(** A computation that appends to the log events satisfying [P]. *)
Definition emits (P : list event -> Prop) {A} (c : M self_state A) : Prop :=
  forall s, exists evs, calls (snd (c s)) = calls s ++ evs /\ P evs.

(** [layer.apply_lora_params(param[0], ..., param[5])] on layer [i]. *)
Definition apply_lora_params (i : nat) (p : lora_param) : M self_state unit :=
  log (ApplyLora i p) ;;;
  modify (fun s => {| lora := fun j => if j =? i then Some p else lora s j;
                      pooling_states := pooling_states s; calls := calls s |}).

Definition set_pooling_states (p : pooled) : M self_state unit :=
  modify (fun s => {| lora := lora s; pooling_states := Some p; calls := calls s |}).

Definition call_hyper_net (p : pooled) : M self_state (list lora_param) :=
  log (HyperNet p None) ;;; ret (lora_hyper_net p).

Definition call_hyper_net_at (p : pooled) (i : nat) : M self_state lora_param :=
  log (HyperNet p (Some i)) ;;; ret (lora_hyper_net_at p i).

Definition call_layer (i : nat) (h : hidden) (start_pos : nat)
    (prompt_mask : option fmask) (mem : memory) (nt : norm_term)
    : M self_state (hidden * memory * norm_term) :=
  s <- get ;; ret (layer_forward i (lora s i) h start_pos prompt_mask mem nt).

(** [self.llama.layers[:self.hyper_lora_start]] and
    [self.llama.layers[self.hyper_lora_start:]], as layer indices. *)
Definition plain_layers : list nat :=
  match hyper_lora_start cfg with
  | Some k => seq 0 (Nat.min k (n_layers cfg))
  | None => seq 0 (n_layers cfg)
  end.

Definition hyper_layers : list nat :=
  match hyper_lora_start cfg with
  | Some k => seq k (n_layers cfg - k)
  | None => seq 0 (n_layers cfg)
  end.

(** [if self.hyper_lora_start:] *)
Definition hyper_enabled : bool :=
  match hyper_lora_start cfg with
  | Some (S _) => true
  | _ => false
  end.

(** The parallel hypernetwork returns parameters for every hyper-adapted
    layer. *)
Definition hyper_net_covers_layers : Prop :=
  serial_generate cfg = false ->
  forall p, length hyper_layers <= length (lora_hyper_net p).

(** [for layer in layers: h, memory, norm_term = layer(...)] *)
Fixpoint run_layers (layers : list nat) (start_pos : nat)
    (prompt_mask : option fmask) (hmn : hidden * memory * norm_term)
    : M self_state (hidden * memory * norm_term) :=
  match layers with
  | [] => ret hmn
  | i :: rest =>
      let '(h, mem, nt) := hmn in
      out <- call_layer i h start_pos prompt_mask mem nt ;;
      run_layers rest start_pos prompt_mask out
  end.

(** The value [run_layers] computes, as a function of the installed LoRA
    tensors. *)
Fixpoint layers_out (installed : nat -> option lora_param) (layers : list nat)
    (start_pos : nat) (prompt_mask : option fmask)
    (hmn : hidden * memory * norm_term) : hidden * memory * norm_term :=
  match layers with
  | [] => hmn
  | i :: rest =>
      let '(h, mem, nt) := hmn in
      layers_out installed rest start_pos prompt_mask
                 (layer_forward i (installed i) h start_pos prompt_mask mem nt)
  end.

(** [for hi, layer in enumerate(layers): layer.apply_lora_params(params[hi])] *)
Fixpoint apply_all (hi : nat) (layers : list nat) (params : list lora_param)
    : M self_state unit :=
  match layers with
  | [] => ret tt
  | i :: rest =>
      param <- orraise Py.IndexError (nth_error params hi) ;;
      apply_lora_params i param ;;;
      apply_all (S hi) rest params
  end.

(** The pooled vector of the current hidden state; computed only in
    calls with [start_pos == 0], where [denom] is bound. *)
Definition pool (h : hidden) (prompt_mask : option fmask)
    (denom : option (list float)) : M self_state pooled :=
  match prompt_mask, denom with
  | Some m, Some d => orraise Py.RuntimeError (masked_mean (dim cfg) h m d)
  | _, _ => raise Py.TypeError
  end.

(** The serial loop
    [for i, layer in enumerate(self.llama.layers[self.hyper_lora_start:])]. *)
Fixpoint run_serial (i : nat) (layers : list nat) (start_pos : nat)
    (prompt_mask : option fmask) (denom : option (list float))
    (hmn : hidden * memory * norm_term)
    : M self_state (hidden * memory * norm_term) :=
  match layers with
  | [] => ret hmn
  | l :: rest =>
      let '(h, mem, nt) := hmn in
      (if start_pos =? 0 then
         p <- pool h prompt_mask denom ;;
         param <- call_hyper_net_at p i ;;
         apply_lora_params l param
       else ret tt) ;;;
      out <- call_layer l h start_pos prompt_mask mem nt ;;
      run_serial (S i) rest start_pos prompt_mask denom out
  end.

(** [if start_pos == 0: denom = torch.sum(prompt_mask, -1).unsqueeze(-1)];
    a [prompt_mask] left at [None] is a [TypeError]. *)
Definition bind_denom (start_pos : nat) (prompt_mask : option fmask)
    : M self_state (option (list float)) :=
  if start_pos =? 0 then
    match prompt_mask with
    | Some m => ret (Some (denom_of m))
    | None => raise Py.TypeError
    end
  else ret None.

(** [forward_inference] (lines 171-229). *)
Definition forward_inference (tokens : list (list Z)) (start_pos : nat)
    (prompt_mask : option fmask) (mem : memory) (nt : norm_term)
    : M self_state (list vec * memory * norm_term) :=
  log (Forward start_pos (Py.ncols tokens) prompt_mask) ;;;
  let h := map (map tok_embeddings) tokens in
  hmn <- run_layers plain_layers start_pos prompt_mask (h, mem, nt) ;;
  hmn <- (if hyper_enabled then
            denom <- bind_denom start_pos prompt_mask ;;
            if negb (serial_generate cfg) then
              (if start_pos =? 0 then
                 p <- pool (fst (fst hmn)) prompt_mask denom ;;
                 params <- call_hyper_net p ;;
                 apply_all 0 hyper_layers params
               else ret tt) ;;;
              run_layers hyper_layers start_pos prompt_mask hmn
            else
              run_serial 0 hyper_layers start_pos prompt_mask denom hmn
          else ret hmn) ;;
  let '(h, mem, nt) := hmn in
  let h := map (map llama_norm) h in
  last <- orraise Py.IndexError (last_position h) ;;
  ret (map llama_output last, mem, nt).

(** [forward] (lines 95-169), the training pass. *)
Definition forward (tokens labels : list (list Z)) (start_pos : nat)
    (prompt_mask : option fmask) (mem : memory) (nt : norm_term)
    : M self_state (float * memory * norm_term) :=
  log (Forward start_pos (Py.ncols tokens) prompt_mask) ;;;
  let h := map (map tok_embeddings) tokens in
  hmn <- run_layers plain_layers start_pos prompt_mask (h, mem, nt) ;;
  hmn <- (if hyper_enabled then
            denom <- bind_denom start_pos prompt_mask ;;
            if negb (serial_generate cfg) then
              (if start_pos =? 0 then
                 p <- pool (fst (fst hmn)) prompt_mask denom ;;
                 params <- call_hyper_net p ;;
                 apply_all 0 hyper_layers params ;;;
                 set_pooling_states p
               else
                 s <- get ;;
                 p <- orraise Py.TypeError (pooling_states s) ;;
                 params <- call_hyper_net p ;;
                 apply_all 0 hyper_layers params) ;;;
              run_layers hyper_layers start_pos prompt_mask hmn
            else
              run_serial 0 hyper_layers start_pos prompt_mask denom hmn
          else ret hmn) ;;
  let '(h, mem, nt) := hmn in
  let output := map (map (fun v => llama_output (llama_norm v))) h in
  (* labels.sum() == 0, the sum of an int64 tensor *)
  if Z.eqb (int64_sum (concat labels)) 0 then
    ret (PrimFloat.mul (tensor_mean output) 0%float, mem, nt)
  else
    assert (Z.eqb (vocab_size cfg) 32000) ;;;
    ret (criterion (concat output) (concat labels), mem, nt).

(** *** [generate] (lines 231-321) *)

(** [input_text_mask[:, a:b].clone().float()] *)
Definition float_mask (a b : nat) (input_text_mask : list (list bool)) : fmask :=
  map (map (fun c : bool => if c then 1%float else 0%float))
      (Py.cols a b input_text_mask).

Definition zeros_like (m : fmask) : fmask := map (map (fun _ => 0%float)) m.

(** [hyper_input_type in ('instruction')]: the parentheses do not make a
    tuple, so this is a substring test against the string. *)
Definition is_instruction (hyper_input_type : string) : bool :=
  Py.contains hyper_input_type "instruction".

(** Lines 275-277, the span loop of the segmented branch. *)
Fixpoint mark_spans_checked (segment_size j : nat) (spans : list (nat * nat))
    (prompt_mask : fmask) : M self_state fmask :=
  match spans with
  | [] => ret prompt_mask
  | h_span :: rest =>
      assert (snd h_span <=? segment_size) ;;;
      m <- orraise Py.IndexError
             (set_row_span j (fst h_span) (snd h_span) prompt_mask) ;;
      mark_spans_checked segment_size (S j) rest m
  end.

(** Lines 287-288, the span loop of the non-segmented branch. *)
Fixpoint mark_spans (i : nat) (spans : list (nat * nat))
    (prompt_mask : fmask) : M self_state fmask :=
  match spans with
  | [] => ret prompt_mask
  | h_span :: rest =>
      m <- orraise Py.IndexError
             (set_row_span i (fst h_span) (snd h_span) prompt_mask) ;;
      mark_spans (S i) rest m
  end.

Section Generate.
Variable prompts : list (list Z).
Variable max_gen_len : nat.
Variables temperature top_p : float.
Variable segment_size : nat.
Variable hyper_input_type : string.
Variable hyper_input_spans : list (nat * nat).

Definition bsz : nat := length prompts.

(** [total_len = min(params.max_seq_len, max_gen_len + max_prompt_size)] *)
Definition total_len_of (max_prompt_size : nat) : nat :=
  Nat.min (max_seq_len cfg) (max_gen_len + max_prompt_size).

(** Lines 258-259: [for k, t in enumerate(prompts): tokens[k, :len(t)] = t]. *)
Fixpoint fill_prompts (ps : list (list Z)) (tokens : list (list Z))
    : option (list (list Z)) :=
  match ps, tokens with
  | [], _ => Some tokens
  | t :: ps', row :: tokens' =>
      match fill_row t row with
      | Some row' => option_map (cons row') (fill_prompts ps' tokens')
      | None => None
      end
  | _ :: _, [] => None
  end.

(** [input_text_mask = tokens != self.tokenizer.pad_id] *)
Definition text_mask (tokens : list (list Z)) : list (list bool) :=
  map (map (fun t => negb (Z.eqb t (pad_id cfg)))) tokens.

(** The prompt mask of the first segment (lines 272-277). *)
Definition segment_prompt_mask (input_text_mask : list (list bool))
    : M self_state fmask :=
  let prompt_mask := float_mask 0 segment_size input_text_mask in
  if is_instruction hyper_input_type then
    mark_spans_checked segment_size 0 hyper_input_spans (zeros_like prompt_mask)
  else ret prompt_mask.

(** The prompt mask of the non-segmented prefill (lines 284-288). *)
Definition prefill_prompt_mask (input_text_mask : list (list bool))
    (prev_pos cur_pos : nat) : M self_state fmask :=
  let prompt_mask := float_mask prev_pos cur_pos input_text_mask in
  if is_instruction hyper_input_type then
    mark_spans 0 hyper_input_spans (zeros_like prompt_mask)
  else ret prompt_mask.

(** Lines 270-281: [for i in range(len(tokens_segs))], with [logits]
    unbound before the first segment. *)
Fixpoint run_segments (input_text_mask : list (list bool))
    (tokens_segs : list (list (list Z))) (local_start_pos : nat)
    (acc : option (list vec) * memory * norm_term)
    : M self_state (option (list vec) * memory * norm_term) :=
  match tokens_segs with
  | [] => ret acc
  | seg :: rest =>
      let '(_, mem, nt) := acc in
      '(logits, mem, nt) <-
         (if local_start_pos =? 0 then
            prompt_mask <- segment_prompt_mask input_text_mask ;;
            forward_inference seg local_start_pos (Some prompt_mask) mem nt
          else
            forward_inference seg local_start_pos None mem nt) ;;
      run_segments input_text_mask rest (local_start_pos + Py.ncols seg)
                   (Some logits, mem, nt)
  end.

(** [prev_pos == 0 and cur_pos > segment_size] *)
Definition need_segment (prev_pos cur_pos : nat) : bool :=
  (prev_pos =? 0) && (segment_size <? cur_pos).

(** Lines 266-291: the model call of one iteration. *)
Definition run_model (input_text_mask : list (list bool))
    (tokens : list (list Z)) (prev_pos cur_pos : nat)
    (mem : memory) (nt : norm_term)
    : M self_state (list vec * memory * norm_term) :=
  if need_segment prev_pos cur_pos then
    let x := Py.cols prev_pos cur_pos tokens in
    (if segment_size =? 0 then raise Py.ValueError else ret tt) ;;;
    let tokens_segs :=
      Py.tensor_split x (Py.range segment_size (Py.ncols x) segment_size) in
    '(logits, mem, nt) <- run_segments input_text_mask tokens_segs 0 (None, mem, nt) ;;
    logits <- orraise Py.UnboundLocalError logits ;;
    ret (logits, mem, nt)
  else if prev_pos =? 0 then
    prompt_mask <- prefill_prompt_mask input_text_mask prev_pos cur_pos ;;
    forward_inference (Py.cols prev_pos cur_pos tokens) prev_pos
                      (Some prompt_mask) mem nt
  else
    forward_inference (Py.cols prev_pos cur_pos tokens) prev_pos None mem nt.

(** Lines 293-298. *)
Definition sample (cur_pos : nat) (logits : list vec) : list Z :=
  if PrimFloat.ltb 0%float temperature then
    let probs := map (fun row => softmax (map (fun x => PrimFloat.div x temperature) row)) logits in
    map (fun '(b, row) => sample_top_p cur_pos b row top_p)
        (combine (seq 0 (length probs)) probs)
  else map argmax logits.

Record loop_state : Type := {
  tokens_of : list (list Z);
  prev_pos_of : nat;
  memory_of : memory;
  norm_term_of : norm_term
}.

Inductive step_result : Type :=
| Continue (ls : loop_state)
| Break (ls : loop_state).

(** The loop state an iteration ends in. *)
Definition ls_of (r : step_result) : loop_state :=
  match r with
  | Continue ls => ls
  | Break ls => ls
  end.

(** One iteration of [for cur_pos in range(start_pos, total_len)]. *)
Definition decode_step (input_text_mask : list (list bool)) (cur_pos : nat)
    (ls : loop_state) : M self_state step_result :=
  '(logits, mem, nt) <-
     run_model input_text_mask (tokens_of ls) (prev_pos_of ls) cur_pos
               (memory_of ls) (norm_term_of ls) ;;
  let next_token := sample cur_pos logits in
  cond <- orraise Py.IndexError (column cur_pos input_text_mask) ;;
  cur <- orraise Py.IndexError (column cur_pos (tokens_of ls)) ;;
  next_token <- orraise Py.RuntimeError (where_ cond cur next_token) ;;
  tokens <- orraise Py.RuntimeError (set_column cur_pos next_token (tokens_of ls)) ;;
  stop <- (if bsz =? 1 then
             first <- orraise Py.IndexError (nth_error next_token 0) ;;
             ret (Z.eqb first (eos_id cfg))
           else ret false) ;;
  if (stop : bool) then
    ret (Break {| tokens_of := tokens; prev_pos_of := prev_pos_of ls;
                  memory_of := mem; norm_term_of := nt |})
  else
    ret (Continue {| tokens_of := tokens; prev_pos_of := cur_pos;
                     memory_of := mem; norm_term_of := nt |}).

Fixpoint decode_loop (input_text_mask : list (list bool))
    (positions : list nat) (ls : loop_state) : M self_state loop_state :=
  match positions with
  | [] => ret ls
  | cur_pos :: rest =>
      r <- decode_step input_text_mask cur_pos ls ;;
      match r with
      | Break ls' => ret ls'
      | Continue ls' => decode_loop input_text_mask rest ls'
      end
  end.

(** Lines 242-260: the token grid and the bounds of the loop. *)
Definition init_grid : M self_state (list (list Z) * nat * nat) :=
  assert (bsz <=? max_batch_size cfg) ;;;
  min_prompt_size <- orraise Py.ValueError (Py.min_list (map (@length Z) prompts)) ;;
  max_prompt_size <- orraise Py.ValueError (Py.max_list (map (@length Z) prompts)) ;;
  let total_len := total_len_of max_prompt_size in
  let tokens := full bsz total_len (pad_id cfg) in
  tokens <- orraise Py.RuntimeError (fill_prompts prompts tokens) ;;
  ret (tokens, min_prompt_size, total_len).

(** Lines 242-307: everything up to the end of the decode loop; the
    result is the final token grid. *)
Definition generate_tokens (memory0 : memory) (norm_term0 : norm_term)
    : M self_state (list (list Z)) :=
  '(tokens, start_pos, total_len) <- init_grid ;;
  let input_text_mask := text_mask tokens in
  ls <- decode_loop input_text_mask (Py.range start_pos total_len 1)
          {| tokens_of := tokens; prev_pos_of := 0;
             memory_of := memory0; norm_term_of := norm_term0 |} ;;
  ret (tokens_of ls).

(** Lines 312-318: the generated region of one row. *)
Definition cut (prompt : list Z) (t : list Z) : list Z :=
  let t := Py.slice (length prompt) (length prompt + max_gen_len) t in
  match Py.index (eos_id cfg) t with
  | Some k => Py.slice 0 k t
  | None => t
  end.

(** Lines 309-321. *)
Definition finalize (tokens : list (list Z)) : list string :=
  map (fun '(p, t) => tokenizer_decode (cut p t)) (combine prompts tokens).

Definition generate (memory0 : memory) (norm_term0 : norm_term)
    : M self_state (list string) :=
  tokens <- generate_tokens memory0 norm_term0 ;;
  ret (finalize tokens).

(** *** Preconditions and shorthands of the theory *)

(** The spans the caller passes are usable: one span at most per
    sequence, each ending within the segment length bound. *)
Definition spans_ok (bsz : nat) : Prop :=
  is_instruction hyper_input_type = true ->
  length hyper_input_spans <= bsz /\
  Forall (fun sp => snd sp <= segment_size) hyper_input_spans.

(** The iterations of a list of positions have run one after the other,
    from a loop state and an adapter state to others, and none of them
    left the loop. *)
Inductive stepped (input_text_mask : list (list bool))
    : list nat -> loop_state -> self_state -> loop_state -> self_state -> Prop :=
| stepped_nil ls s : stepped input_text_mask [] ls s ls s
| stepped_cons cur_pos rest ls s ls1 s1 ls' s' :
    decode_step input_text_mask cur_pos ls s = (Ok (Continue ls1), s1) ->
    stepped input_text_mask rest ls1 s1 ls' s' ->
    stepped input_text_mask (cur_pos :: rest) ls s ls' s'.

(** The grid [generate] starts from. *)
Definition padded (total : nat) : list (list Z) :=
  map (fun t => t ++ repeat (pad_id cfg) (total - length t)) prompts.

(** The number of columns of the first forward call. *)
Definition first_width (start : nat) : nat :=
  if need_segment 0 start then segment_size else start.

(** A call of [generate] that reaches the decode loop: the batch is
    within [max_batch_size], every prompt fits the grid, the shortest
    prompt is not empty and leaves at least one position to decode, the
    segment length bound is positive and the spans are usable. *)
Definition runs (start total : nat) : Prop :=
  length prompts <= max_batch_size cfg /\
  Py.min_list (map (@length Z) prompts) = Some start /\
  (exists longest, Py.max_list (map (@length Z) prompts) = Some longest /\
                   total = total_len_of longest) /\
  Forall (fun t => length t <= total) prompts /\
  0 < start < total /\
  0 < segment_size /\
  spans_ok (length prompts).

End Generate.

(** ** Theory *)

(** *** The monad *)

Lemma bind_inv {St A B} (c : M St A) (k : A -> M St B) s r s' :
  bind c k s = (r, s') ->
  (exists a s1, c s = (Ok a, s1) /\ k a s1 = (r, s')) \/
  (exists e, c s = (Raise e, s') /\ r = Raise e).
Proof.
  unfold bind. destruct (c s) as [[a|e] s1]; intro H.
  - left. now exists a, s1.
  - right. exists e. now injection H as <- <-.
Qed.

Lemma bind_ok {St A B} (c : M St A) (k : A -> M St B) s b s' :
  bind c k s = (Ok b, s') ->
  exists a s1, c s = (Ok a, s1) /\ k a s1 = (Ok b, s').
Proof.
  intro H. destruct (bind_inv _ _ _ H) as [H1|(e & _ & H1)];
    [exact H1|discriminate].
Qed.

Lemma bind_eq {St A B} (c : M St A) (k : A -> M St B) s a s1 :
  c s = (Ok a, s1) -> bind c k s = k a s1.
Proof. unfold bind. now intros ->. Qed.

Lemma bind_raise {St A B} (c : M St A) (k : A -> M St B) s e s1 :
  c s = (Raise e, s1) -> bind c k s = (Raise e, s1).
Proof. unfold bind. now intros ->. Qed.

Lemma orraise_ok {St A} e (o : option A) (s s' : St) a :
  orraise e o s = (Ok a, s') -> o = Some a /\ s' = s.
Proof. destruct o; cbn; intros [= <- <-] || intros [=]; auto. Qed.

Lemma orraise_state {St A} e (o : option A) (s s' : St) r :
  orraise e o s = (r, s') -> s' = s.
Proof. destruct o; cbn; now intros [= _ <-]. Qed.

Lemma assert_ok {St} (b : bool) (s s' : St) u :
  assert b s = (Ok u, s') -> b = true /\ s' = s.
Proof. destruct b; cbn; intros [= <-] || intros [=]; auto. Qed.


(** *** Python helpers *)

Lemma range_step_one (a b : nat) : Py.range a b 1 = seq a (b - a).
Proof.
  unfold Py.range. rewrite Nat.sub_diag, Nat.add_0_r, Nat.div_1_r.
  assert (H : forall n i, map (fun k => a + k * 1) (seq i n) = seq (a + i) n).
  { induction n as [|n IH]; intro i; [reflexivity|].
    simpl. f_equal; [lia|]. rewrite IH. f_equal. lia. }
  rewrite H. f_equal. lia.
Qed.

Lemma fold_max_ge (l : list nat) (x : nat) :
  x <= fold_left Nat.max l x /\ Forall (fun y => y <= fold_left Nat.max l x) l.
Proof.
  revert x. induction l as [|y l IH]; intro x; simpl; [split; auto|].
  destruct (IH (Nat.max x y)) as [H1 H2]. split; [lia|].
  constructor; [lia|exact H2].
Qed.

Lemma fold_min_le (l : list nat) (x : nat) :
  fold_left Nat.min l x <= x /\ Forall (fun y => fold_left Nat.min l x <= y) l.
Proof.
  revert x. induction l as [|y l IH]; intro x; simpl; [split; auto|].
  destruct (IH (Nat.min x y)) as [H1 H2]. split; [lia|].
  constructor; [lia|exact H2].
Qed.

Lemma fold_max_in (l : list nat) (x : nat) :
  fold_left Nat.max l x = x \/ In (fold_left Nat.max l x) l.
Proof.
  revert x. induction l as [|y l IH]; intro x; simpl; [now left|].
  destruct (IH (Nat.max x y)) as [H|H]; [|now right; right].
  rewrite H. destruct (Nat.max_spec x y) as [[_ E]|[_ E]]; rewrite E; auto.
Qed.

Lemma fold_min_in (l : list nat) (x : nat) :
  fold_left Nat.min l x = x \/ In (fold_left Nat.min l x) l.
Proof.
  revert x. induction l as [|y l IH]; intro x; simpl; [now left|].
  destruct (IH (Nat.min x y)) as [H|H]; [|now right; right].
  rewrite H. destruct (Nat.min_spec x y) as [[_ E]|[_ E]]; rewrite E; auto.
Qed.

Lemma max_list_spec (l : list nat) (m : nat) :
  Py.max_list l = Some m -> In m l /\ Forall (fun y => y <= m) l.
Proof.
  destruct l as [|x l]; [discriminate|]. simpl. intros [= <-].
  destruct (fold_max_ge l x) as [H1 H2]. split.
  - destruct (fold_max_in l x) as [E|E]; [left; now rewrite E|now right].
  - constructor; assumption.
Qed.

Lemma min_list_spec (l : list nat) (m : nat) :
  Py.min_list l = Some m -> In m l /\ Forall (fun y => m <= y) l.
Proof.
  destruct l as [|x l]; [discriminate|]. simpl. intros [= <-].
  destruct (fold_min_le l x) as [H1 H2]. split.
  - destruct (fold_min_in l x) as [E|E]; [left; now rewrite E|now right].
  - constructor; assumption.
Qed.

Lemma slice_length {A} (a b : nat) (l : list A) :
  length (Py.slice a b l) = Nat.min (b - a) (length l - a).
Proof. unfold Py.slice. now rewrite length_firstn, length_skipn. Qed.

(** *** The token grid *)

Lemma fill_row_fits (t : list Z) (pad : Z) (n : nat) :
  length t <= n ->
  fill_row t (repeat pad n) = Some (t ++ repeat pad (n - length t)).
Proof.
  intro H. unfold fill_row. rewrite slice_length, repeat_length.
  replace (Nat.min (length t - 0) (n - 0)) with (length t) by lia.
  rewrite Nat.eqb_refl. do 2 f_equal.
  replace n with (length t + (n - length t)) at 1 by lia.
  rewrite repeat_app, skipn_app, repeat_length, Nat.sub_diag, skipn_all2
    by (rewrite repeat_length; lia).
  reflexivity.
Qed.

Lemma fill_row_overlong (t : list Z) (pad : Z) (n : nat) :
  n < length t -> 2 <= length t -> fill_row t (repeat pad n) = None.
Proof.
  intros H H2. unfold fill_row. rewrite slice_length, repeat_length.
  replace (Nat.min (length t - 0) (n - 0)) with n by lia.
  destruct (Nat.eqb_spec (length t) n) as [E|_]; [lia|].
  destruct t as [|x [|y t]]; simpl in *; try lia. reflexivity.
Qed.

Lemma fill_prompts_fits (pad : Z) (n : nat) (ps : list (list Z)) :
  Forall (fun t => length t <= n) ps ->
  fill_prompts ps (repeat (repeat pad n) (length ps))
  = Some (map (fun t => t ++ repeat pad (n - length t)) ps).
Proof.
  induction 1 as [|t ps Ht _ IH]; [reflexivity|].
  simpl. rewrite (fill_row_fits _ _ Ht), IH. reflexivity.
Qed.


Lemma init_grid_fits prompts max_gen_len (s : self_state) longest :
  length prompts <= max_batch_size cfg ->
  Py.max_list (map (@length Z) prompts) = Some longest ->
  Forall (fun t => length t <= total_len_of max_gen_len longest) prompts ->
  exists start,
    Py.min_list (map (@length Z) prompts) = Some start /\
    init_grid prompts max_gen_len s
    = (Ok (map (fun t => t ++ repeat (pad_id cfg)
                                (total_len_of max_gen_len longest - length t))
               prompts, start, total_len_of max_gen_len longest), s).
Proof.
  intros Hb Hmax Hfit.
  destruct (Py.min_list (map (@length Z) prompts)) as [start|] eqn:Hmin.
  2:{ destruct prompts; discriminate. }
  exists start. split; [reflexivity|].
  unfold init_grid, bind, assert, orraise, bsz.
  apply Nat.leb_le in Hb. rewrite Hb, Hmin, Hmax. cbn.
  unfold full. rewrite (fill_prompts_fits _ Hfit). reflexivity.
Qed.




(** *** Columns of the grid *)

Lemma column_spec {A} (c : nat) (g : list (list A)) (col : list A) :
  column c g = Some col ->
  length col = length g /\
  forall b r, nth_error g b = Some r ->
    exists x, nth_error col b = Some x /\ nth_error r c = Some x.
Proof.
  revert col. induction g as [|r0 g IH]; simpl; intros col H.
  - injection H as <-. split; [reflexivity|]. intros [|b] r; discriminate.
  - destruct (nth_error r0 c) as [x|] eqn:Ex; [|discriminate].
    destruct (column c g) as [col'|]; [|discriminate].
    injection H as <-. destruct (IH _ eq_refl) as [Hl Hn].
    split; [simpl; now rewrite Hl|].
    intros [|b] r Hr; simpl in *.
    + injection Hr as <-. now exists x.
    + now apply Hn.
Qed.

Lemma where_spec {A} (cond : list bool) (a b w : list A) :
  where_ cond a b = Some w ->
  length w = length cond /\ length a = length cond /\ length b = length cond /\
  forall i c, nth_error cond i = Some c ->
    exists x y, nth_error a i = Some x /\ nth_error b i = Some y /\
                nth_error w i = Some (if c then x else y).
Proof.
  revert a b w. induction cond as [|c0 cond IH]; intros [|x a] [|y b] w H;
    simpl in H; try discriminate.
  - injection H as <-. repeat split. intros [|i] c; discriminate.
  - destruct (where_ cond a b) as [w'|] eqn:E; [|discriminate].
    injection H as <-. destruct (IH _ _ _ E) as (H1 & H2 & H3 & H4).
    simpl. repeat split; try congruence.
    intros [|i] c Hc; simpl in *.
    + injection Hc as <-. now exists x, y.
    + now apply H4.
Qed.

(** The row [r] with position [c] replaced by [x]. *)
Lemma nth_error_put {A} (c : nat) (x : A) (r : list A) (q : nat) :
  c < length r ->
  nth_error (firstn c r ++ x :: skipn (S c) r) q
  = if q =? c then Some x else nth_error r q.
Proof.
  intro H. destruct (Nat.eqb_spec q c) as [->|Hq].
  - rewrite nth_error_app2 by (rewrite length_firstn; lia).
    rewrite length_firstn. replace (c - Nat.min c (length r)) with 0 by lia.
    reflexivity.
  - destruct (Nat.lt_ge_cases q c) as [Hlt|Hge].
    + rewrite nth_error_app1 by (rewrite length_firstn; lia).
      now rewrite nth_error_firstn, (proj2 (Nat.ltb_lt _ _) Hlt).
    + rewrite nth_error_app2 by (rewrite length_firstn; lia).
      rewrite length_firstn. replace (Nat.min c (length r)) with c by lia.
      destruct (q - c) as [|k] eqn:Ek; [lia|]. cbn [nth_error].
      rewrite nth_error_skipn. f_equal. lia.
Qed.

Lemma length_put {A} (c : nat) (x : A) (r : list A) :
  c < length r -> length (firstn c r ++ x :: skipn (S c) r) = length r.
Proof.
  intro H. rewrite length_app, length_firstn. cbn [length].
  rewrite length_skipn. lia.
Qed.

Lemma set_column_spec {A} (c : nat) (v : list A) (g g' : list (list A)) :
  set_column c v g = Some g' ->
  length v = length g /\ length g' = length g /\
  forall b r, nth_error g b = Some r ->
    exists x, nth_error v b = Some x /\ c < length r /\
              nth_error g' b = Some (firstn c r ++ x :: skipn (S c) r).
Proof.
  revert v g'. induction g as [|r0 g IH]; intros [|x v] g' H; simpl in H;
    try discriminate.
  - injection H as <-. repeat split. intros [|b] r; discriminate.
  - destruct (c <? length r0) eqn:Ec; [|discriminate].
    destruct (set_column c v g) as [g1|] eqn:E; [|discriminate].
    injection H as <-. destruct (IH _ _ E) as (H1 & H2 & H3).
    simpl. repeat split; try congruence.
    intros [|b] r Hr; simpl in *.
    + injection Hr as <-. exists x. apply Nat.ltb_lt in Ec. auto.
    + now apply H3.
Qed.

Lemma set_column_cell {A} (c : nat) (v : list A) (g g' : list (list A)) b p :
  set_column c v g = Some g' ->
  b < length g ->
  cell g' b p = if p =? c then nth_error v b else cell g b p.
Proof.
  intros H Hb. destruct (set_column_spec _ _ _ H) as (_ & _ & Hs).
  unfold cell. destruct (nth_error g b) as [r|] eqn:Er.
  2:{ apply nth_error_None in Er. lia. }
  destruct (Hs _ _ Er) as (x & Hx & Hc & ->).
  rewrite (nth_error_put _ _ _ Hc). now rewrite Hx.
Qed.

Lemma set_column_widths {A} (c : nat) (v : list A) (g g' : list (list A)) :
  set_column c v g = Some g' -> map (@length A) g' = map (@length A) g.
Proof.
  revert v g'. induction g as [|r0 g IH]; intros [|x v] g' H; simpl in H;
    try discriminate.
  - now injection H as <-.
  - destruct (c <? length r0) eqn:Ec; [|discriminate].
    destruct (set_column c v g) as [g1|] eqn:E; [|discriminate].
    injection H as <-. simpl. apply Nat.ltb_lt in Ec.
    now rewrite (length_put _ _ Ec), (IH _ _ E).
Qed.

(** *** One decode iteration *)

Section DecodeTheory.
Variable prompts : list (list Z).
Variable max_gen_len : nat.
Variables temperature top_p : float.
Variable segment_size : nat.
Variable hyper_input_type : string.
Variable hyper_input_spans : list (nat * nat).

Local Abbreviation step :=
  (decode_step prompts temperature top_p segment_size
               hyper_input_type hyper_input_spans).
Local Abbreviation loop :=
  (decode_loop prompts temperature top_p segment_size
               hyper_input_type hyper_input_spans).
Local Abbreviation model :=
  (run_model segment_size hyper_input_type hyper_input_spans).
Local Abbreviation tokens_run :=
  (generate_tokens prompts max_gen_len temperature top_p segment_size
                   hyper_input_type hyper_input_spans).
Local Abbreviation steps :=
  (stepped prompts temperature top_p segment_size
           hyper_input_type hyper_input_spans).
Local Abbreviation start_state tokens memory0 norm_term0 :=
  ({| tokens_of := tokens; prev_pos_of := 0;
      memory_of := memory0; norm_term_of := norm_term0 |}).

Lemma decode_step_inv mask cur ls (s s' : self_state) r :
  step mask cur ls s = (Ok r, s') ->
  exists logits cond curcol next,
    model mask (tokens_of ls) (prev_pos_of ls) cur (memory_of ls)
          (norm_term_of ls) s
    = (Ok (logits, memory_of (ls_of r), norm_term_of (ls_of r)), s') /\
    column cur mask = Some cond /\
    column cur (tokens_of ls) = Some curcol /\
    where_ cond curcol (sample temperature top_p cur logits) = Some next /\
    set_column cur next (tokens_of ls) = Some (tokens_of (ls_of r)) /\
    match r with
    | Break l =>
        bsz prompts = 1 /\ nth_error next 0 = Some (eos_id cfg) /\
        prev_pos_of l = prev_pos_of ls
    | Continue l =>
        prev_pos_of l = cur /\
        (bsz prompts = 1 ->
         exists x, nth_error next 0 = Some x /\ x <> eos_id cfg)
    end.
Proof.
  unfold decode_step. intro H.
  apply bind_ok in H as ([[logits mem] nt] & s1 & Hm & H).
  apply bind_ok in H as (cond & s2 & Hc & H).
  apply orraise_ok in Hc as [Hc ->].
  apply bind_ok in H as (curcol & s2 & Hcur & H).
  apply orraise_ok in Hcur as [Hcur ->].
  apply bind_ok in H as (next & s2 & Hw & H).
  apply orraise_ok in Hw as [Hw ->].
  apply bind_ok in H as (tokens & s2 & Hs & H).
  apply orraise_ok in Hs as [Hs ->].
  apply bind_ok in H as (stop & s2 & Hstop & H).
  exists logits, cond, curcol, next.
  destruct (Nat.eqb_spec (bsz prompts) 1) as [Hb|Hb].
  - apply bind_ok in Hstop as (x & s3 & Hx & Hstop).
    apply orraise_ok in Hx as [Hx ->]. injection Hstop as <- <-.
    destruct (Z.eqb_spec x (eos_id cfg)) as [->|Hne];
      injection H as <- <-; cbn; repeat split; auto.
    intros _. now exists x.
  - injection Hstop as <- <-. injection H as <- <-. cbn. repeat split; auto.
    intro. contradiction.
Qed.

(** An invariant indexed by the next position to decode. *)
Lemma decode_loop_seq_inv (P : nat -> loop_state -> Prop)
    (Q : loop_state -> Prop) mask :
  (forall cur ls (s s' : self_state) r,
      P cur ls -> step mask cur ls s = (Ok r, s') ->
      match r with
      | Continue l => P (S cur) l
      | Break l => Q l
      end) ->
  forall n a ls (s s' : self_state) ls',
    (forall l, P (a + n) l -> Q l) ->
    P a ls -> loop mask (seq a n) ls s = (Ok ls', s') -> Q ls'.
Proof.
  intros Hstep. induction n as [|n IH]; intros a ls s s' ls' Hend HP H.
  - injection H as <- <-. apply Hend. now rewrite Nat.add_0_r.
  - cbn in H. apply bind_ok in H as (r & s1 & Hr & H).
    specialize (Hstep _ _ _ _ _ HP Hr). destruct r as [l|l].
    + apply (IH (S a) l s1 s' ls'); auto.
      intros l0. rewrite Nat.add_succ_comm. apply Hend.
    + now injection H as <- <-.
Qed.

Lemma decode_loop_inv (P : loop_state -> Prop) mask :
  (forall cur ls (s s' : self_state) r,
      P ls -> step mask cur ls s = (Ok r, s') -> P (ls_of r)) ->
  forall positions ls (s s' : self_state) ls',
    P ls -> loop mask positions ls s = (Ok ls', s') -> P ls'.
Proof.
  intros Hstep. induction positions as [|cur rest IH]; intros ls s s' ls' HP H.
  - now injection H as <- <-.
  - cbn in H. apply bind_ok in H as (r & s1 & Hr & H).
    specialize (Hstep _ _ _ _ _ HP Hr). destruct r as [l|l].
    + now apply (IH l s1 s' ls').
    + now injection H as <- <-.
Qed.

(** Teacher forcing in one iteration: a grid entry whose mask bit is
    set comes out of the iteration as it went in, whatever the sampler
    returned; in particular the token written at column [cur] of such a
    row is the one that was there. *)
Lemma decode_step_keeps_prompt mask cur ls (s s' : self_state) r b p :
  step mask cur ls s = (Ok r, s') ->
  cell mask b p = Some true ->
  b < length (tokens_of ls) ->
  cell (tokens_of (ls_of r)) b p = cell (tokens_of ls) b p.
Proof.
  intros H Hm Hb.
  destruct (decode_step_inv _ _ _ _ H)
    as (logits & cond & curcol & next & _ & Hc & Hcur & Hw & Hs & _).
  rewrite (set_column_cell _ _ _ p Hs Hb).
  destruct (Nat.eqb_spec p cur) as [->|_]; [|reflexivity].
  unfold cell in *.
  destruct (nth_error mask b) as [mr|] eqn:Emr; [|discriminate].
  destruct (nth_error (tokens_of ls) b) as [row|] eqn:Erow.
  2:{ apply nth_error_None in Erow. lia. }
  destruct (proj2 (column_spec _ _ Hc) _ _ Emr) as (c & Hcb & Hc').
  destruct (proj2 (column_spec _ _ Hcur) _ _ Erow) as (y & Hyb & Hy).
  destruct (where_spec _ _ _ Hw) as (_ & _ & _ & Hwi).
  destruct (Hwi _ _ Hcb) as (x1 & y1 & Hx1 & _ & Hn).
  rewrite Hn. assert (c = true) by congruence. subst c. congruence.
Qed.

Lemma decode_step_widths mask cur ls (s s' : self_state) r :
  step mask cur ls s = (Ok r, s') ->
  map (@length Z) (tokens_of (ls_of r)) = map (@length Z) (tokens_of ls).
Proof.
  intro H.
  destruct (decode_step_inv _ _ _ _ H)
    as (logits & cond & curcol & next & _ & _ & _ & _ & Hs & _).
  exact (set_column_widths _ _ _ Hs).
Qed.

(** *** The grid built by [generate] *)

Lemma fill_row_length (t row row' : list Z) :
  fill_row t row = Some row' -> length row' = length row.
Proof.
  unfold fill_row. pose proof (slice_length 0 (length t) row) as Hw.
  destruct (Nat.eqb_spec (length t) (length (Py.slice 0 (length t) row))) as [E|_].
  - intros [= <-]. rewrite length_app, length_skipn. lia.
  - destruct t as [|x [|y t]]; try discriminate.
    intros [= <-]. rewrite length_app, repeat_length, length_skipn.
    cbn [length] in Hw. lia.
Qed.

Lemma fill_prompts_widths (ps g g' : list (list Z)) :
  fill_prompts ps g = Some g' -> map (@length Z) g' = map (@length Z) g.
Proof.
  revert g g'. induction ps as [|t ps IH]; intros g g' H.
  - now injection H as <-.
  - destruct g as [|row g]; [discriminate|]. cbn in H.
    destruct (fill_row t row) as [row'|] eqn:Er; [|discriminate].
    destruct (fill_prompts ps g) as [g1|] eqn:Eg; [|discriminate].
    injection H as <-. cbn. now rewrite (fill_row_length _ _ Er), (IH _ _ Eg).
Qed.

Lemma fill_row_inv (t : list Z) (pad : Z) (n : nat) row :
  0 < n \/ length t <> 1 ->
  fill_row t (repeat pad n) = Some row ->
  length t <= n /\ row = t ++ repeat pad (n - length t).
Proof.
  intros Hn H. destruct (Nat.le_gt_cases (length t) n) as [Hle|Hgt].
  - rewrite (fill_row_fits _ _ Hle) in H. split; congruence.
  - rewrite fill_row_overlong in H; [discriminate|exact Hgt|lia].
Qed.

Lemma fill_prompts_inv (pad : Z) (n : nat) (ps g : list (list Z)) :
  0 < n \/ Forall (fun t => length t <> 1) ps ->
  fill_prompts ps (repeat (repeat pad n) (length ps)) = Some g ->
  Forall (fun t => length t <= n) ps /\
  g = map (fun t => t ++ repeat pad (n - length t)) ps.
Proof.
  intro Hn. revert g. induction ps as [|t ps IH]; intros g H.
  - injection H as <-. split; [constructor|reflexivity].
  - cbn in H. destruct (fill_row t (repeat pad n)) as [row|] eqn:Er; [|discriminate].
    destruct (fill_prompts ps _) as [g1|] eqn:Eg; [|discriminate].
    injection H as <-.
    assert (Ht : 0 < n \/ length t <> 1).
    { destruct Hn as [Hn|Hn]; [now left|right; now inversion Hn]. }
    assert (Hps : 0 < n \/ Forall (fun t => length t <> 1) ps).
    { destruct Hn as [Hn|Hn]; [now left|right; now inversion Hn]. }
    destruct (fill_row_inv _ _ Ht Er) as [Hle ->].
    destruct (IH Hps _ eq_refl) as [Hall ->].
    split; [now constructor|reflexivity].
Qed.

Lemma init_grid_inv (s s' : self_state) tokens start total :
  init_grid prompts max_gen_len s = (Ok (tokens, start, total), s') ->
  s' = s /\
  length prompts <= max_batch_size cfg /\
  exists longest,
    Py.max_list (map (@length Z) prompts) = Some longest /\
    Py.min_list (map (@length Z) prompts) = Some start /\
    total = total_len_of max_gen_len longest /\
    fill_prompts prompts (full (length prompts) total (pad_id cfg)) = Some tokens.
Proof.
  unfold init_grid. intro H.
  apply bind_ok in H as (u & s1 & Ha & H). apply assert_ok in Ha as [Ha ->].
  apply bind_ok in H as (mn & s1 & Hmin & H). apply orraise_ok in Hmin as [Hmin ->].
  apply bind_ok in H as (mx & s1 & Hmax & H). apply orraise_ok in Hmax as [Hmax ->].
  apply bind_ok in H as (g & s1 & Hf & H). apply orraise_ok in Hf as [Hf ->].
  injection H as <- <- <- <-.
  split; [reflexivity|]. split; [now apply Nat.leb_le|].
  exists mx. auto.
Qed.

(** With a positive [max_seq_len], a grid that was filled holds every
    prompt followed by padding. *)
Lemma init_grid_rows (s s' : self_state) tokens start total :
  0 < max_seq_len cfg ->
  init_grid prompts max_gen_len s = (Ok (tokens, start, total), s') ->
  Forall (fun t => length t <= total) prompts /\
  tokens = map (fun t => t ++ repeat (pad_id cfg) (total - length t)) prompts.
Proof.
  intros Hpos H.
  destruct (init_grid_inv _ H) as (_ & _ & longest & Hmax & _ & -> & Hf).
  apply fill_prompts_inv in Hf; [exact Hf|].
  destruct (max_list_spec _ Hmax) as [_ Hle]. rewrite Forall_map in Hle.
  unfold total_len_of.
  destruct longest as [|k]; [right|left; lia].
  eapply Forall_impl; [|exact Hle]. cbn. lia.
Qed.

Lemma generate_tokens_inv memory0 norm_term0 (s s' : self_state) g :
  tokens_run memory0 norm_term0 s = (Ok g, s') ->
  exists tokens start total ls,
    init_grid prompts max_gen_len s = (Ok (tokens, start, total), s) /\
    loop (text_mask tokens) (seq start (total - start))
         {| tokens_of := tokens; prev_pos_of := 0;
            memory_of := memory0; norm_term_of := norm_term0 |} s
    = (Ok ls, s') /\
    g = tokens_of ls.
Proof.
  unfold generate_tokens. intro H.
  apply bind_ok in H as ([[tokens start] total] & s1 & Hi & H).
  pose proof (init_grid_inv _ Hi) as [-> _].
  apply bind_ok in H as (ls & s2 & Hl & H). injection H as <- <-.
  rewrite range_step_one in Hl. now exists tokens, start, total, ls.
Qed.

Lemma cell_map {A B} (f : A -> B) (g : list (list A)) b p :
  cell (map (map f) g) b p = option_map f (cell g b p).
Proof.
  unfold cell. rewrite nth_error_map.
  destruct (nth_error g b) as [r|]; [|reflexivity].
  cbn. now rewrite nth_error_map.
Qed.

Lemma cell_lt {A} (g : list (list A)) b p x :
  cell g b p = Some x -> b < length g.
Proof.
  unfold cell. intro H. apply nth_error_Some.
  destruct (nth_error g b); [discriminate|discriminate].
Qed.

Lemma cell_padded (ps : list (list Z)) pad n b prompt p t :
  nth_error ps b = Some prompt -> nth_error prompt p = Some t ->
  cell (map (fun t => t ++ repeat pad (n - length t)) ps) b p = Some t.
Proof.
  intros Hb Hp. unfold cell. rewrite nth_error_map, Hb. cbn.
  rewrite nth_error_app1; [exact Hp|].
  apply nth_error_Some. now rewrite Hp.
Qed.

(** C8: teacher forcing.  In every decode iteration that completes, a
    row whose mask bit at the current position is set keeps, at that
    position, the token that was in the grid, whatever the sampler
    returned; and in the grid [generate] ends with, every position that
    holds a (non-pad) token of a prompt still holds that token. *)
Theorem prompt_positions_keep_prompt_tokens memory0 norm_term0
    (s s' : self_state) g :
  0 < max_seq_len cfg ->
  tokens_run memory0 norm_term0 s = (Ok g, s') ->
  (forall mask cur ls (s1 s2 : self_state) r b,
      step mask cur ls s1 = (Ok r, s2) ->
      cell mask b cur = Some true ->
      b < length (tokens_of ls) ->
      cell (tokens_of (ls_of r)) b cur = cell (tokens_of ls) b cur) /\
  (forall b prompt p t,
      nth_error prompts b = Some prompt ->
      nth_error prompt p = Some t ->
      t <> pad_id cfg ->
      cell g b p = Some t).
Proof.
  intros Hpos H. split.
  { intros mask cur ls s1 s2 r b Hs Hm Hb.
    eapply decode_step_keeps_prompt; eassumption. }
  intros b prompt p t Hb Hp Ht.
  destruct (generate_tokens_inv _ _ _ H) as (tokens & start & total & ls & Hi & Hl & ->).
  destruct (init_grid_rows _ Hpos Hi) as [_ Hrows].
  assert (Hcell : cell tokens b p = Some t).
  { rewrite Hrows. now apply cell_padded with (prompt := prompt). }
  assert (Hmask : cell (text_mask tokens) b p = Some true).
  { unfold text_mask. rewrite cell_map, Hcell. cbn.
    destruct (Z.eqb_spec t (pad_id cfg)); [contradiction|reflexivity]. }
  rewrite <- Hcell.
  eapply (decode_loop_inv
    (fun l => length (tokens_of l) = length tokens /\
              forall b p, cell (text_mask tokens) b p = Some true ->
                          cell (tokens_of l) b p = cell tokens b p)) in Hl.
  - now apply Hl.
  - intros cur l s1 s2 r [Hlen Hinv] Hs. split.
    + rewrite <- Hlen. rewrite <- !(length_map (@length Z)).
      now rewrite (decode_step_widths _ _ _ _ Hs).
    + intros b0 p0 Hm0. rewrite <- (Hinv _ _ Hm0).
      eapply decode_step_keeps_prompt; [exact Hs|exact Hm0|].
      rewrite Hlen. apply cell_lt in Hm0. unfold text_mask in Hm0.
      now rewrite length_map in Hm0.
  - cbn. split; [reflexivity|]. intros; reflexivity.
Qed.

(** *** The returned slices *)

Lemma index_spec (x : Z) (l : list Z) :
  match Py.index x l with
  | Some k => exists l2, l = firstn k l ++ x :: l2 /\ k < length l /\
                         ~ In x (firstn k l)
  | None => ~ In x l
  end.
Proof.
  induction l as [|y l IH]; cbn; [tauto|].
  destruct (Z.eqb_spec y x) as [->|Hne].
  - exists l. cbn. split; [reflexivity|]. split; [lia|tauto].
  - destruct (Py.index x l) as [k|]; cbn.
    + destruct IH as (l2 & E & Hk & Hn). exists l2. cbn.
      split; [now rewrite <- E|]. split; [lia|]. intros [H|H]; auto.
    + intros [H|H]; auto.
Qed.

Lemma cut_spec (prompt t : list Z) :
  exists tail,
    Py.slice (length prompt) (length prompt + max_gen_len) t
    = cut max_gen_len prompt t ++ tail /\
    ~ In (eos_id cfg) (cut max_gen_len prompt t) /\
    (tail = [] \/ hd_error tail = Some (eos_id cfg)) /\
    length (cut max_gen_len prompt t) <= max_gen_len.
Proof.
  unfold cut.
  set (sl := Py.slice (length prompt) (length prompt + max_gen_len) t).
  assert (Hsl : length sl <= max_gen_len).
  { unfold sl. rewrite slice_length. lia. }
  pose proof (index_spec (eos_id cfg) sl) as Hi.
  destruct (Py.index (eos_id cfg) sl) as [k|].
  - destruct Hi as (l2 & E & Hk & Hn).
    assert (Ek : Py.slice 0 k sl = firstn k sl).
    { unfold Py.slice. now rewrite Nat.sub_0_r. }
    rewrite Ek. exists (eos_id cfg :: l2). repeat split; auto.
    rewrite length_firstn. lia.
  - exists []. rewrite app_nil_r. repeat split; auto.
Qed.

(** C9: the grid has [bsz] rows of exactly
    [min(max_seq_len, max_gen_len + longest_prompt)] columns, from its
    allocation to the end of the loop; the result holds, for each
    sequence, the decoding of a prefix of the slice of at most
    [max_gen_len] tokens that starts right after the sequence's prompt:
    the prefix has no end-of-sequence token and stops either at the end
    of the slice or just before its first end-of-sequence token. *)
Theorem generate_returns_cut_slices memory0 norm_term0
    (s s' : self_state) out :
  generate prompts max_gen_len temperature top_p segment_size
           hyper_input_type hyper_input_spans memory0 norm_term0 s
  = (Ok out, s') ->
  exists g longest,
    tokens_run memory0 norm_term0 s = (Ok g, s') /\
    Py.max_list (map (@length Z) prompts) = Some longest /\
    map (@length Z) g
    = repeat (Nat.min (max_seq_len cfg) (max_gen_len + longest)) (length prompts) /\
    length out = length prompts /\
    forall i prompt row,
      nth_error prompts i = Some prompt ->
      nth_error g i = Some row ->
      exists toks tail,
        nth_error out i = Some (tokenizer_decode toks) /\
        Py.slice (length prompt) (length prompt + max_gen_len) row = toks ++ tail /\
        ~ In (eos_id cfg) toks /\
        (tail = [] \/ hd_error tail = Some (eos_id cfg)) /\
        length toks <= max_gen_len.
Proof.
  unfold generate. intro H.
  apply bind_ok in H as (g & s1 & Hg & H). injection H as <- <-.
  destruct (generate_tokens_inv _ _ _ Hg) as (tokens & start & total & ls & Hi & Hl & ->).
  destruct (init_grid_inv _ Hi) as (_ & _ & longest & Hmax & _ & -> & Hf).
  assert (Hw0 : map (@length Z) tokens
                = repeat (total_len_of max_gen_len longest) (length prompts)).
  { rewrite (fill_prompts_widths _ _ Hf). unfold full.
    generalize (length prompts) as n. induction n as [|n IH]; cbn;
      [reflexivity|]. now rewrite repeat_length, IH. }
  assert (Hw : map (@length Z) (tokens_of ls) = map (@length Z) tokens).
  { eapply (decode_loop_inv
      (fun l => map (@length Z) (tokens_of l) = map (@length Z) tokens)) in Hl;
      [exact Hl| |reflexivity].
    intros cur l sa sb r Hinv Hs.
    now rewrite (decode_step_widths _ _ _ _ Hs). }
  assert (Hlen : length (tokens_of ls) = length prompts).
  { rewrite <- (length_map (@length Z)), Hw, Hw0. apply repeat_length. }
  exists (tokens_of ls), longest. split; [exact Hg|]. split; [exact Hmax|].
  split; [now rewrite Hw, Hw0|].
  split.
  { unfold finalize. rewrite length_map, length_combine, Hlen. lia. }
  intros i prompt row Hp Hr.
  destruct (cut_spec prompt row) as (tail & E & Hn & Ht & Hc).
  exists (cut max_gen_len prompt row), tail.
  split; [|auto].
  unfold finalize. rewrite nth_error_map.
  assert (Hc2 : nth_error (combine prompts (tokens_of ls)) i = Some (prompt, row)).
  { clear - Hp Hr. revert i Hp Hr.
    generalize (tokens_of ls) as g. induction prompts as [|t ps IH];
      intros g [|i] Hp Hr; try discriminate; destruct g as [|r g]; try discriminate;
      cbn in *.
    - congruence.
    - now apply IH. }
  now rewrite Hc2.
Qed.

(** *** Early stop *)

Lemma set_column_single (c : nat) (v : list Z) (row : list Z) g' :
  set_column c v [row] = Some g' ->
  exists x, v = [x] /\ c < length row /\
            g' = [firstn c row ++ x :: skipn (S c) row].
Proof.
  destruct v as [|x [|y v]]; cbn [set_column option_map]; try discriminate.
  - destruct (Nat.ltb_spec c (length row)); [|discriminate].
    intros [= <-]. now exists x.
  - destruct (c <? length row); discriminate.
Qed.

Lemma decode_step_break_iff mask cur ls (s1 s2 : self_state) r :
  step mask cur ls s1 = (Ok r, s2) ->
  match r with
  | Break l => bsz prompts = 1 /\ cell (tokens_of l) 0 cur = Some (eos_id cfg)
  | Continue l =>
      prev_pos_of l = cur /\
      (bsz prompts = 1 -> cell (tokens_of l) 0 cur <> Some (eos_id cfg))
  end.
Proof.
  intro H.
  destruct (decode_step_inv _ _ _ _ H)
    as (logits & cond & curcol & next & _ & _ & _ & _ & Hs & Hr).
  destruct (set_column_spec _ _ _ Hs) as (Hlen & _ & _).
  destruct r as [l|l]; cbn [ls_of] in *.
  - destruct Hr as [Hp Hx]. split; [exact Hp|]. intro Hb.
    destruct (Hx Hb) as (x & Hn & Hne).
    rewrite (set_column_cell _ _ _ cur Hs), Nat.eqb_refl, Hn; [congruence|].
    rewrite <- Hlen. apply nth_error_Some. now rewrite Hn.
  - destruct Hr as (Hb & Hn & _). split; [exact Hb|].
    rewrite (set_column_cell _ _ _ cur Hs), Nat.eqb_refl; [exact Hn|].
    rewrite <- Hlen. apply nth_error_Some. now rewrite Hn.
Qed.

Lemma decode_loop_runs_to_the_end mask positions ls (s s' : self_state) ls' :
  bsz prompts <> 1 ->
  loop mask positions ls s = (Ok ls', s') ->
  positions <> [] ->
  prev_pos_of ls' = last positions 0.
Proof.
  intro Hb. revert ls s. induction positions as [|cur rest IH]; intros ls s H Hne;
    [contradiction|].
  cbn in H. apply bind_ok in H as (r & s1 & Hr & H).
  pose proof (decode_step_break_iff _ _ _ _ Hr) as Hk.
  destruct r as [l|l]; [|destruct Hk; contradiction].
  destruct rest as [|cur' rest].
  - injection H as <- <-. now destruct Hk.
  - rewrite (IH _ _ H); [reflexivity|discriminate].
Qed.

Lemma single_prompt_eos_then_pad prompt memory0 norm_term0
    (s s' : self_state) g :
  0 < max_seq_len cfg ->
  prompts = [prompt] ->
  tokens_run memory0 norm_term0 s = (Ok g, s') ->
  exists row,
    g = [row] /\
    forall p, length prompt <= p -> nth_error row p = Some (eos_id cfg) ->
    forall q, p < q -> q < length row -> nth_error row q = Some (pad_id cfg).
Proof.
  intros Hpos Hp H.
  destruct (generate_tokens_inv _ _ _ H) as (tokens & start & total & ls & Hi & Hl & ->).
  destruct (init_grid_rows _ Hpos Hi) as [Hfit Hrows].
  destruct (init_grid_inv _ Hi) as (_ & _ & longest & _ & Hmin & _ & _).
  rewrite Hp in Hfit, Hrows, Hmin. cbn in Hrows, Hmin.
  injection Hmin as <-. apply Forall_inv in Hfit. rename Hfit into Hle.
  set (len := length prompt) in *.
  eapply (decode_loop_seq_inv
    (fun cur l => exists row,
         tokens_of l = [row] /\ length row = total /\
         (forall q, cur <= q -> q < total -> nth_error row q = Some (pad_id cfg)) /\
         (forall p, len <= p -> p < cur -> nth_error row p <> Some (eos_id cfg)))
    (fun l => exists row,
         tokens_of l = [row] /\
         forall p, len <= p -> nth_error row p = Some (eos_id cfg) ->
         forall q, p < q -> q < length row -> nth_error row q = Some (pad_id cfg)))
    in Hl; [exact Hl| | |].
  - (* one iteration *)
    intros cur l sa sb r (row & Hrow & Hlen & Hpad & Hno) Hs.
    pose proof (decode_step_break_iff _ _ _ _ Hs) as Hk.
    destruct (decode_step_inv _ _ _ _ Hs)
      as (logits & cond & curcol & next & _ & _ & _ & _ & Hset & _).
    rewrite Hrow in Hset.
    apply set_column_single in Hset as (x & -> & Hc & Hg').
    assert (Hnth : forall q, nth_error (firstn cur row ++ x :: skipn (S cur) row) q
                             = if q =? cur then Some x else nth_error row q).
    { intro q. now apply nth_error_put. }
    assert (Hx : cell (tokens_of (ls_of r)) 0 cur = Some x).
    { rewrite Hg'. unfold cell. cbn. now rewrite Hnth, Nat.eqb_refl. }
    destruct r as [l'|l']; cbn [ls_of] in Hg', Hx, Hk |- *;
      exists (firstn cur row ++ x :: skipn (S cur) row);
      (split; [exact Hg'|]).
    + destruct Hk as [_ Hk]. split; [now rewrite length_put|].
      assert (Hxe : x <> eos_id cfg).
      { intros ->. apply Hk; [now rewrite Hp|exact Hx]. }
      split.
      * intros q Hq1 Hq2. rewrite Hnth.
        destruct (Nat.eqb_spec q cur); [lia|]. apply Hpad; lia.
      * intros p Hp1 Hp2. rewrite Hnth.
        destruct (Nat.eqb_spec p cur); [congruence|]. apply Hno; lia.
    + destruct Hk as [_ Hk]. rewrite length_put by exact Hc.
      intros p Hp1 Hp2 q Hq1 Hq2. rewrite Hnth in Hp2 |- *.
      destruct (Nat.eqb_spec q cur) as [->|Hqc].
      * destruct (Nat.eqb_spec p cur) as [->|Hpc]; [lia|].
        exfalso. apply (Hno p); [exact Hp1|lia|exact Hp2].
      * destruct (Nat.eqb_spec p cur) as [->|Hpc].
        -- apply Hpad; lia.
        -- destruct (Nat.lt_ge_cases p cur) as [Hlt|Hge].
           ++ exfalso. apply (Hno p); auto.
           ++ apply Hpad; lia.
  - (* the loop ran out of positions *)
    intros l (row & Hrow & Hlen & Hpad & Hno). exists row. split; [exact Hrow|].
    intros p Hp1 Hp2 q Hq1 Hq2.
    destruct (Nat.lt_ge_cases p (len + (total - len))) as [Hlt|Hge].
    + exfalso. apply (Hno p); auto.
    + apply Hpad; lia.
  - (* the grid before the loop *)
    exists (prompt ++ repeat (pad_id cfg) (total - len)). cbn.
    split; [now rewrite Hrows|].
    split; [rewrite length_app, repeat_length; fold len; lia|].
    split; [|intros; lia].
    intros q Hq1 Hq2. rewrite nth_error_app2 by (fold len; lia).
    fold len. apply nth_error_repeat. lia.
Qed.

Lemma seq_split (a n : nat) pre cur post :
  seq a n = pre ++ cur :: post ->
  cur = a + length pre /\ forall q, In q post -> cur < q < a + n.
Proof.
  revert a n. induction pre as [|x pre IH]; intros a n H.
  - destruct n as [|n]; [discriminate|]. cbn in H. injection H as <- <-.
    split; [cbn; lia|]. intros q Hq. apply in_seq in Hq. lia.
  - destruct n as [|n]; [discriminate|]. cbn in H. injection H as _ H.
    destruct (IH _ _ H) as [-> Hq]. split; [cbn; lia|].
    intros q Hin. specialize (Hq q Hin). lia.
Qed.

(** A loop that returns has stepped its positions in order: all of them,
    or those up to the first iteration that left the loop, whose state
    is the result. *)
Lemma decode_loop_trace mask positions ls (s s' : self_state) ls' :
  loop mask positions ls s = (Ok ls', s') ->
  steps mask positions ls s ls' s' \/
  exists pre cur post lm sm,
    positions = pre ++ cur :: post /\
    steps mask pre ls s lm sm /\
    step mask cur lm sm = (Ok (Break ls'), s').
Proof.
  revert ls s. induction positions as [|cur rest IH]; intros ls s H.
  - injection H as <- <-. left. constructor.
  - cbn in H. apply bind_ok in H as (r & s1 & Hr & H). destruct r as [l|l].
    + destruct (IH _ _ H) as [Hs|(pre & c & post & lm & sm & -> & Hs & Hb)].
      * left. econstructor; eassumption.
      * right. exists (cur :: pre), c, post, lm, sm.
        split; [reflexivity|]. split; [econstructor; eassumption|exact Hb].
    + injection H as <- <-. right. exists [], cur, rest, ls, s.
      split; [reflexivity|]. split; [constructor|exact Hr].
Qed.

Lemma stepped_never_breaks mask positions ls (s s' : self_state) ls' :
  bsz prompts <> 1 ->
  loop mask positions ls s = (Ok ls', s') ->
  steps mask positions ls s ls' s'.
Proof.
  intros Hb H.
  destruct (decode_loop_trace _ _ _ _ H)
    as [Hs|(pre & c & post & lm & sm & _ & _ & Hbr)]; [exact Hs|].
  apply decode_step_break_iff in Hbr. destruct Hbr. contradiction.
Qed.

Lemma generate_tokens_widths memory0 norm_term0 (s s' : self_state) g
    tokens start total :
  tokens_run memory0 norm_term0 s = (Ok g, s') ->
  init_grid prompts max_gen_len s = (Ok (tokens, start, total), s) ->
  map (@length Z) g = repeat total (length prompts).
Proof.
  intros H Hi0.
  destruct (generate_tokens_inv _ _ _ H) as (tokens' & start' & total' & ls & Hi & Hl & ->).
  rewrite Hi0 in Hi. injection Hi as <- <- <-.
  destruct (init_grid_inv _ Hi0) as (_ & _ & longest & Hmax & _ & -> & Hf).
  assert (Hw0 : map (@length Z) tokens
                = repeat (total_len_of max_gen_len longest) (length prompts)).
  { rewrite (fill_prompts_widths _ _ Hf). unfold full.
    generalize (length prompts) as n. induction n as [|n IH]; cbn;
      [reflexivity|]. now rewrite repeat_length, IH. }
  rewrite <- Hw0.
  eapply (decode_loop_inv
    (fun l => map (@length Z) (tokens_of l) = map (@length Z) tokens)) in Hl;
    [exact Hl| |reflexivity].
  intros cur l sa sb r Hinv Hs.
  now rewrite (decode_step_widths _ _ _ _ Hs).
Qed.

Lemma single_prompt_eos_then_pad_any prompt memory0 norm_term0
    (s s' : self_state) g :
  prompts = [prompt] ->
  tokens_run memory0 norm_term0 s = (Ok g, s') ->
  exists row,
    g = [row] /\
    forall p, length prompt <= p -> nth_error row p = Some (eos_id cfg) ->
    forall q, p < q -> q < length row -> nth_error row q = Some (pad_id cfg).
Proof.
  intros Hp H.
  destruct (Nat.eq_dec (max_seq_len cfg) 0) as [Hz|Hnz].
  - destruct (generate_tokens_inv _ _ _ H) as (tokens & start & total & ls & Hi & _ & _).
    pose proof (generate_tokens_widths _ _ H Hi) as Hw.
    destruct (init_grid_inv _ Hi) as (_ & _ & longest & _ & _ & Ht & _).
    unfold total_len_of in Ht. rewrite Hz in Ht. cbn in Ht. subst total.
    rewrite Hp in Hw. cbn in Hw.
    destruct g as [|row [|row' g]]; try discriminate.
    injection Hw as Hw. exists row. split; [reflexivity|].
    intros p _ _ q _ Hq. rewrite Hw in Hq. lia.
  - eapply single_prompt_eos_then_pad; [lia|exact Hp|exact H].
Qed.

(** C7: the early stop.  An iteration calls the model, writes the
    column of its position and leaves the loop exactly when the batch
    has one sequence and the token it wrote for that sequence is the
    end-of-sequence token.  A call that returns a grid has stepped the
    positions [start .. total_len - 1] in order.  For any batch size
    other than 1 every one of these positions is stepped, none leaving
    the loop, and the grid returned is the one after position
    [total_len - 1].  For a batch of one sequence either every position
    is stepped, or the positions are stepped up to the first one whose
    iteration wrote the end-of-sequence token: the state that iteration
    ends in is the result, no later position is stepped and the later
    positions of the grid hold the pad token; so the grid has only pad
    tokens after an end-of-sequence token of the generated region. *)
Theorem early_stop_only_for_one_sequence memory0 norm_term0
    (s s' : self_state) g :
  tokens_run memory0 norm_term0 s = (Ok g, s') ->
  (forall mask cur ls (s1 s2 : self_state) r,
      step mask cur ls s1 = (Ok r, s2) ->
      (exists logits cond curcol next,
          model mask (tokens_of ls) (prev_pos_of ls) cur (memory_of ls)
                (norm_term_of ls) s1
          = (Ok (logits, memory_of (ls_of r), norm_term_of (ls_of r)), s2) /\
          column cur mask = Some cond /\
          column cur (tokens_of ls) = Some curcol /\
          where_ cond curcol (sample temperature top_p cur logits) = Some next /\
          set_column cur next (tokens_of ls) = Some (tokens_of (ls_of r))) /\
      match r with
      | Break l =>
          bsz prompts = 1 /\ cell (tokens_of l) 0 cur = Some (eos_id cfg)
      | Continue l =>
          prev_pos_of l = cur /\
          (bsz prompts = 1 -> cell (tokens_of l) 0 cur <> Some (eos_id cfg))
      end) /\
  (forall prompt, prompts = [prompt] ->
     exists row,
       g = [row] /\
       forall p, length prompt <= p -> nth_error row p = Some (eos_id cfg) ->
       forall q, p < q -> q < length row -> nth_error row q = Some (pad_id cfg)) /\
  exists tokens start total ls,
    init_grid prompts max_gen_len s = (Ok (tokens, start, total), s) /\
    loop (text_mask tokens) (Py.range start total 1)
         (start_state tokens memory0 norm_term0) s
    = (Ok ls, s') /\
    Py.range start total 1 = seq start (total - start) /\
    g = tokens_of ls /\
    (bsz prompts <> 1 ->
     steps (text_mask tokens) (seq start (total - start))
           (start_state tokens memory0 norm_term0) s ls s' /\
     (start < total -> prev_pos_of ls = total - 1)) /\
    (bsz prompts = 1 ->
     steps (text_mask tokens) (seq start (total - start))
           (start_state tokens memory0 norm_term0) s ls s' \/
     exists pre cur post lm sm,
       seq start (total - start) = pre ++ cur :: post /\
       steps (text_mask tokens) pre (start_state tokens memory0 norm_term0) s lm sm /\
       step (text_mask tokens) cur lm sm = (Ok (Break ls), s') /\
       cell g 0 cur = Some (eos_id cfg) /\
       forall q, In q post -> cell g 0 q = Some (pad_id cfg)).
Proof.
  intro H. split; [|split].
  - intros mask cur ls s1 s2 r Hs. split.
    + destruct (decode_step_inv _ _ _ _ Hs)
        as (logits & cond & curcol & next & H1 & H2 & H3 & H4 & H5 & _).
      exists logits, cond, curcol, next. auto.
    + exact (decode_step_break_iff _ _ _ _ Hs).
  - intros prompt Hp. eapply single_prompt_eos_then_pad_any; eassumption.
  - destruct (generate_tokens_inv _ _ _ H) as (tokens & start & total & ls & Hi & Hl & Hg).
    exists tokens, start, total, ls. rewrite range_step_one.
    split; [exact Hi|]. split; [exact Hl|]. split; [reflexivity|].
    split; [exact Hg|]. split.
    + intro Hb. split; [now apply stepped_never_breaks|]. intro Hlt.
      rewrite (decode_loop_runs_to_the_end _ _ _ Hb Hl).
      * replace (total - start) with (S (total - start - 1)) by lia.
        rewrite seq_S, last_last. lia.
      * destruct (total - start) eqn:E; [lia|discriminate].
    + intro Hb.
      destruct (decode_loop_trace _ _ _ _ Hl)
        as [Hs|(pre & cur & post & lm & sm & Hsplit & Hs & Hbr)]; [now left|].
      right. exists pre, cur, post, lm, sm.
      split; [exact Hsplit|]. split; [exact Hs|]. split; [exact Hbr|].
      pose proof (decode_step_break_iff _ _ _ _ Hbr) as [_ Heos].
      rewrite <- Hg in Heos. split; [exact Heos|].
      intros q Hq.
      destruct (seq_split _ _ _ _ _ Hsplit) as [Hcur Hpost].
      specialize (Hpost q Hq).
      assert (Hex : exists prompt, prompts = [prompt]).
      { unfold bsz in Hb. clear - Hb.
        destruct prompts as [|prompt [|p2 ps]]; try discriminate. now exists prompt. }
      destruct Hex as [prompt Hp].
      destruct (@single_prompt_eos_then_pad_any prompt memory0 norm_term0 s s' g Hp H)
        as (row & Hrow & Hpad).
      pose proof (generate_tokens_widths _ _ H Hi) as Hw.
      destruct (init_grid_inv _ Hi) as (_ & _ & longest & _ & Hmin & _ & _).
      rewrite Hp in Hmin, Hw. cbn in Hmin. injection Hmin as Hmin.
      rewrite Hrow in Hw, Heos |- *. cbn in Hw. injection Hw as Hw.
      unfold cell in Heos |- *. cbn [nth_error] in Heos |- *.
      apply (Hpad cur); [lia|exact Heos|lia|lia].
Qed.

End DecodeTheory.

(** *** What a forward call logs *)

Section ForwardTheory.

Lemma silent_bind {A B} (c : M self_state A) (k : A -> M self_state B) :
  silent c -> (forall a, silent (k a)) -> silent (bind c k).
Proof.
  intros Hc Hk s. unfold bind. specialize (Hc s).
  destruct (c s) as [[a|e] s1]; cbn in *; subst s1; [apply Hk|reflexivity].
Qed.

Lemma silent_ret {A} (a : A) : silent (ret a).
Proof. intro s. reflexivity. Qed.

Lemma silent_raise {A} e : silent (@raise self_state A e).
Proof. intro s. reflexivity. Qed.

Lemma silent_orraise {A} e (o : option A) : silent (orraise e o).
Proof. intro s. now destruct o. Qed.

Lemma silent_assert b : silent (@assert self_state b).
Proof. intro s. now destruct b. Qed.

Lemma silent_emits (P : list event -> Prop) {A} (c : M self_state A) :
  P [] -> silent c -> emits P c.
Proof. intros HP Hc s. exists []. now rewrite Hc, app_nil_r. Qed.

Section Emits.
Variable P : list event -> Prop.
Hypothesis P_app : forall l1 l2, P l1 -> P l2 -> P (l1 ++ l2).

Lemma emits_bind {A B} (c : M self_state A) (k : A -> M self_state B) :
  emits P c -> (forall a, emits P (k a)) -> emits P (bind c k).
Proof.
  intros Hc Hk s. unfold bind. destruct (Hc s) as (e1 & E1 & P1).
  destruct (c s) as [[a|e] s1]; cbn in *.
  - destruct (Hk a s1) as (e2 & E2 & P2). exists (e1 ++ e2).
    split; [now rewrite E2, E1, app_assoc|now apply P_app].
  - now exists e1.
Qed.
End Emits.

Lemma forward_spans_app l1 l2 :
  forward_spans (l1 ++ l2) = forward_spans l1 ++ forward_spans l2.
Proof. apply flat_map_app. Qed.

Lemma hyper_indices_app l1 l2 :
  hyper_indices (l1 ++ l2) = hyper_indices l1 ++ hyper_indices l2.
Proof. apply flat_map_app. Qed.

Lemma applied_layers_app l1 l2 :
  applied_layers (l1 ++ l2) = applied_layers l1 ++ applied_layers l2.
Proof. apply flat_map_app. Qed.

Lemma decode_only_app l1 l2 :
  decode_only l1 -> decode_only l2 -> decode_only (l1 ++ l2).
Proof. intros H1 H2. apply Forall_app. now split. Qed.


Lemma call_layer_eq i h sp pm mem nt (s : self_state) :
  call_layer i h sp pm mem nt s
  = (Ok (layer_forward i (lora s i) h sp pm mem nt), s).
Proof. reflexivity. Qed.

Lemma run_layers_eq layers sp pm hmn (s : self_state) :
  run_layers layers sp pm hmn s = (Ok (layers_out (lora s) layers sp pm hmn), s).
Proof.
  revert hmn. induction layers as [|i rest IH]; intros [[h mem] nt];
    [reflexivity|].
  cbn [run_layers layers_out].
  erewrite bind_eq by apply call_layer_eq. apply IH.
Qed.

Lemma run_serial_decode i layers sp pm denom hmn (s : self_state) :
  sp <> 0 ->
  run_serial i layers sp pm denom hmn s = run_layers layers sp pm hmn s.
Proof.
  intro Hsp. revert i hmn. induction layers as [|l rest IH]; intros i [[h mem] nt];
    [reflexivity|].
  cbn [run_serial run_layers].
  destruct (Nat.eqb_spec sp 0) as [E|_]; [contradiction|].
  erewrite bind_eq by reflexivity.
  erewrite bind_eq by apply call_layer_eq.
  erewrite (bind_eq (call_layer _ _ _ _ _ _)) by apply call_layer_eq.
  apply IH.
Qed.

Lemma silent_run_layers layers sp pm hmn : silent (run_layers layers sp pm hmn).
Proof. intro s. now rewrite run_layers_eq. Qed.

Lemma silent_run_serial_decode i layers sp pm denom hmn :
  sp <> 0 -> silent (run_serial i layers sp pm denom hmn).
Proof. intros Hsp s. now rewrite run_serial_decode, run_layers_eq. Qed.

Lemma silent_pool h pm denom : silent (pool h pm denom).
Proof.
  unfold pool. destruct pm, denom; try apply silent_raise. apply silent_orraise.
Qed.

Lemma silent_bind_denom sp pm : silent (bind_denom sp pm).
Proof.
  unfold bind_denom. destruct (sp =? 0); [|apply silent_ret].
  destruct pm; [apply silent_ret|apply silent_raise].
Qed.

(** After the log entry of the call, a forward pass with
    [start_pos > 0] touches neither the log nor the installed LoRA
    tensors: it calls no hypernetwork and applies no parameters. *)
Lemma forward_inference_decode tokens sp pm mem nt (s : self_state) :
  sp <> 0 ->
  snd (forward_inference tokens sp pm mem nt s)
  = snd (log (Forward sp (Py.ncols tokens) pm) s).
Proof.
  intro Hsp. unfold forward_inference.
  assert (Hsil : forall (c : M self_state (list vec * memory * norm_term)) u,
             silent c -> snd (bind (log u) (fun _ => c) s) = snd (log u s)).
  { intros c u Hc. unfold bind. cbn. apply Hc. }
  apply Hsil.
  apply silent_bind; [apply silent_run_layers|]. intro hmn.
  apply silent_bind.
  - destruct hyper_enabled; [|apply silent_ret].
    apply silent_bind; [apply silent_bind_denom|]. intro denom.
    destruct (serial_generate cfg); cbn [negb].
    + now apply silent_run_serial_decode.
    + apply silent_bind; [|intro; apply silent_run_layers].
      destruct (Nat.eqb_spec sp 0); [contradiction|apply silent_ret].
  - intros [[h mem'] nt'].
    apply silent_bind; [apply silent_orraise|]. intro. apply silent_ret.
Qed.

Lemma no_forward_app l1 l2 : no_forward l1 -> no_forward l2 -> no_forward (l1 ++ l2).
Proof. unfold no_forward. intros H1 H2. now rewrite forward_spans_app, H1, H2. Qed.

Lemma emits_log (P : list event -> Prop) e : P [e] -> emits P (log e).
Proof. intros HP s. now exists [e]. Qed.

Lemma emits_apply_lora_params i p : emits no_forward (apply_lora_params i p).
Proof. intro s. now exists [ApplyLora i p]. Qed.

Lemma emits_call_hyper_net p : emits no_forward (call_hyper_net p).
Proof. intro s. now exists [HyperNet p None]. Qed.

Lemma emits_call_hyper_net_at p i : emits no_forward (call_hyper_net_at p i).
Proof. intro s. now exists [HyperNet p (Some i)]. Qed.

Lemma emits_silent {A} (c : M self_state A) : silent c -> emits no_forward c.
Proof. now apply silent_emits. Qed.

Lemma emits_apply_all hi layers params : emits no_forward (apply_all hi layers params).
Proof.
  revert hi. induction layers as [|l rest IH]; intro hi; cbn [apply_all].
  - apply emits_silent, silent_ret.
  - apply (emits_bind no_forward_app); [apply emits_silent, silent_orraise|].
    intro param. apply (emits_bind no_forward_app);
      [apply emits_apply_lora_params|]. intro. apply IH.
Qed.

Lemma emits_run_serial i layers sp pm denom hmn :
  emits no_forward (run_serial i layers sp pm denom hmn).
Proof.
  revert i hmn. induction layers as [|l rest IH]; intros i [[h mem] nt];
    cbn [run_serial].
  - apply emits_silent, silent_ret.
  - apply (emits_bind no_forward_app).
    + destruct (sp =? 0); [|apply emits_silent, silent_ret].
      apply (emits_bind no_forward_app); [apply emits_silent, silent_pool|].
      intro p. apply (emits_bind no_forward_app);
        [apply emits_call_hyper_net_at|]. intro. apply emits_apply_lora_params.
    + intro. apply (emits_bind no_forward_app);
        [apply emits_silent; intro s; now rewrite call_layer_eq|].
      intro. apply IH.
Qed.

(** Every forward pass logs its own call first and no other forward
    call. *)
Lemma forward_inference_log tokens sp pm mem nt (s : self_state) :
  exists evs,
    calls (snd (forward_inference tokens sp pm mem nt s))
    = calls s ++ Forward sp (Py.ncols tokens) pm :: evs /\
    no_forward evs /\ (sp <> 0 -> evs = []).
Proof.
  destruct (Nat.eq_dec sp 0) as [E|Hsp].
  2:{ exists []. rewrite (forward_inference_decode _ _ _ _ _ Hsp). now cbn. }
  assert (Hrest : forall (c : M self_state (list vec * memory * norm_term)) u,
             emits no_forward c ->
             exists evs, calls (snd (bind (log u) (fun _ => c) s))
                         = calls s ++ u :: evs /\ no_forward evs).
  { intros c u Hc. unfold bind. cbn.
    destruct (Hc (snd (log u s))) as (evs & E1 & E2). exists evs.
    cbn in E1. now rewrite E1, <- app_assoc. }
  unfold forward_inference.
  edestruct Hrest as (evs & E1 & E2); [|exists evs; split; [exact E1|]; split;
    [exact E2|intro; contradiction]].
  apply (emits_bind no_forward_app); [apply emits_silent, silent_run_layers|].
  intro hmn. apply (emits_bind no_forward_app).
  - destruct hyper_enabled; [|apply emits_silent, silent_ret].
    apply (emits_bind no_forward_app); [apply emits_silent, silent_bind_denom|].
    intro denom. destruct (serial_generate cfg); cbn [negb].
    + apply emits_run_serial.
    + apply (emits_bind no_forward_app);
        [|intro; apply emits_silent, silent_run_layers].
      destruct (sp =? 0); [|apply emits_silent, silent_ret].
      apply (emits_bind no_forward_app); [apply emits_silent, silent_pool|].
      intro p. apply (emits_bind no_forward_app); [apply emits_call_hyper_net|].
      intro. apply emits_apply_all.
  - intros [[h mem'] nt']. apply emits_silent.
    apply silent_bind; [apply silent_orraise|]. intro. apply silent_ret.
Qed.

(** *** The parallel policy *)

Lemma snd_bind_silent {A B} (c : M self_state A) (k : A -> M self_state B)
    (s s1 : self_state) a :
  c s = (Ok a, s1) -> silent (k a) -> snd (bind c k s) = s1.
Proof. intros Hc Hk. erewrite bind_eq by exact Hc. apply Hk. Qed.

Lemma skipn_nth_cons {A} (l : list A) n x :
  nth_error l n = Some x -> skipn n l = x :: skipn (S n) l.
Proof.
  revert l. induction n as [|n IH]; intros [|y l] H; try discriminate.
  - now injection H as ->.
  - cbn in H. cbn [skipn]. now rewrite (IH _ H).
Qed.

Lemma apply_all_log params layers hi (s : self_state) :
  hi + length layers <= length params ->
  exists s',
    apply_all hi layers params s = (Ok tt, s') /\
    calls s' = calls s ++ apply_events layers (skipn hi params) /\
    pooling_states s' = pooling_states s.
Proof.
  revert hi s. induction layers as [|l rest IH]; intros hi s Hlen.
  - exists s. cbn. now rewrite app_nil_r.
  - cbn [length] in Hlen. cbn [apply_all].
    destruct (nth_error params hi) as [q|] eqn:Eq.
    2:{ apply nth_error_None in Eq. lia. }
    destruct (IH (S hi) (snd (apply_lora_params l q s))) as (s' & E & Hc & Hp);
      [lia|].
    exists s'. split; [|split].
    + cbn [orraise]. erewrite bind_eq by reflexivity.
      erewrite bind_eq by reflexivity. exact E.
    + rewrite Hc. cbn. rewrite <- app_assoc. f_equal.
      unfold apply_events.
      now rewrite (skipn_nth_cons _ _ Eq).
    + rewrite Hp. reflexivity.
Qed.

Lemma forward_training_regenerates tokens labels sp pm mem nt (s : self_state) p :
  sp <> 0 ->
  hyper_enabled = true ->
  serial_generate cfg = false ->
  pooling_states s = Some p ->
  length hyper_layers <= length (lora_hyper_net p) ->
  calls (snd (forward tokens labels sp pm mem nt s))
  = calls s ++ Forward sp (Py.ncols tokens) pm :: HyperNet p None
            :: apply_events hyper_layers (lora_hyper_net p).
Proof.
  intros Hsp Hen Hser Hp Hlen.
  destruct s as [lo po ca]. cbn in Hp. subst po.
  apply Nat.eqb_neq in Hsp.
  destruct (apply_all_log (lora_hyper_net p) hyper_layers 0
              (snd (call_hyper_net p (snd (log (Forward sp (Py.ncols tokens) pm)
                 {| lora := lo; pooling_states := Some p; calls := ca |})))))
    as (s1 & Happ & Hcalls & _); [exact Hlen|].
  cbn [skipn] in Hcalls.
  unfold forward.
  erewrite bind_eq by reflexivity.
  erewrite bind_eq by apply run_layers_eq.
  rewrite Hen, Hser. cbn [negb]. unfold bind_denom. rewrite Hsp.
  erewrite snd_bind_silent with (s1 := s1).
  - rewrite Hcalls. cbn. rewrite <- !app_assoc. reflexivity.
  - erewrite bind_eq by reflexivity.
    erewrite bind_eq; [apply run_layers_eq|].
    erewrite bind_eq by reflexivity.
    erewrite bind_eq by reflexivity.
    erewrite bind_eq by reflexivity. exact Happ.
  - destruct (layers_out _ _ _ _ _) as [[h mem'] nt'].
    destruct (Z.eqb _ _); [apply silent_ret|].
    apply silent_bind; [apply silent_assert|]. intro. apply silent_ret.
Qed.

(** C2 as the code has it.  Under the parallel policy the hypernetwork
    runs again, on the cached pooled vector, only in the training pass
    [forward]: there every call with [start_pos > 0] calls it once and
    applies the result to every hyper-adapted layer.  The inference pass
    [forward_inference], the one [generate] decodes with, does nothing of
    the kind: a call with [start_pos > 0] logs its own call and leaves the
    installed LoRA tensors and the cached pooled vector as they were. *)
Theorem parallel_regenerates_only_in_training
    tokens labels sp pm mem nt (s : self_state) :
  sp <> 0 ->
  (calls (snd (forward_inference tokens sp pm mem nt s))
   = calls s ++ [Forward sp (Py.ncols tokens) pm] /\
   lora (snd (forward_inference tokens sp pm mem nt s)) = lora s /\
   pooling_states (snd (forward_inference tokens sp pm mem nt s))
   = pooling_states s) /\
  (forall p,
      hyper_enabled = true ->
      serial_generate cfg = false ->
      pooling_states s = Some p ->
      length hyper_layers <= length (lora_hyper_net p) ->
      calls (snd (forward tokens labels sp pm mem nt s))
      = calls s ++ Forward sp (Py.ncols tokens) pm :: HyperNet p None
                :: apply_events hyper_layers (lora_hyper_net p)).
Proof.
  intro Hsp. split.
  - rewrite (forward_inference_decode _ _ _ _ _ Hsp). now cbn.
  - intros p Hen Hser Hp Hlen. now apply forward_training_regenerates.
Qed.

(** *** Segmentation *)

Lemma cols_widths {A} (a b : nat) (g : list (list A)) :
  map (@length A) (Py.cols a b g)
  = map (fun n => Nat.min (b - a) (n - a)) (map (@length A) g).
Proof.
  unfold Py.cols. rewrite !map_map. apply map_ext. intro r. apply slice_length.
Qed.

Lemma ncols_cols {A} (a b w : nat) (g : list (list A)) :
  g <> [] -> Forall (fun r => length r = w) g ->
  Py.ncols (Py.cols a b g) = Nat.min (b - a) (w - a).
Proof.
  destruct g as [|r g]; [contradiction|]. intros _ H.
  apply Forall_inv in H. cbn. now rewrite slice_length, H.
Qed.

Lemma tensor_split_from_widths {A} (S w : nat) (g : list (list A)) n prev :
  g <> [] -> Forall (fun r => length r = w) g ->
  prev + n * S < w ->
  map (@Py.ncols A)
      (Py.tensor_split_from prev (map (fun k => prev + S + k * S) (seq 0 n)) g)
  = repeat S n ++ [w - (prev + n * S)].
Proof.
  intros Hg Hw. revert prev. induction n as [|n IH]; intros prev Hlt.
  - cbn. rewrite (ncols_cols _ _ Hg Hw).
    destruct g as [|r g]; [contradiction|]. cbn. apply Forall_inv in Hw.
    rewrite Hw. f_equal. lia.
  - assert (Hlt' : prev + S + n * S < w) by (cbn in Hlt; lia).
    cbn [seq map Py.tensor_split_from repeat app].
    replace (prev + S + 0 * S) with (prev + S) by lia.
    rewrite (ncols_cols _ _ Hg Hw). f_equal; [lia|].
    rewrite <- seq_shift, map_map.
    rewrite (map_ext _ (fun k => (prev + S) + S + k * S)) by (intro; lia).
    rewrite (IH _ Hlt'). do 2 f_equal. cbn. lia.
Qed.

(** The sizes of the chunks [torch.tensor_split] makes of [w] columns
    with the indices [range(S, w, S)]: [q] chunks of [S] columns and a
    last one of [r] columns, [1 <= r <= S]. *)
Lemma tensor_split_range_widths {A} (S w : nat) (g : list (list A)) :
  0 < S -> 0 < w -> g <> [] -> Forall (fun r => length r = w) g ->
  map (@Py.ncols A) (Py.tensor_split g (Py.range S (Py.ncols g) S))
  = repeat S ((w - 1) / S) ++ [w - (w - 1) / S * S].
Proof.
  intros HS Hw0 Hg Hw.
  assert (Hn : Py.ncols g = w).
  { destruct g as [|r g]; [contradiction|]. now apply Forall_inv in Hw. }
  unfold Py.tensor_split, Py.range. rewrite Hn.
  assert (Hq : (w - S + (S - 1)) / S = (w - 1) / S).
  { destruct (Nat.le_gt_cases w S) as [Hle|Hgt].
    - replace (w - S + (S - 1)) with (S - 1) by lia.
      rewrite !Nat.div_small by lia. reflexivity.
    - f_equal. lia. }
  rewrite Hq.
  pose proof (Nat.Div0.mul_div_le (w - 1) S) as Hle.
  rewrite (map_ext _ (fun k => 0 + S + k * S)) by (intro; lia).
  rewrite tensor_split_from_widths with (w := w); [|exact Hg|exact Hw|nia].
  reflexivity.
Qed.

Lemma split_sizes_spec (S w : nat) :
  0 < S -> 0 < w ->
  (w - 1) / S * S + (w - (w - 1) / S * S) = w /\
  0 < w - (w - 1) / S * S <= S.
Proof.
  intros HS Hw.
  pose proof (Nat.Div0.mul_div_le (w - 1) S) as Hle.
  pose proof (Nat.mul_succ_div_gt (w - 1) S ltac:(lia)) as Hgt.
  nia.
Qed.

End ForwardTheory.

(** *** Prefill *)

Section PrefillTheory.
Variable segment_size : nat.
Variable hyper_input_type : string.
Variable hyper_input_spans : list (nat * nat).

Local Abbreviation model :=
  (run_model segment_size hyper_input_type hyper_input_spans).
Local Abbreviation segments :=
  (run_segments segment_size hyper_input_type hyper_input_spans).
Local Abbreviation usable_spans :=
  (spans_ok segment_size hyper_input_type hyper_input_spans).

Lemma silent_state {A} (c : M self_state A) (s s1 : self_state) r :
  silent c -> c s = (r, s1) -> s1 = s.
Proof. intros Hc H. specialize (Hc s). now rewrite H in Hc. Qed.

Lemma silent_mark_spans_checked S j spans m :
  silent (mark_spans_checked S j spans m).
Proof.
  revert j m. induction spans as [|sp rest IH]; intros j m; cbn [mark_spans_checked].
  - apply silent_ret.
  - apply silent_bind; [apply silent_assert|]. intro.
    apply silent_bind; [apply silent_orraise|]. intro. apply IH.
Qed.

Lemma silent_mark_spans j spans m : silent (mark_spans j spans m).
Proof.
  revert j m. induction spans as [|sp rest IH]; intros j m; cbn [mark_spans].
  - apply silent_ret.
  - apply silent_bind; [apply silent_orraise|]. intro. apply IH.
Qed.

Lemma silent_segment_prompt_mask itm :
  silent (segment_prompt_mask segment_size hyper_input_type hyper_input_spans itm).
Proof.
  unfold segment_prompt_mask.
  destruct (is_instruction _); [apply silent_mark_spans_checked|apply silent_ret].
Qed.

Lemma silent_prefill_prompt_mask itm a b :
  silent (prefill_prompt_mask hyper_input_type hyper_input_spans itm a b).
Proof.
  unfold prefill_prompt_mask.
  destruct (is_instruction _); [apply silent_mark_spans|apply silent_ret].
Qed.

Lemma forward_spans_call sp n pm evs :
  no_forward evs -> forward_spans (Forward sp n pm :: evs) = [(sp, n)].
Proof.
  unfold no_forward. intro H. change (Forward sp n pm :: evs)
    with ([Forward sp n pm] ++ evs). now rewrite forward_spans_app, H.
Qed.

Lemma run_segments_spans itm segs lsp acc (s s' : self_state) r :
  segments itm segs lsp acc s = (Ok r, s') ->
  exists evs,
    calls s' = calls s ++ evs /\
    forward_spans evs = spans_from lsp (map (@Py.ncols Z) segs).
Proof.
  revert lsp acc s. induction segs as [|seg rest IH]; intros lsp [[lg mem] nt] s H.
  - injection H as <- <-. exists []. now rewrite app_nil_r.
  - cbn [run_segments] in H.
    apply bind_ok in H as ([[logits mem1] nt1] & s1 & Hf & H).
    destruct (IH _ _ _ H) as (evs2 & E2 & F2).
    assert (Hcall : exists evs1, calls s1 = calls s ++ evs1 /\
                                 forward_spans evs1 = [(lsp, Py.ncols seg)]).
    { destruct (lsp =? 0).
      - apply bind_ok in Hf as (pm & s0 & Hm & Hf).
        eapply silent_state in Hm; [|apply silent_segment_prompt_mask]. subst s0.
        destruct (forward_inference_log seg lsp (Some pm) mem nt s)
          as (evs & E & Hn & _).
        rewrite Hf in E. eexists. split; [exact E|].
        now apply forward_spans_call.
      - destruct (forward_inference_log seg lsp None mem nt s)
          as (evs & E & Hn & _).
        rewrite Hf in E. eexists. split; [exact E|].
        now apply forward_spans_call. }
    destruct Hcall as (evs1 & E1 & F1).
    exists (evs1 ++ evs2). split; [now rewrite E2, E1, app_assoc|].
    rewrite forward_spans_app, F1, F2. reflexivity.
Qed.

Lemma run_model_prefill_spans itm tokens W L mem nt (s s' : self_state) r :
  0 < segment_size -> 0 < L -> L <= W ->
  tokens <> [] -> Forall (fun row => length row = W) tokens ->
  model itm tokens 0 L mem nt s = (Ok r, s') ->
  exists evs,
    calls s' = calls s ++ evs /\
    forward_spans evs
    = spans_from 0 (repeat segment_size ((L - 1) / segment_size)
                      ++ [L - (L - 1) / segment_size * segment_size]).
Proof.
  intros HS HL HLW Hne Hw H. unfold run_model in H.
  assert (Hx : Forall (fun row => length row = L) (Py.cols 0 L tokens)).
  { unfold Py.cols. rewrite Forall_map. eapply Forall_impl; [|exact Hw].
    intros row Hr. cbn beta in Hr. rewrite slice_length. lia. }
  assert (Hxne : Py.cols 0 L tokens <> []).
  { destruct tokens; [contradiction|discriminate]. }
  unfold need_segment in H. cbn [Nat.eqb andb] in H.
  destruct (Nat.ltb_spec segment_size L) as [Hseg|Hseg].
  - apply bind_ok in H as (u & s0 & Hz & H).
    destruct (Nat.eqb_spec segment_size 0) as [E|_]; [lia|].
    injection Hz as <- <-.
    apply bind_ok in H as ([[lg mem1] nt1] & s1 & Hr & H).
    apply bind_ok in H as (logits & s2 & Ho & H).
    apply orraise_ok in Ho as [_ ->]. injection H as <- <-.
    destruct (run_segments_spans _ _ _ _ _ Hr) as (evs & E & F).
    exists evs. split; [exact E|].
    now rewrite F, (tensor_split_range_widths HS HL Hxne Hx).
  - apply bind_ok in H as (pm & s0 & Hm & H).
    eapply silent_state in Hm; [|apply silent_prefill_prompt_mask]. subst s0.
    destruct (forward_inference_log (Py.cols 0 L tokens) 0 (Some pm) mem nt s)
      as (evs & E & Hn & _).
    rewrite H in E. eexists. split; [exact E|].
    rewrite (forward_spans_call _ _ _ Hn), (ncols_cols _ _ Hne Hw).
    replace ((L - 1) / segment_size) with 0 by (symmetry; apply Nat.div_small; lia).
    cbn. do 2 f_equal. lia.
Qed.

(** C1: segmentation of the prefill.  A prefill of the range [0, L)
    that completes has made its forward calls on consecutive chunks,
    the first at position 0: [q] chunks of exactly [S] positions and a
    last chunk of [last] positions with [1 <= last <= S] and
    [q * S + last = L].  The non-segmented branch makes the single call;
    [L = S] takes the non-segmented branch, [L = S + 1] the segmented one
    with the chunks [S; 1]. *)
Theorem prefill_is_split_into_segments
    itm tokens W L mem nt (s s' : self_state) r :
  0 < segment_size -> 0 < L -> L <= W ->
  tokens <> [] -> Forall (fun row => length row = W) tokens ->
  model itm tokens 0 L mem nt s = (Ok r, s') ->
  exists q last evs,
    calls s' = calls s ++ evs /\
    forward_spans evs = spans_from 0 (repeat segment_size q ++ [last]) /\
    q * segment_size + last = L /\
    0 < last <= segment_size /\
    (need_segment segment_size 0 L = false -> q = 0) /\
    (L = segment_size -> need_segment segment_size 0 L = false) /\
    (L = segment_size + 1 ->
     need_segment segment_size 0 L = true /\ q = 1 /\ last = 1).
Proof.
  intros HS HL HLW Hne Hw H.
  destruct (run_model_prefill_spans _ _ _ _ HS HL HLW Hne Hw H) as (evs & E & F).
  destruct (split_sizes_spec HS HL) as [Hsum Hlast].
  exists ((L - 1) / segment_size), (L - (L - 1) / segment_size * segment_size), evs.
  split; [exact E|]. split; [exact F|]. split; [exact Hsum|].
  split; [exact Hlast|]. unfold need_segment. cbn [Nat.eqb andb].
  split; [|split].
  - intro Hn. apply Nat.ltb_ge in Hn. apply Nat.div_small. lia.
  - intros ->. apply Nat.ltb_irrefl.
  - intros ->. split; [apply Nat.ltb_lt; lia|].
    replace (segment_size + 1 - 1) with (1 * segment_size) in * by lia.
    rewrite Nat.div_mul in * by lia. lia.
Qed.

(** *** Shapes *)

(** The layers keep the batch and position dimensions of the hidden
    state. *)
Hypothesis layer_shape :
  forall i lp h sp pm mem nt,
    map (@length vec) (fst (fst (layer_forward i lp h sp pm mem nt)))
    = map (@length vec) h.

Lemma same_shape_iff (h : hidden) (m : fmask) :
  same_shape h m = true <-> map (@length vec) h = map (@length float) m.
Proof.
  revert m. induction h as [|hb h IH]; intros [|mb m]; cbn; try (split; congruence).
  rewrite andb_true_iff, Nat.eqb_eq, IH. split.
  - intros [-> ->]. reflexivity.
  - intros [= -> ->]. split; reflexivity.
Qed.

Lemma masked_mean_ok d (h : hidden) (m : fmask) :
  map (@length vec) h = map (@length float) m ->
  exists p, masked_mean d h m (denom_of m) = Some p.
Proof.
  intro H. unfold masked_mean.
  rewrite (proj2 (same_shape_iff h m) H). unfold denom_of.
  rewrite length_map, <- (length_map (@length float) m), <- H, length_map,
    Nat.eqb_refl. cbn. eauto.
Qed.

Lemma layers_out_shape lo layers sp pm h mem nt :
  map (@length vec) (fst (fst (layers_out lo layers sp pm (h, mem, nt))))
  = map (@length vec) h.
Proof.
  revert h mem nt. induction layers as [|i rest IH]; intros h mem nt;
    [reflexivity|].
  cbn [layers_out]. pose proof (layer_shape i (lo i) h sp pm mem nt) as Hl.
  destruct (layer_forward i (lo i) h sp pm mem nt) as [[h1 mem1] nt1].
  cbn in Hl. now rewrite IH.
Qed.

Lemma embed_shape (tokens : list (list Z)) :
  map (@length vec) (map (map tok_embeddings) tokens) = map (@length Z) tokens.
Proof. rewrite map_map. apply map_ext. intro. apply length_map. Qed.

(** The serial loop of a call with [start_pos == 0]: one hypernetwork
    call and one [apply_lora_params] per layer, in layer order. *)
Lemma run_serial_prefill m layers i h mem nt (s : self_state) :
  map (@length vec) h = map (@length float) m ->
  exists out s' evs,
    run_serial i layers 0 (Some m) (Some (denom_of m)) (h, mem, nt) s = (Ok out, s') /\
    map (@length vec) (fst (fst out)) = map (@length vec) h /\
    calls s' = calls s ++ evs /\
    hyper_indices evs = map Some (seq i (length layers)) /\
    applied_layers evs = layers /\
    no_forward evs.
Proof.
  revert i h mem nt s. induction layers as [|l rest IH]; intros i h mem nt s Hs.
  - exists (h, mem, nt), s, []. cbn. rewrite app_nil_r. repeat split.
  - destruct (masked_mean_ok (dim cfg) _ _ Hs) as (p & Hp).
    set (param := lora_hyper_net_at p i).
    set (s1 := snd (apply_lora_params l param (snd (call_hyper_net_at p i s)))).
    pose proof (layer_shape l (lora s1 l) h 0 (Some m) mem nt) as Hl.
    destruct (layer_forward l (lora s1 l) h 0 (Some m) mem nt) as [[h1 mem1] nt1] eqn:El.
    cbn [fst] in Hl.
    destruct (IH (S i) h1 mem1 nt1 s1) as (out & s' & evs & Hr & Hsh & Hc & Hh & Ha & Hn);
      [now rewrite Hl|].
    exists out, s', ([HyperNet p (Some i); ApplyLora l param] ++ evs).
    split; [|split; [|split; [|split; [|split]]]].
    + cbn [run_serial Nat.eqb pool]. rewrite Hp. cbn [orraise].
      rewrite bind_eq with (a := tt) (s1 := s1) by reflexivity.
      rewrite bind_eq with (a := (h1, mem1, nt1)) (s1 := s1)
        by (rewrite call_layer_eq, El; reflexivity).
      exact Hr.
    + now rewrite Hsh, Hl.
    + rewrite Hc. subst s1. cbn. now rewrite <- !app_assoc.
    + rewrite hyper_indices_app, Hh. reflexivity.
    + rewrite applied_layers_app, Ha. reflexivity.
    + apply no_forward_app; [reflexivity|exact Hn].
Qed.


Lemma bind_assoc {St A B C} (c : M St A) (f : A -> M St B) (g : B -> M St C) s :
  bind (bind c f) g s = bind c (fun a => bind (f a) g) s.
Proof. unfold bind. destruct (c s) as [[a|e] s1]; reflexivity. Qed.

Lemma snd_bind_silent_any {A B} (c : M self_state A) (k : A -> M self_state B)
    (s : self_state) :
  (forall a, silent (k a)) -> snd (bind c k s) = snd (c s).
Proof.
  intro Hk. unfold bind. destruct (c s) as [[a|e] s1]; [apply Hk|reflexivity].
Qed.

Lemma calls_bind_emits (P : list event -> Prop) {A B}
    (c : M self_state A) (k : A -> M self_state B) (s s1 : self_state) a :
  c s = (Ok a, s1) -> emits P (k a) ->
  exists evs, calls (snd (bind c k s)) = calls s1 ++ evs /\ P evs.
Proof. intros Hc Hk. erewrite bind_eq by exact Hc. apply Hk. Qed.

Lemma emits_final (hmn : hidden * memory * norm_term) :
  silent (let '(h, mem, nt) := hmn in
          last <- orraise Py.IndexError (last_position (map (map llama_norm) h)) ;;
          ret (map llama_output last, mem, nt)).
Proof.
  destruct hmn as [[h mem] nt].
  apply silent_bind; [apply silent_orraise|]. intro. apply silent_ret.
Qed.

(** The pooled vector of a forward pass with [start_pos == 0]: the
    masked mean, over the mask the caller passed, of the hidden state
    that leaves the plain layers; the hypernetwork is called on it right
    after the call is logged. *)
Lemma forward_inference_prefill_pooled tokens m mem nt (s : self_state) :
  hyper_enabled = true ->
  (serial_generate cfg = true -> hyper_layers <> []) ->
  map (@length Z) tokens = map (@length float) m ->
  exists p idx rest,
    masked_mean (dim cfg)
      (fst (fst (layers_out (lora s) plain_layers 0 (Some m)
                   (map (map tok_embeddings) tokens, mem, nt))))
      m (denom_of m) = Some p /\
    calls (snd (forward_inference tokens 0 (Some m) mem nt s))
    = calls s ++ Forward 0 (Py.ncols tokens) (Some m) :: HyperNet p idx :: rest /\
    no_forward rest.
Proof.
  intros Hen Hne Hs.
  set (s0 := snd (log (Forward 0 (Py.ncols tokens) (Some m)) s)).
  change (lora s) with (lora s0).
  destruct (layers_out (lora s0) plain_layers 0 (Some m)
              (map (map tok_embeddings) tokens, mem, nt)) as [[h1 mem1] nt1] eqn:El.
  assert (Hsh : map (@length vec) h1 = map (@length float) m).
  { pose proof (layers_out_shape (lora s0) plain_layers 0 (Some m)
                  (map (map tok_embeddings) tokens) mem nt) as H0.
    unfold hidden in H0, El. rewrite El in H0. cbn [fst] in H0.
    now rewrite embed_shape, Hs in H0. }
  destruct (masked_mean_ok (dim cfg) _ _ Hsh) as (p & Hp).
  cbn [fst]. exists p.
  assert (Hgoal : exists idx rest,
             calls (snd (forward_inference tokens 0 (Some m) mem nt s))
             = calls s0 ++ HyperNet p idx :: rest /\ no_forward rest).
  2:{ destruct Hgoal as (idx & rest & E & Hn). exists idx, rest.
      split; [exact Hp|]. split; [|exact Hn].
      rewrite E. subst s0. cbn. now rewrite <- app_assoc. }
  unfold forward_inference.
  erewrite bind_eq by reflexivity. fold s0.
  rewrite bind_eq with (a := (h1, mem1, nt1)) (s1 := s0)
    by (rewrite run_layers_eq; do 2 f_equal; exact El).
  rewrite Hen. rewrite snd_bind_silent_any by apply emits_final.
  cbn [bind_denom Nat.eqb].
  rewrite bind_eq with (a := Some (denom_of m)) (s1 := s0) by reflexivity.
  destruct (serial_generate cfg) eqn:Hser; cbn [negb].
  - destruct hyper_layers as [|l rest0]; [now specialize (Hne eq_refl)|].
    cbn [run_serial Nat.eqb pool]. rewrite Hp. cbn [orraise].
    rewrite !bind_assoc. rewrite bind_eq with (a := p) (s1 := s0) by reflexivity.
    rewrite ?bind_assoc.
    match goal with
    | |- exists _ _, calls (snd (bind ?c ?k ?st)) = _ /\ _ =>
        assert (Hem : exists evs, calls (snd (bind c k st))
                                  = calls (snd (c st)) ++ evs /\ no_forward evs)
    end.
    { eapply calls_bind_emits; [reflexivity|].
      apply (emits_bind no_forward_app); [apply emits_apply_lora_params|].
      intro. apply (emits_bind no_forward_app);
        [apply emits_silent; intro s2; now rewrite call_layer_eq|].
      intro. apply emits_run_serial. }
    destruct Hem as (evs & E & Hn). exists (Some 0), evs.
    split; [|exact Hn]. rewrite E. cbn. now rewrite <- app_assoc.
  - cbn [Nat.eqb pool fst]. rewrite Hp. cbn [orraise].
    rewrite !bind_assoc. rewrite bind_eq with (a := p) (s1 := s0) by reflexivity.
    rewrite ?bind_assoc.
    match goal with
    | |- exists _ _, calls (snd (bind ?c ?k ?st)) = _ /\ _ =>
        assert (Hem : exists evs, calls (snd (bind c k st))
                                  = calls (snd (c st)) ++ evs /\ no_forward evs)
    end.
    { eapply calls_bind_emits; [reflexivity|].
      apply (emits_bind no_forward_app); [apply emits_apply_all|].
      intro. apply emits_silent, silent_run_layers. }
    destruct Hem as (evs & E & Hn). exists None, evs.
    split; [|exact Hn]. rewrite E. cbn. now rewrite <- app_assoc.
Qed.

(** *** The prompt mask of the first call *)

Lemma set_span_length a b (row : list float) :
  length (set_span a b row) = length row.
Proof.
  unfold set_span. rewrite !length_app, repeat_length, length_firstn, length_skipn,
    slice_length. lia.
Qed.

Lemma set_row_span_ok j a b (m : fmask) :
  j < length m ->
  exists m', set_row_span j a b m = Some m' /\
             map (@length float) m' = map (@length float) m.
Proof.
  intro Hj. unfold set_row_span.
  destruct (nth_error m j) as [row|] eqn:E.
  2:{ apply nth_error_None in E. lia. }
  eexists. split; [reflexivity|].
  rewrite <- (firstn_skipn j m) at 3. rewrite (skipn_nth_cons _ _ E).
  rewrite !map_app. cbn [map]. now rewrite set_span_length.
Qed.

Lemma mark_spans_checked_ok bound spans j (m : fmask) (s : self_state) :
  Forall (fun sp => snd sp <= bound) spans ->
  j + length spans <= length m ->
  exists m', mark_spans_checked bound j spans m s = (Ok m', s) /\
             map (@length float) m' = map (@length float) m.
Proof.
  intro Hall. revert j m. induction Hall as [|sp rest Hsp _ IH]; intros j m Hlen.
  - exists m. now split.
  - cbn [length] in Hlen. cbn [mark_spans_checked].
    apply Nat.leb_le in Hsp. rewrite Hsp. cbn [assert].
    erewrite bind_eq by reflexivity.
    destruct (@set_row_span_ok j (fst sp) (snd sp) m) as (m1 & E1 & Hs1); [lia|].
    rewrite E1. cbn [orraise]. erewrite bind_eq by reflexivity.
    destruct (IH (S j) m1) as (m' & E & Hs).
    { rewrite <- (length_map (@length float)), Hs1, length_map. lia. }
    exists m'. split; [exact E|congruence].
Qed.

Lemma mark_spans_ok spans j (m : fmask) (s : self_state) :
  j + length spans <= length m ->
  exists m', mark_spans j spans m s = (Ok m', s) /\
             map (@length float) m' = map (@length float) m.
Proof.
  revert j m. induction spans as [|sp rest IH]; intros j m Hlen.
  - exists m. now split.
  - cbn [length] in Hlen. cbn [mark_spans].
    destruct (@set_row_span_ok j (fst sp) (snd sp) m) as (m1 & E1 & Hs1); [lia|].
    rewrite E1. cbn [orraise]. erewrite bind_eq by reflexivity.
    destruct (IH (S j) m1) as (m' & E & Hs).
    { rewrite <- (length_map (@length float)), Hs1, length_map. lia. }
    exists m'. split; [exact E|congruence].
Qed.

Lemma float_mask_shape a b (itm : list (list bool)) :
  map (@length float) (float_mask a b itm)
  = map (@length bool) (Py.cols a b itm).
Proof.
  unfold float_mask. rewrite map_map. apply map_ext. intro. apply length_map.
Qed.

Lemma zeros_like_shape (m : fmask) :
  map (@length float) (zeros_like m) = map (@length float) m.
Proof.
  unfold zeros_like. rewrite map_map. apply map_ext. intro. apply length_map.
Qed.

Lemma segment_prompt_mask_ok itm (s : self_state) :
  usable_spans (length itm) ->
  exists m,
    segment_prompt_mask segment_size hyper_input_type hyper_input_spans itm s
    = (Ok m, s) /\
    map (@length float) m = map (@length bool) (Py.cols 0 segment_size itm) /\
    (is_instruction hyper_input_type = false -> m = float_mask 0 segment_size itm).
Proof.
  intro Hok. unfold segment_prompt_mask, spans_ok in *.
  destruct (is_instruction hyper_input_type).
  - destruct (Hok eq_refl) as [Hlen Hall].
    destruct (@mark_spans_checked_ok segment_size hyper_input_spans 0
                (zeros_like (float_mask 0 segment_size itm)) s Hall)
      as (m & E & Hs).
    { unfold zeros_like, float_mask, Py.cols. now rewrite !length_map. }
    exists m. split; [exact E|]. split; [|discriminate].
    now rewrite Hs, zeros_like_shape, float_mask_shape.
  - eexists. split; [reflexivity|]. split; [apply float_mask_shape|reflexivity].
Qed.

Lemma prefill_prompt_mask_ok itm n (s : self_state) :
  usable_spans (length itm) ->
  exists m,
    prefill_prompt_mask hyper_input_type hyper_input_spans itm 0 n s = (Ok m, s) /\
    map (@length float) m = map (@length bool) (Py.cols 0 n itm) /\
    (is_instruction hyper_input_type = false -> m = float_mask 0 n itm).
Proof.
  intro Hok. unfold prefill_prompt_mask, spans_ok in *.
  destruct (is_instruction hyper_input_type).
  - destruct (Hok eq_refl) as [Hlen Hall].
    destruct (@mark_spans_ok hyper_input_spans 0
                (zeros_like (float_mask 0 n itm)) s)
      as (m & E & Hs).
    { unfold zeros_like, float_mask, Py.cols. now rewrite !length_map. }
    exists m. split; [exact E|]. split; [|discriminate].
    now rewrite Hs, zeros_like_shape, float_mask_shape.
  - eexists. split; [reflexivity|]. split; [apply float_mask_shape|reflexivity].
Qed.

(** *** The log of a whole run *)

Lemma calls_bind_tail (P : list event -> Prop) {A B}
    (c : M self_state A) (k : A -> M self_state B) (s : self_state) :
  P [] ->
  (forall a s1, c s = (Ok a, s1) -> emits P (k a)) ->
  exists evs, calls (snd (bind c k s)) = calls (snd (c s)) ++ evs /\ P evs.
Proof.
  intros Hnil Hk. unfold bind. destruct (c s) as [[a|e] s1] eqn:E; cbn [snd].
  - exact (Hk a s1 eq_refl s1).
  - exists []. now rewrite app_nil_r.
Qed.

Lemma emits_bind_val (P : list event -> Prop) {A B}
    (c : M self_state A) (k : A -> M self_state B) :
  (forall l1 l2, P l1 -> P l2 -> P (l1 ++ l2)) ->
  emits P c ->
  (forall s a s1, c s = (Ok a, s1) -> emits P (k a)) ->
  emits P (bind c k).
Proof.
  intros Happ Hc Hk s. destruct (Hc s) as (e1 & E1 & P1).
  unfold bind. destruct (c s) as [[a|e] s1] eqn:E; cbn [snd] in *.
  - destruct (Hk s a s1 E s1) as (e2 & E2 & P2). exists (e1 ++ e2).
    split; [now rewrite E2, E1, app_assoc|now apply Happ].
  - now exists e1.
Qed.

Lemma decode_only_nil : decode_only [].
Proof. constructor. Qed.

Lemma emits_forward_inference_decode tokens sp pm mem nt :
  sp <> 0 -> emits decode_only (forward_inference tokens sp pm mem nt).
Proof.
  intros Hsp s. rewrite (forward_inference_decode _ _ _ _ _ Hsp).
  exists [Forward sp (Py.ncols tokens) pm]. split; [reflexivity|].
  constructor; [lia|constructor].
Qed.

Lemma emits_run_segments_decode itm segs lsp acc :
  lsp <> 0 -> emits decode_only (segments itm segs lsp acc).
Proof.
  revert lsp acc. induction segs as [|seg rest IH]; intros lsp [[lg mem] nt] Hl;
    cbn [run_segments].
  - apply silent_emits; [apply decode_only_nil|apply silent_ret].
  - apply (emits_bind decode_only_app).
    + destruct (Nat.eqb_spec lsp 0) as [E|_]; [contradiction|].
      now apply emits_forward_inference_decode.
    + intros [[logits mem1] nt1]. apply IH. lia.
Qed.

Variable prompts : list (list Z).
Variable max_gen_len : nat.
Variables temperature top_p : float.

Local Abbreviation step :=
  (decode_step prompts temperature top_p segment_size
               hyper_input_type hyper_input_spans).
Local Abbreviation loop :=
  (decode_loop prompts temperature top_p segment_size
               hyper_input_type hyper_input_spans).
Local Abbreviation tokens_run :=
  (generate_tokens prompts max_gen_len temperature top_p segment_size
                   hyper_input_type hyper_input_spans).
Local Abbreviation grid := (padded prompts).
Local Abbreviation width := (first_width segment_size).
Local Abbreviation reaches_loop :=
  (runs prompts max_gen_len segment_size hyper_input_type hyper_input_spans).

(** What follows the model call in an iteration does not touch the
    adapter. *)
Lemma decode_step_state itm cur ls (s : self_state) :
  snd (step itm cur ls s)
  = snd (model itm (tokens_of ls) (prev_pos_of ls) cur (memory_of ls)
               (norm_term_of ls) s).
Proof.
  unfold decode_step. apply snd_bind_silent_any. intros [[logits mem] nt].
  apply silent_bind; [apply silent_orraise|]. intro.
  apply silent_bind; [apply silent_orraise|]. intro.
  apply silent_bind; [apply silent_orraise|]. intro.
  apply silent_bind; [apply silent_orraise|]. intro.
  apply silent_bind.
  - destruct (bsz prompts =? 1); [|apply silent_ret].
    apply silent_bind; [apply silent_orraise|]. intro. apply silent_ret.
  - intros [|]; apply silent_ret.
Qed.

Lemma emits_decode_step itm cur ls :
  prev_pos_of ls <> 0 -> emits decode_only (step itm cur ls).
Proof.
  intros Hp s. rewrite decode_step_state. unfold run_model, need_segment.
  destruct (Nat.eqb_spec (prev_pos_of ls) 0) as [E|_]; [contradiction|].
  cbn [andb]. now apply emits_forward_inference_decode.
Qed.

Lemma emits_decode_loop itm positions ls :
  prev_pos_of ls <> 0 -> Forall (fun c => c <> 0) positions ->
  emits decode_only (loop itm positions ls).
Proof.
  intros Hp Hall. revert ls Hp.
  induction Hall as [|cur rest Hc _ IH]; intros ls Hp; cbn [decode_loop].
  - apply silent_emits; [apply decode_only_nil|apply silent_ret].
  - apply emits_bind_val;
      [exact decode_only_app|now apply emits_decode_step|].
    intros s r s1 Hr. apply decode_step_break_iff in Hr as Hk.
    destruct r as [l|l].
    + apply IH. destruct Hk as [-> _]. exact Hc.
    + apply silent_emits; [apply decode_only_nil|apply silent_ret].
Qed.

Lemma cols_cols {A} (a b : nat) (g : list (list A)) :
  a <= b -> Py.cols 0 a (Py.cols 0 b g) = Py.cols 0 a g.
Proof.
  intro H. unfold Py.cols. rewrite map_map. apply map_ext. intro l.
  unfold Py.slice. rewrite !Nat.sub_0_r. cbn [skipn].
  rewrite firstn_firstn. f_equal. lia.
Qed.

Lemma range_head (a b : nat) :
  0 < a -> a < b -> exists tl, Py.range a b a = a :: tl.
Proof.
  intros Ha Hab. unfold Py.range.
  destruct ((b - a + (a - 1)) / a) as [|n] eqn:E.
  - apply Nat.div_small_iff in E; lia.
  - cbn [seq map]. eexists. f_equal. lia.
Qed.

(** The prefill of [generate]'s first iteration: a first forward call
    at position 0 on the first [n] columns with the prompt mask, [n]
    being the segment length bound in the segmented branch and the whole
    range otherwise, then only calls with [start_pos > 0]. *)
Lemma run_model_prefill_head itm tokens W L mem nt (s : self_state) :
  0 < segment_size -> 0 < L -> L <= W ->
  tokens <> [] -> Forall (fun row => length row = W) tokens ->
  map (@length bool) itm = map (@length Z) tokens ->
  usable_spans (length itm) ->
  exists m rest,
    map (@length Z)
        (Py.cols 0 (if need_segment segment_size 0 L then segment_size else L) tokens)
    = map (@length float) m /\
    (is_instruction hyper_input_type = false ->
     m = float_mask 0 (if need_segment segment_size 0 L then segment_size else L) itm) /\
    calls (snd (model itm tokens 0 L mem nt s))
    = calls (snd (forward_inference
                    (Py.cols 0 (if need_segment segment_size 0 L
                                then segment_size else L) tokens)
                    0 (Some m) mem nt s)) ++ rest /\
    decode_only rest.
Proof.
  intros HS HL HLW Hne Hw Hitm Hok.
  unfold run_model, need_segment. cbn [Nat.eqb andb].
  destruct (Nat.ltb_spec segment_size L) as [Hseg|Hseg].
  - destruct (@segment_prompt_mask_ok itm s Hok) as (m & Em & Hms & Hmd).
    destruct (range_head HS Hseg) as (tl & Hr).
    assert (Hn : Py.ncols (Py.cols 0 L tokens) = L).
    { rewrite (ncols_cols _ _ Hne Hw). lia. }
    assert (Hn1 : Py.ncols (Py.cols 0 segment_size tokens) = segment_size).
    { rewrite (ncols_cols _ _ Hne Hw). lia. }
    assert (Hshape : map (@length Z) (Py.cols 0 segment_size tokens)
                     = map (@length float) m).
    { now rewrite Hms, !cols_widths, Hitm. }
    destruct (Nat.eqb_spec segment_size 0) as [E|_]; [lia|].
    erewrite bind_eq by reflexivity.
    rewrite snd_bind_silent_any.
    2:{ intros [[lg mem1] nt1].
        apply silent_bind; [apply silent_orraise|]. intro. apply silent_ret. }
    rewrite Hn, Hr. unfold Py.tensor_split. cbn [Py.tensor_split_from run_segments].
    rewrite (cols_cols _ (Nat.lt_le_incl _ _ Hseg)).
    cbn [Nat.eqb]. rewrite bind_assoc.
    rewrite bind_eq with (a := m) (s1 := s) by exact Em.
    match goal with
    | |- exists _ _, _ /\ _ /\ calls (snd (bind ?c ?k ?st)) = _ /\ _ =>
        destruct (@calls_bind_tail decode_only _ _ c k st decode_only_nil)
          as (rest & E & Hd)
    end.
    { intros [[lg mem1] nt1] s1 _. apply emits_run_segments_decode.
      rewrite Hn1. lia. }
    exists m, rest. auto.
  - destruct (@prefill_prompt_mask_ok itm L s Hok) as (m & Em & Hms & Hmd).
    exists m, []. split; [now rewrite Hms, !cols_widths, Hitm|].
    split; [exact Hmd|]. split; [|apply decode_only_nil].
    rewrite bind_eq with (a := m) (s1 := s) by exact Em.
    now rewrite app_nil_r.
Qed.

Lemma generate_state memory0 norm_term0 (s : self_state) :
  snd (generate prompts max_gen_len temperature top_p segment_size
                hyper_input_type hyper_input_spans memory0 norm_term0 s)
  = snd (tokens_run memory0 norm_term0 s).
Proof.
  unfold generate. apply snd_bind_silent_any. intro. apply silent_ret.
Qed.

Lemma generate_trace memory0 norm_term0 (s : self_state) start total :
  reaches_loop start total ->
  exists m rest,
    map (@length Z) (Py.cols 0 (width start) (grid total))
    = map (@length float) m /\
    (is_instruction hyper_input_type = false ->
     m = float_mask 0 (width start) (text_mask (grid total))) /\
    calls (snd (tokens_run memory0 norm_term0 s))
    = calls (snd (forward_inference (Py.cols 0 (width start) (grid total))
                                    0 (Some m) memory0 norm_term0 s)) ++ rest /\
    decode_only rest.
Proof.
  intros (Hb & Hmin & (longest & Hmax & ->) & Hfit & [Hs0 Hst] & HS & Hok).
  destruct (init_grid_fits max_gen_len s Hb Hmax Hfit) as (start' & Hmin' & Hi).
  assert (start' = start) by congruence. subst start'.
  fold (padded prompts (total_len_of max_gen_len longest)) in Hi.
  set (total := total_len_of max_gen_len longest) in *.
  assert (Hne : grid total <> []).
  { unfold padded. destruct prompts; [discriminate|discriminate]. }
  assert (Hw : Forall (fun row => length row = total) (grid total)).
  { unfold padded. rewrite Forall_map. eapply Forall_impl; [|exact Hfit].
    intros t Ht. cbn beta in Ht. rewrite length_app, repeat_length. lia. }
  assert (Hitm : map (@length bool) (text_mask (grid total))
                 = map (@length Z) (grid total)).
  { unfold text_mask. rewrite map_map. apply map_ext. intro. apply length_map. }
  assert (Hok' : usable_spans (length (text_mask (grid total)))).
  { unfold text_mask, padded. now rewrite !length_map. }
  destruct (@run_model_prefill_head (text_mask (grid total)) (grid total)
              total start memory0 norm_term0 s HS Hs0 (Nat.lt_le_incl _ _ Hst)
              Hne Hw Hitm Hok') as (m & rest1 & Hsh & Hmd & E1 & D1).
  unfold generate_tokens.
  rewrite bind_eq with (a := (grid total, start, total)) (s1 := s) by exact Hi.
  rewrite snd_bind_silent_any by (intro; apply silent_ret).
  rewrite range_step_one.
  destruct (total - start) as [|k] eqn:Ek; [lia|].
  cbn [seq decode_loop].
  match goal with
  | |- exists _ _, _ /\ _ /\ calls (snd (bind ?c ?k ?st)) = _ /\ _ =>
      destruct (@calls_bind_tail decode_only _ _ c k st decode_only_nil)
        as (rest2 & E2 & D2)
  end.
  { intros r s1 Hr. apply decode_step_break_iff in Hr as Hk.
    destruct r as [l|l].
    - apply emits_decode_loop; [destruct Hk as [-> _]; lia|].
      apply Forall_forall. intros c Hc. apply in_seq in Hc. lia.
    - apply silent_emits; [apply decode_only_nil|apply silent_ret]. }
  exists m, (rest1 ++ rest2). split; [exact Hsh|]. split; [exact Hmd|].
  split; [|now apply decode_only_app].
  rewrite E2, decode_step_state. cbn [tokens_of prev_pos_of memory_of norm_term_of].
  rewrite E1. now rewrite app_assoc.
Qed.


(** C6 as the code has it: under an input policy other than
    [instruction], the hypernetwork input is the masked mean of the
    hidden states of the first forward call over the prompt-token mask
    restricted to the columns of that call: the first [segment_size]
    columns in segmented prefill, the columns of the shortest prompt
    otherwise. *)
Theorem document_pool_covers_first_call memory0 norm_term0 (s : self_state)
    start total :
  hyper_enabled = true ->
  (serial_generate cfg = true -> hyper_layers <> []) ->
  is_instruction hyper_input_type = false ->
  reaches_loop start total ->
  exists p idx rest,
    masked_mean (dim cfg)
      (fst (fst (layers_out (lora s) plain_layers 0
                   (Some (float_mask 0 (width start) (text_mask (grid total))))
                   (map (map tok_embeddings)
                        (Py.cols 0 (width start) (grid total)),
                    memory0, norm_term0))))
      (float_mask 0 (width start) (text_mask (grid total)))
      (denom_of (float_mask 0 (width start) (text_mask (grid total))))
    = Some p /\
    calls (snd (generate prompts max_gen_len temperature top_p segment_size
                         hyper_input_type hyper_input_spans memory0 norm_term0 s))
    = calls s ++ Forward 0 (width start)
                   (Some (float_mask 0 (width start) (text_mask (grid total))))
              :: HyperNet p idx :: rest.
Proof.
  intros Hen Hne Hdoc Hruns.
  destruct (generate_trace memory0 norm_term0 s Hruns) as (m & rest & Hsh & Hm & E & D).
  specialize (Hm Hdoc). subst m.
  destruct (@forward_inference_prefill_pooled _ _ memory0 norm_term0 s Hen Hne Hsh)
    as (p & idx & rest1 & Hp & Ef & _).
  assert (Hcols : Py.ncols (Py.cols 0 (width start) (grid total))
                  = width start).
  { destruct Hruns as (_ & Hmin & _ & Hfit & [Hs0 Hst] & HS & _).
    unfold padded, first_width, need_segment.
    destruct prompts as [|t ps]; [discriminate|].
    apply Forall_inv in Hfit. cbn [map Py.cols Py.ncols Nat.eqb andb].
    rewrite slice_length, length_app, repeat_length.
    destruct (Nat.ltb_spec segment_size start); lia. }
  rewrite Hcols in Ef.
  exists p, idx, (rest1 ++ rest). split; [exact Hp|].
  rewrite generate_state, E, Ef. now rewrite <- app_assoc.
Qed.

(** *** Totality: a call that reaches the loop returns *)

Lemma Forall_length_of_shape {A B} (n : nat) (a : list (list A)) (b : list (list B)) :
  map (@length A) a = map (@length B) b ->
  Forall (fun r => length r = n) b -> Forall (fun r => length r = n) a.
Proof.
  revert b. induction a as [|x a IH]; intros [|y b] H Hb; try discriminate;
    [constructor|].
  injection H as H1 H2. inversion Hb as [|? ? Hy Hb']; subst.
  constructor; [congruence|now apply IH with (b := b)].
Qed.

Lemma last_position_ok (h : hidden) (n : nat) :
  0 < n -> Forall (fun r => length r = n) h ->
  exists l, last_position h = Some l /\ length l = length h.
Proof.
  intros Hn. induction 1 as [|hb h Hb _ IH]; [now exists []|].
  destruct IH as (l & El & Hl). cbn [last_position]. rewrite El.
  destruct (rev hb) as [|v r] eqn:Er.
  - apply (f_equal (@length vec)) in Er. rewrite length_rev, Hb in Er.
    cbn [length] in Er. lia.
  - exists (v :: l). cbn. now rewrite Hl.
Qed.

Lemma column_ok {A} (c : nat) (g : list (list A)) :
  Forall (fun r => c < length r) g ->
  exists col, column c g = Some col /\ length col = length g.
Proof.
  induction 1 as [|r g Hr _ IH]; [now exists []|].
  destruct IH as (col & E & Hl). cbn [column]. rewrite E.
  destruct (nth_error r c) as [x|] eqn:Ex.
  - exists (x :: col). cbn. now rewrite Hl.
  - apply nth_error_None in Ex. lia.
Qed.

Lemma where_ok {A} (cond : list bool) (a b : list A) :
  length a = length cond -> length b = length cond ->
  exists w, where_ cond a b = Some w /\ length w = length cond.
Proof.
  revert a b. induction cond as [|c cond IH]; intros [|x a] [|y b] Ha Hb;
    try discriminate; [now exists []|].
  injection Ha as Ha. injection Hb as Hb.
  destruct (IH _ _ Ha Hb) as (w & E & Hl). cbn [where_]. rewrite E.
  eexists. split; [reflexivity|]. cbn. now rewrite Hl.
Qed.

Lemma set_column_ok {A} (c : nat) (v : list A) (g : list (list A)) :
  length v = length g -> Forall (fun r => c < length r) g ->
  exists g', set_column c v g = Some g'.
Proof.
  intros Hl Hg. revert v Hl. induction Hg as [|r g Hr _ IH]; intros [|x v] Hl;
    try discriminate; [now exists []|].
  injection Hl as Hl. destruct (IH _ Hl) as (g' & E).
  cbn [set_column]. apply Nat.ltb_lt in Hr. rewrite Hr, E. cbn. eauto.
Qed.

Lemma sample_length cur (logits : list vec) :
  length (sample temperature top_p cur logits) = length logits.
Proof.
  unfold sample. destruct (PrimFloat.ltb 0 temperature).
  - rewrite length_map, length_combine, length_seq, Nat.min_id. apply length_map.
  - apply length_map.
Qed.

(** The hyper-adapted part of a forward pass returns and keeps the shape
    of the hidden state. *)
Lemma hyper_block_ok sp pm (h1 : hidden) mem1 nt1 (s0 : self_state) :
  hyper_net_covers_layers ->
  (sp = 0 -> exists m, pm = Some m /\ map (@length vec) h1 = map (@length float) m) ->
  exists out s1,
    (denom <- bind_denom sp pm ;;
     if negb (serial_generate cfg) then
       (if sp =? 0 then
          p <- pool (fst (fst (h1, mem1, nt1))) pm denom ;;
          params <- call_hyper_net p ;;
          apply_all 0 hyper_layers params
        else ret tt) ;;;
       run_layers hyper_layers sp pm (h1, mem1, nt1)
     else
       run_serial 0 hyper_layers sp pm denom (h1, mem1, nt1)) s0
    = (Ok out, s1) /\
    map (@length vec) (fst (fst out)) = map (@length vec) h1.
Proof.
  intros Hcov Hpm. unfold bind_denom.
  destruct (Nat.eqb_spec sp 0) as [Hsp|Hsp].
  - destruct (Hpm Hsp) as (m & -> & Hs). subst sp.
    erewrite bind_eq by reflexivity.
    destruct (serial_generate cfg) eqn:Hser; cbn [negb].
    + destruct (@run_serial_prefill m hyper_layers 0 h1 mem1 nt1 s0 Hs)
        as (out & s' & evs & Hr & Hsh & _).
      exists out, s'. split; [exact Hr|exact Hsh].
    + destruct (masked_mean_ok (dim cfg) _ _ Hs) as (p & Hp).
      destruct (apply_all_log (lora_hyper_net p) hyper_layers 0
                  (snd (call_hyper_net p s0))) as (s2 & Happ & _);
        [cbn; now apply Hcov|].
      eexists. exists s2. split.
      * cbn [fst pool]. rewrite Hp. cbn [orraise].
        rewrite !bind_assoc.
        rewrite bind_eq with (a := p) (s1 := s0) by reflexivity.
        rewrite ?bind_assoc.
        rewrite bind_eq with (a := lora_hyper_net p) (s1 := snd (call_hyper_net p s0))
          by reflexivity.
        rewrite ?bind_assoc.
        rewrite bind_eq with (a := tt) (s1 := s2) by exact Happ.
        apply run_layers_eq.
      * apply layers_out_shape.
  - erewrite bind_eq by reflexivity.
    destruct (serial_generate cfg); cbn [negb].
    + rewrite (run_serial_decode _ _ _ _ _ _ Hsp), run_layers_eq.
      eexists. eexists. split; [reflexivity|apply layers_out_shape].
    + erewrite bind_eq by reflexivity. rewrite run_layers_eq.
      eexists. eexists. split; [reflexivity|apply layers_out_shape].
Qed.

(** A forward pass on a rectangular batch of at least one position, given
    a mask of the batch's shape when [start_pos == 0], returns one row of
    logits per sequence. *)
Lemma forward_inference_ok tokens n sp pm mem nt (s : self_state) :
  hyper_net_covers_layers ->
  0 < n -> Forall (fun r => length r = n) tokens ->
  (sp = 0 -> exists m, pm = Some m /\ map (@length Z) tokens = map (@length float) m) ->
  exists logits mem' nt' s',
    forward_inference tokens sp pm mem nt s = (Ok (logits, mem', nt'), s') /\
    length logits = length tokens.
Proof.
  intros Hcov Hn Hrect Hpm.
  set (s0 := snd (log (Forward sp (Py.ncols tokens) pm) s)).
  destruct (layers_out (lora s0) plain_layers sp pm
              (map (map tok_embeddings) tokens, mem, nt)) as [[h1 mem1] nt1] eqn:El.
  assert (Hsh1 : map (@length vec) h1 = map (@length Z) tokens).
  { pose proof (layers_out_shape (lora s0) plain_layers sp pm
                  (map (map tok_embeddings) tokens) mem nt) as H0.
    unfold hidden in H0, El. rewrite El in H0. cbn [fst] in H0.
    now rewrite embed_shape in H0. }
  assert (Hblock : exists out s1,
             (if hyper_enabled then
                denom <- bind_denom sp pm ;;
                if negb (serial_generate cfg) then
                  (if sp =? 0 then
                     p <- pool (fst (fst (h1, mem1, nt1))) pm denom ;;
                     params <- call_hyper_net p ;;
                     apply_all 0 hyper_layers params
                   else ret tt) ;;;
                  run_layers hyper_layers sp pm (h1, mem1, nt1)
                else
                  run_serial 0 hyper_layers sp pm denom (h1, mem1, nt1)
              else ret (h1, mem1, nt1)) s0 = (Ok out, s1) /\
             map (@length vec) (fst (fst out)) = map (@length vec) h1).
  { destruct hyper_enabled.
    - apply hyper_block_ok; [exact Hcov|].
      intro Hsp. destruct (Hpm Hsp) as (m & -> & Hs). exists m.
      split; [reflexivity|congruence].
    - eexists. eexists. split; reflexivity. }
  destruct Hblock as ([[h2 mem2] nt2] & s1 & Hb & Hsh2). cbn [fst] in Hsh2.
  assert (Hsh : map (@length vec) (map (map llama_norm) h2) = map (@length Z) tokens).
  { rewrite map_map. rewrite <- Hsh1, <- Hsh2. apply map_ext. intro. apply length_map. }
  destruct (@last_position_ok (map (map llama_norm) h2) n Hn) as (l & El2 & Hl).
  { eapply Forall_length_of_shape; [exact Hsh|exact Hrect]. }
  exists (map llama_output l), mem2, nt2, s1. split.
  - unfold forward_inference.
    erewrite bind_eq by reflexivity. fold s0.
    rewrite bind_eq with (a := (h1, mem1, nt1)) (s1 := s0)
      by (rewrite run_layers_eq; do 2 f_equal; exact El).
    rewrite bind_eq with (a := (h2, mem2, nt2)) (s1 := s1) by exact Hb.
    rewrite El2. reflexivity.
  - rewrite length_map, Hl.
    rewrite <- (length_map (@length vec)), Hsh. apply length_map.
Qed.

Lemma cols_rect {A} (a b w : nat) (g : list (list A)) :
  Forall (fun r => length r = w) g ->
  Forall (fun r => length r = Nat.min (b - a) (w - a)) (Py.cols a b g).
Proof.
  intro H. unfold Py.cols. rewrite Forall_map. eapply Forall_impl; [|exact H].
  intros r Hr. cbn beta in Hr. now rewrite slice_length, Hr.
Qed.

Lemma tensor_split_from_chunks {A} (size w : nat) (g : list (list A)) n prev :
  Forall (fun r => length r = w) g -> 0 < size ->
  prev + n * size < w ->
  Forall (chunk_ok (length g))
         (Py.tensor_split_from prev (map (fun k => prev + size + k * size) (seq 0 n)) g).
Proof.
  intros Hw Hs. revert prev. induction n as [|n IH]; intros prev Hlt.
  - cbn [seq map Py.tensor_split_from]. constructor; [|constructor].
    split; [apply length_map|]. destruct g as [|r g].
    + exists 1. split; [lia|constructor].
    + exists (Nat.min (Py.ncols (r :: g) - prev) (w - prev)). split.
      * apply Forall_inv in Hw as Hr. cbn [Py.ncols]. cbn in Hlt. lia.
      * now apply cols_rect.
  - assert (Hlt' : prev + size + n * size < w) by (cbn in Hlt; lia).
    cbn [seq map Py.tensor_split_from].
    replace (prev + size + 0 * size) with (prev + size) by lia.
    constructor.
    + split; [apply length_map|]. exists (Nat.min (prev + size - prev) (w - prev)).
      split; [lia|]. now apply cols_rect.
    + rewrite <- seq_shift, map_map.
      rewrite (map_ext _ (fun k => (prev + size) + size + k * size)) by (intro; lia).
      now apply IH.
Qed.

Lemma run_segments_decode_ok itm segs lsp lg0 mem nt (s : self_state) B :
  hyper_net_covers_layers ->
  lsp <> 0 -> Forall (chunk_ok B) segs -> length lg0 = B ->
  exists lg mem' nt' s',
    segments itm segs lsp (Some lg0, mem, nt) s = (Ok (Some lg, mem', nt'), s') /\
    length lg = B.
Proof.
  intros Hcov Hl Hsegs. revert lsp lg0 mem nt s Hl.
  induction Hsegs as [|seg rest Hseg _ IH]; intros lsp lg0 mem nt s Hl Hlg.
  - exists lg0, mem, nt, s. now split.
  - destruct Hseg as [HB (n & Hn & Hrect)].
    destruct (@forward_inference_ok seg n lsp None mem nt s Hcov Hn Hrect)
      as (lg & mem1 & nt1 & s1 & Hf & Hlen); [intro; contradiction|].
    destruct (IH (lsp + Py.ncols seg) lg mem1 nt1 s1) as (lg' & mem' & nt' & s' & Hr & Hl');
      [lia|congruence|].
    exists lg', mem', nt', s'. split; [|exact Hl'].
    cbn [run_segments]. destruct (Nat.eqb_spec lsp 0) as [E|_]; [contradiction|].
    rewrite bind_eq with (a := (lg, mem1, nt1)) (s1 := s1) by exact Hf.
    exact Hr.
Qed.

(** The prefill of the first iteration returns one row of logits per
    sequence. *)
Lemma run_model_prefill_ok itm tokens W L mem nt (s : self_state) :
  hyper_net_covers_layers ->
  0 < segment_size -> 0 < L -> L <= W ->
  tokens <> [] -> Forall (fun row => length row = W) tokens ->
  map (@length bool) itm = map (@length Z) tokens ->
  usable_spans (length itm) ->
  exists logits mem' nt' s',
    model itm tokens 0 L mem nt s = (Ok (logits, mem', nt'), s') /\
    length logits = length tokens.
Proof.
  intros Hcov HS HL HLW Hne Hw Hitm Hok.
  unfold run_model, need_segment. cbn [Nat.eqb andb].
  destruct (Nat.ltb_spec segment_size L) as [Hseg|Hseg].
  - destruct (@segment_prompt_mask_ok itm s Hok) as (m & Em & Hms & _).
    assert (Hx : Forall (fun row => length row = L) (Py.cols 0 L tokens)).
    { eapply Forall_impl; [|apply (cols_rect 0 L Hw)]. intros r Hr. cbn beta in Hr. lia. }
    assert (Hn : Py.ncols (Py.cols 0 L tokens) = L).
    { rewrite (ncols_cols _ _ Hne Hw). lia. }
    assert (H1 : Forall (fun row => length row = segment_size)
                        (Py.cols 0 segment_size tokens)).
    { eapply Forall_impl; [|apply (cols_rect 0 segment_size Hw)].
      intros r Hr. cbn beta in Hr. lia. }
    destruct (@forward_inference_ok (Py.cols 0 segment_size tokens) segment_size 0
                (Some m) mem nt s Hcov HS H1)
      as (lg1 & mem1 & nt1 & s1 & Hf & Hlen1).
    { intros _. exists m. split; [reflexivity|]. now rewrite Hms, !cols_widths, Hitm. }
    assert (Hq : (L - segment_size + (segment_size - 1)) / segment_size
                 = S ((L - 1) / segment_size - 1) /\
                 segment_size + ((L - 1) / segment_size - 1) * segment_size < L).
    { replace (L - segment_size + (segment_size - 1)) with (L - 1) by lia.
      pose proof (Nat.Div0.mul_div_le (L - 1) segment_size) as Hle.
      assert (0 < (L - 1) / segment_size) by (apply Nat.div_str_pos; lia).
      split; [lia|nia]. }
    destruct Hq as [Hq Hlt].
    pose proof (@tensor_split_from_chunks Z segment_size L (Py.cols 0 L tokens)
                  ((L - 1) / segment_size - 1) segment_size Hx HS Hlt) as Hchunks.
    destruct (@run_segments_decode_ok itm
                (Py.tensor_split_from segment_size
                   (map (fun k => segment_size + segment_size + k * segment_size)
                        (seq 0 ((L - 1) / segment_size - 1)))
                   (Py.cols 0 L tokens))
                (0 + Py.ncols (Py.cols 0 segment_size tokens)) lg1 mem1 nt1 s1
                (length (Py.cols 0 L tokens)) Hcov)
      as (lg & mem' & nt' & s' & Hr & Hl).
    { rewrite (ncols_cols _ _ Hne Hw). lia. }
    { exact Hchunks. }
    { rewrite Hlen1. unfold Py.cols. now rewrite !length_map. }
    exists lg, mem', nt', s'. split.
    2:{ rewrite Hl. unfold Py.cols. apply length_map. }
    destruct (Nat.eqb_spec segment_size 0) as [E|_]; [lia|].
    erewrite bind_eq by reflexivity.
    rewrite bind_eq with (a := (Some lg, mem', nt')) (s1 := s').
    + reflexivity.
    + rewrite Hn. unfold Py.tensor_split, Py.range. rewrite Hq.
      cbn [seq map Py.tensor_split_from run_segments].
      replace (segment_size + 0 * segment_size) with segment_size by lia.
      rewrite (cols_cols _ (Nat.lt_le_incl _ _ Hseg)).
      cbn [Nat.eqb]. rewrite bind_assoc.
      rewrite bind_eq with (a := m) (s1 := s) by exact Em.
      rewrite bind_eq with (a := (lg1, mem1, nt1)) (s1 := s1) by exact Hf.
      rewrite <- seq_shift, map_map.
      rewrite (map_ext _ (fun k => segment_size + segment_size + k * segment_size))
        by (intro; lia).
      exact Hr.
  - destruct (@prefill_prompt_mask_ok itm L s Hok) as (m & Em & Hms & _).
    assert (H1 : Forall (fun row => length row = L) (Py.cols 0 L tokens)).
    { eapply Forall_impl; [|apply (cols_rect 0 L Hw)]. intros r Hr. cbn beta in Hr. lia. }
    destruct (@forward_inference_ok (Py.cols 0 L tokens) L 0 (Some m) mem nt s Hcov HL H1)
      as (lg1 & mem1 & nt1 & s1 & Hf & Hlen1).
    { intros _. exists m. split; [reflexivity|]. now rewrite Hms, !cols_widths, Hitm. }
    exists lg1, mem1, nt1, s1. split.
    + rewrite bind_eq with (a := m) (s1 := s) by exact Em. exact Hf.
    + rewrite Hlen1. unfold Py.cols. apply length_map.
Qed.

Lemma run_model_decode_ok itm tokens W prev mem nt (s : self_state) :
  hyper_net_covers_layers ->
  prev <> 0 -> prev < W -> Forall (fun row => length row = W) tokens ->
  exists logits mem' nt' s',
    model itm tokens prev (S prev) mem nt s = (Ok (logits, mem', nt'), s') /\
    length logits = length tokens.
Proof.
  intros Hcov Hp HW Hw. unfold run_model, need_segment.
  destruct (Nat.eqb_spec prev 0) as [E|_]; [contradiction|]. cbn [andb].
  assert (H1 : Forall (fun row => length row = 1) (Py.cols prev (S prev) tokens)).
  { eapply Forall_impl; [|apply (cols_rect prev (S prev) Hw)].
    intros r Hr. cbn beta in Hr. lia. }
  destruct (@forward_inference_ok (Py.cols prev (S prev) tokens) 1 prev None mem nt s
              Hcov Nat.lt_0_1 H1)
    as (lg & mem1 & nt1 & s1 & Hf & Hlen); [intro; contradiction|].
  exists lg, mem1, nt1, s1. split; [exact Hf|].
  rewrite Hlen. unfold Py.cols. apply length_map.
Qed.

(** One iteration on a rectangular grid returns; when it continues, the
    grid keeps its shape and [prev_pos] is the position just decoded. *)
Lemma decode_step_ok itm total start cur ls (s : self_state) :
  hyper_net_covers_layers ->
  0 < segment_size -> usable_spans (length itm) ->
  0 < start ->
  tokens_of ls <> [] ->
  length (tokens_of ls) = length prompts ->
  Forall (fun row => length row = total) (tokens_of ls) ->
  map (@length bool) itm = map (@length Z) (tokens_of ls) ->
  cur < total ->
  (prev_pos_of ls = 0 /\ cur = start) \/ (prev_pos_of ls <> 0 /\ cur = S (prev_pos_of ls)) ->
  exists r s',
    step itm cur ls s = (Ok r, s') /\
    length (tokens_of (ls_of r)) = length prompts /\
    Forall (fun row => length row = total) (tokens_of (ls_of r)) /\
    match r with
    | Continue l => prev_pos_of l = cur
    | Break _ => True
    end.
Proof.
  intros Hcov HS Hok Hstart Hne HB Hw Hitm Hcur Hpos.
  assert (Hm : exists logits mem' nt' s',
             model itm (tokens_of ls) (prev_pos_of ls) cur (memory_of ls)
                   (norm_term_of ls) s = (Ok (logits, mem', nt'), s') /\
             length logits = length (tokens_of ls)).
  { destruct Hpos as [[Hp ->]|[Hp ->]].
    - rewrite Hp. apply run_model_prefill_ok with (W := total); auto. lia.
    - apply run_model_decode_ok with (W := total); auto. lia. }
  destruct Hm as (logits & mem' & nt' & s' & Hmod & Hlog).
  assert (Hcols : Forall (fun r => cur < length r) (tokens_of ls)).
  { eapply Forall_impl; [|exact Hw]. intros r Hr. cbn beta in Hr. lia. }
  assert (Hcols' : Forall (fun r => cur < length r) itm).
  { assert (Hi : Forall (fun r => length r = total) itm)
      by (eapply Forall_length_of_shape; [exact Hitm|exact Hw]).
    eapply Forall_impl; [|exact Hi]. intros r Hr. cbn beta in Hr. lia. }
  destruct (column_ok Hcols') as (cond & Ec & Hlc).
  destruct (column_ok Hcols) as (curcol & Ecur & Hlcur).
  assert (Hlen_itm : length itm = length (tokens_of ls)).
  { rewrite <- (length_map (@length bool)), Hitm. apply length_map. }
  destruct (@where_ok Z cond curcol (sample temperature top_p cur logits))
    as (next & Ew & Hlw); [congruence|rewrite sample_length; congruence|].
  destruct (@set_column_ok Z cur next (tokens_of ls)) as (tokens' & Es);
    [congruence|exact Hcols|].
  assert (Hw' : Forall (fun row => length row = total) tokens').
  { eapply Forall_length_of_shape; [apply (set_column_widths _ _ _ Es)|exact Hw]. }
  assert (HB' : length tokens' = length prompts).
  { destruct (set_column_spec _ _ _ Es) as (_ & Hl & _). congruence. }
  unfold decode_step.
  rewrite bind_eq with (a := (logits, mem', nt')) (s1 := s') by exact Hmod.
  rewrite Ec. cbn [orraise]. erewrite bind_eq by reflexivity.
  rewrite Ecur. cbn [orraise]. erewrite bind_eq by reflexivity.
  rewrite Ew. cbn [orraise]. erewrite bind_eq by reflexivity.
  rewrite Es. cbn [orraise]. erewrite bind_eq by reflexivity.
  destruct (Nat.eqb_spec (bsz prompts) 1) as [Hb1|Hb1].
  - destruct next as [|x next'].
    { exfalso. cbn in Hlw. unfold bsz in Hb1. rewrite <- HB in Hb1. lia. }
    cbn [nth_error orraise]. erewrite bind_eq by reflexivity.
    destruct (Z.eqb x (eos_id cfg)); eexists; eexists; (split; [reflexivity|]);
      cbn; auto.
  - erewrite bind_eq by reflexivity.
    eexists. eexists. split; [reflexivity|]. cbn. auto.
Qed.

Lemma decode_loop_ok itm total start k cur ls (s : self_state) :
  hyper_net_covers_layers ->
  0 < segment_size -> usable_spans (length itm) ->
  0 < start -> start <= cur ->
  cur + k = total ->
  tokens_of ls <> [] ->
  length (tokens_of ls) = length prompts ->
  Forall (fun row => length row = total) (tokens_of ls) ->
  map (@length bool) itm = map (@length Z) (tokens_of ls) ->
  (prev_pos_of ls = 0 /\ cur = start) \/ (prev_pos_of ls <> 0 /\ cur = S (prev_pos_of ls)) ->
  exists ls' s',
    loop itm (seq cur k) ls s = (Ok ls', s') /\
    length (tokens_of ls') = length prompts.
Proof.
  intros Hcov HS Hok Hstart. revert cur ls s.
  induction k as [|k IH]; intros cur ls s Hsc Hk Hne HB Hw Hitm Hpos.
  - exists ls, s. now split.
  - destruct (@decode_step_ok itm total start cur ls s Hcov HS Hok Hstart Hne HB Hw Hitm)
      as (r & s1 & Hr & HB' & Hw' & Hprev); [lia|exact Hpos|].
    cbn [seq decode_loop]. rewrite bind_eq with (a := r) (s1 := s1) by exact Hr.
    destruct r as [l|l]; cbn [ls_of] in HB', Hw'; [|exists l, s1; now split].
    apply (IH (S cur) l s1); auto; try lia.
    + intro E. rewrite E in HB'. rewrite <- HB' in HB. cbn in HB.
      destruct (tokens_of ls); [contradiction|discriminate].
    + rewrite Hitm. clear - Hw Hw' HB HB'.
      assert (Hl : length (tokens_of ls) = length (tokens_of l)) by congruence.
      revert Hl Hw Hw'. generalize (tokens_of ls) as a, (tokens_of l) as b.
      induction a as [|x a IHa]; intros [|y b] Hl Ha Hb; try discriminate;
        [reflexivity|].
      inversion Ha; inversion Hb; subst. cbn. f_equal; [congruence|].
      apply IHa; auto.
Qed.

Lemma generate_ok memory0 norm_term0 (s : self_state) start total :
  hyper_net_covers_layers ->
  reaches_loop start total ->
  exists out s',
    generate prompts max_gen_len temperature top_p segment_size hyper_input_type
             hyper_input_spans memory0 norm_term0 s
    = (Ok out, s') /\
    length out = length prompts.
Proof.
  intros Hcov (Hb & Hmin & (longest & Hmax & ->) & Hfit & [Hs0 Hst] & HS & Hok).
  destruct (init_grid_fits max_gen_len s Hb Hmax Hfit) as (start' & Hmin' & Hi).
  assert (start' = start) by congruence. subst start'.
  fold (padded prompts (total_len_of max_gen_len longest)) in Hi.
  set (total := total_len_of max_gen_len longest) in *.
  assert (Hne : grid total <> []).
  { unfold padded. destruct prompts; [discriminate|discriminate]. }
  assert (Hw : Forall (fun row => length row = total) (grid total)).
  { unfold padded. rewrite Forall_map. eapply Forall_impl; [|exact Hfit].
    intros t Ht. cbn beta in Ht. rewrite length_app, repeat_length. lia. }
  assert (Hitm : map (@length bool) (text_mask (grid total))
                 = map (@length Z) (grid total)).
  { unfold text_mask. rewrite map_map. apply map_ext. intro. apply length_map. }
  assert (Hok' : usable_spans (length (text_mask (grid total)))).
  { unfold text_mask, padded. now rewrite !length_map. }
  assert (Hloop : exists ls' s',
             loop (text_mask (grid total)) (seq start (total - start))
                  {| tokens_of := grid total; prev_pos_of := 0;
                     memory_of := memory0; norm_term_of := norm_term0 |} s
             = (Ok ls', s') /\
             length (tokens_of ls') = length prompts).
  { apply decode_loop_ok with (total := total) (start := start);
      cbn [tokens_of prev_pos_of]; auto; try lia.
    unfold padded. apply length_map. }
  destruct Hloop as (ls' & s' & Hl & Hlen).
  exists (finalize prompts max_gen_len (tokens_of ls')), s'.
  assert (Hrun : generate prompts max_gen_len temperature top_p segment_size
                          hyper_input_type hyper_input_spans memory0 norm_term0 s
                 = (Ok (finalize prompts max_gen_len (tokens_of ls')), s')).
  { unfold generate, generate_tokens.
    rewrite bind_assoc.
    rewrite bind_eq with (a := (grid total, start, total)) (s1 := s) by exact Hi.
    rewrite range_step_one. rewrite bind_assoc.
    rewrite bind_eq with (a := ls') (s1 := s') by exact Hl.
    reflexivity. }
  split; [exact Hrun|].
  unfold finalize. rewrite length_map, length_combine, Hlen. apply Nat.min_id.
Qed.

(** X3: A call of [generate] returns its decoded sequences, one per
    prompt, and raises nothing on the way, when the layers keep the batch
    and position dimensions of the hidden state, the parallel
    hypernetwork returns parameters for every hyper-adapted layer, and
    the call satisfies [runs]: the batch is within [max_batch_size],
    every prompt is at most [total_len] tokens long, the shortest prompt
    is not empty and shorter than [total_len] (there is a position to
    decode), [segment_size] is positive and, under the instruction
    policy, there is at most one span per sequence and every span ends
    within [segment_size]. *)
Theorem generate_returns memory0 norm_term0 (s : self_state) start total :
  hyper_net_covers_layers ->
  reaches_loop start total ->
  exists out s',
    generate prompts max_gen_len temperature top_p segment_size hyper_input_type
             hyper_input_spans memory0 norm_term0 s
    = (Ok out, s') /\
    length out = length prompts.
Proof. intros Hcov Hruns. now apply generate_ok with (start := start) (total := total). Qed.

(** *** A first hyper-adapted layer at index 0 *)

Lemma no_hyper_nil : no_hyper [].
Proof. now split. Qed.

Lemma no_hyper_app l1 l2 : no_hyper l1 -> no_hyper l2 -> no_hyper (l1 ++ l2).
Proof.
  intros [H1 H2] [H3 H4]. split.
  - now rewrite hyper_indices_app, H1, H3.
  - now rewrite applied_layers_app, H2, H4.
Qed.

(** With the guard [if self.hyper_lora_start:] false, a forward pass
    leaves its log entry and nothing else. *)
Lemma forward_inference_unguarded tokens sp pm mem nt (s : self_state) :
  hyper_enabled = false ->
  snd (forward_inference tokens sp pm mem nt s)
  = snd (log (Forward sp (Py.ncols tokens) pm) s).
Proof.
  intro Hen. unfold forward_inference. rewrite Hen.
  assert (Hsil : forall (c : M self_state (list vec * memory * norm_term)) u,
             silent c -> snd (bind (log u) (fun _ => c) s) = snd (log u s)).
  { intros c u Hc. unfold bind. cbn. apply Hc. }
  apply Hsil.
  apply silent_bind; [apply silent_run_layers|]. intro hmn.
  apply silent_bind; [apply silent_ret|].
  intros [[h mem'] nt'].
  apply silent_bind; [apply silent_orraise|]. intro. apply silent_ret.
Qed.

Lemma emits_forward_inference_unguarded tokens sp pm mem nt :
  hyper_enabled = false -> emits no_hyper (forward_inference tokens sp pm mem nt).
Proof.
  intros Hen s. rewrite (forward_inference_unguarded _ _ _ _ _ _ Hen).
  exists [Forward sp (Py.ncols tokens) pm]. split; [reflexivity|now split].
Qed.

Lemma emits_run_segments_unguarded itm segs lsp acc :
  hyper_enabled = false -> emits no_hyper (segments itm segs lsp acc).
Proof.
  intro Hen. revert lsp acc.
  induction segs as [|seg rest IH]; intros lsp [[lg mem] nt]; cbn [run_segments].
  - apply silent_emits; [apply no_hyper_nil|apply silent_ret].
  - apply (emits_bind no_hyper_app).
    + destruct (lsp =? 0).
      * apply (emits_bind no_hyper_app).
        -- apply silent_emits; [apply no_hyper_nil|apply silent_segment_prompt_mask].
        -- intro m. now apply emits_forward_inference_unguarded.
      * now apply emits_forward_inference_unguarded.
    + intros [[logits mem1] nt1]. apply IH.
Qed.

Lemma emits_run_model_unguarded itm tokens prev cur mem nt :
  hyper_enabled = false -> emits no_hyper (model itm tokens prev cur mem nt).
Proof.
  intro Hen. unfold run_model.
  destruct (need_segment segment_size prev cur).
  - apply (emits_bind no_hyper_app).
    + apply silent_emits; [apply no_hyper_nil|].
      destruct (segment_size =? 0); [apply silent_raise|apply silent_ret].
    + intros _. apply (emits_bind no_hyper_app).
      * now apply emits_run_segments_unguarded.
      * intros [[logits mem1] nt1]. apply silent_emits; [apply no_hyper_nil|].
        apply silent_bind; [apply silent_orraise|]. intro. apply silent_ret.
  - destruct (prev =? 0).
    + apply (emits_bind no_hyper_app).
      * apply silent_emits; [apply no_hyper_nil|apply silent_prefill_prompt_mask].
      * intro m. now apply emits_forward_inference_unguarded.
    + now apply emits_forward_inference_unguarded.
Qed.

Lemma emits_decode_loop_unguarded itm positions ls :
  hyper_enabled = false -> emits no_hyper (loop itm positions ls).
Proof.
  intro Hen. revert ls.
  induction positions as [|cur rest IH]; intros ls; cbn [decode_loop].
  - apply silent_emits; [apply no_hyper_nil|apply silent_ret].
  - apply (emits_bind no_hyper_app).
    + intro s. rewrite decode_step_state. now apply emits_run_model_unguarded.
    + intros [l|l]; [apply IH|].
      apply silent_emits; [apply no_hyper_nil|apply silent_ret].
Qed.

Lemma emits_generate_unguarded memory0 norm_term0 :
  hyper_enabled = false ->
  emits no_hyper (generate prompts max_gen_len temperature top_p segment_size
                           hyper_input_type hyper_input_spans memory0 norm_term0).
Proof.
  intros Hen s. rewrite generate_state. revert s.
  unfold generate_tokens.
  apply (emits_bind no_hyper_app).
  - apply silent_emits; [apply no_hyper_nil|].
    unfold init_grid.
    apply silent_bind; [apply silent_assert|]. intro.
    apply silent_bind; [apply silent_orraise|]. intro.
    apply silent_bind; [apply silent_orraise|]. intro.
    apply silent_bind; [apply silent_orraise|]. intro. apply silent_ret.
  - intros [[tokens start] total]. apply (emits_bind no_hyper_app).
    + now apply emits_decode_loop_unguarded.
    + intro ls. apply silent_emits; [apply no_hyper_nil|apply silent_ret].
Qed.

(** C3: the serial policy in an adapter whose first hyper-adapted
    layer is layer 0.  Every layer is then hyper-adapted ([layers[0:]],
    [N = n_layers]), yet [if self.hyper_lora_start:] reads the index 0 as
    false: no call of [generate], whatever its arguments and whether it
    returns or raises, calls the hypernetwork or [apply_lora_params]; and
    a call that satisfies [runs] (with shape-preserving layers) returns
    its decoded sequences after forward calls that have invoked the
    hypernetwork 0 times, where the serial policy asks for [N]. *)
Theorem serial_hypernet_skipped_from_layer_zero memory0 norm_term0
    (s : self_state) :
  hyper_lora_start cfg = Some 0 ->
  serial_generate cfg = true ->
  hyper_layers = seq 0 (n_layers cfg) /\
  (exists evs,
      calls (snd (generate prompts max_gen_len temperature top_p segment_size
                           hyper_input_type hyper_input_spans memory0 norm_term0 s))
      = calls s ++ evs /\
      hyper_indices evs = [] /\ applied_layers evs = []) /\
  (forall start total,
      reaches_loop start total ->
      exists out s' evs,
        generate prompts max_gen_len temperature top_p segment_size
                 hyper_input_type hyper_input_spans memory0 norm_term0 s
        = (Ok out, s') /\
        length out = length prompts /\
        calls s' = calls s ++ evs /\
        forward_spans evs <> [] /\
        hyper_indices evs = [] /\ applied_layers evs = []).
Proof.
  intros H0 Hser.
  assert (Hen : hyper_enabled = false) by (unfold hyper_enabled; now rewrite H0).
  destruct (emits_generate_unguarded memory0 norm_term0 Hen s) as (evs & E & Hh & Ha).
  split; [|split].
  - unfold hyper_layers. rewrite H0. now rewrite Nat.sub_0_r.
  - now exists evs.
  - intros start total Hruns.
    destruct (@generate_ok memory0 norm_term0 s start total) as (out & s' & Hg & Hlen);
      [intro Hpar; congruence|exact Hruns|].
    rewrite Hg in E. cbn [snd] in E.
    exists out, s', evs. repeat split; auto.
    destruct (generate_trace memory0 norm_term0 s Hruns) as (m & rest & _ & _ & Et & _).
    rewrite <- generate_state, Hg in Et. cbn [snd] in Et.
    rewrite forward_inference_unguarded in Et by exact Hen.
    cbn in Et. rewrite E, <- !app_assoc in Et. apply app_inv_head in Et.
    rewrite Et. cbn. discriminate.
Qed.

(** *** The mask the first call receives *)

(** The first model call of the prefill passes the mask built by the
    branch it takes. *)
Lemma run_model_prefill_mask itm tokens W L mem nt (s : self_state) :
  0 < segment_size -> 0 < L -> L <= W ->
  tokens <> [] -> Forall (fun row => length row = W) tokens ->
  map (@length bool) itm = map (@length Z) tokens ->
  usable_spans (length itm) ->
  exists m rest,
    (if need_segment segment_size 0 L
     then segment_prompt_mask segment_size hyper_input_type hyper_input_spans itm s
     else prefill_prompt_mask hyper_input_type hyper_input_spans itm 0 L s)
    = (Ok m, s) /\
    map (@length Z)
        (Py.cols 0 (if need_segment segment_size 0 L then segment_size else L) tokens)
    = map (@length float) m /\
    calls (snd (model itm tokens 0 L mem nt s))
    = calls (snd (forward_inference
                    (Py.cols 0 (if need_segment segment_size 0 L
                                then segment_size else L) tokens)
                    0 (Some m) mem nt s)) ++ rest /\
    decode_only rest.
Proof.
  intros HS HL HLW Hne Hw Hitm Hok.
  unfold run_model, need_segment. cbn [Nat.eqb andb].
  destruct (Nat.ltb_spec segment_size L) as [Hseg|Hseg].
  - destruct (@segment_prompt_mask_ok itm s Hok) as (m & Em & Hms & Hmd).
    destruct (range_head HS Hseg) as (tl & Hr).
    assert (Hn : Py.ncols (Py.cols 0 L tokens) = L).
    { rewrite (ncols_cols _ _ Hne Hw). lia. }
    assert (Hn1 : Py.ncols (Py.cols 0 segment_size tokens) = segment_size).
    { rewrite (ncols_cols _ _ Hne Hw). lia. }
    assert (Hshape : map (@length Z) (Py.cols 0 segment_size tokens)
                     = map (@length float) m).
    { now rewrite Hms, !cols_widths, Hitm. }
    destruct (Nat.eqb_spec segment_size 0) as [E|_]; [lia|].
    erewrite bind_eq by reflexivity.
    rewrite snd_bind_silent_any.
    2:{ intros [[lg mem1] nt1].
        apply silent_bind; [apply silent_orraise|]. intro. apply silent_ret. }
    rewrite Hn, Hr. unfold Py.tensor_split. cbn [Py.tensor_split_from run_segments].
    rewrite (cols_cols _ (Nat.lt_le_incl _ _ Hseg)).
    cbn [Nat.eqb]. rewrite bind_assoc.
    rewrite bind_eq with (a := m) (s1 := s) by exact Em.
    match goal with
    | |- exists _ _, _ /\ _ /\ calls (snd (bind ?c ?k ?st)) = _ /\ _ =>
        destruct (@calls_bind_tail decode_only _ _ c k st decode_only_nil)
          as (rest & E & Hd)
    end.
    { intros [[lg mem1] nt1] s1 _. apply emits_run_segments_decode.
      rewrite Hn1. lia. }
    exists m, rest. auto.
  - destruct (@prefill_prompt_mask_ok itm L s Hok) as (m & Em & Hms & Hmd).
    exists m, []. split; [exact Em|].
    split; [now rewrite Hms, !cols_widths, Hitm|].
    split; [|apply decode_only_nil].
    rewrite bind_eq with (a := m) (s1 := s) by exact Em.
    now rewrite app_nil_r.
Qed.

Lemma generate_trace_mask memory0 norm_term0 (s : self_state) start total :
  reaches_loop start total ->
  exists m rest,
    (if need_segment segment_size 0 start
     then segment_prompt_mask segment_size hyper_input_type hyper_input_spans
                              (text_mask (grid total)) s
     else prefill_prompt_mask hyper_input_type hyper_input_spans
                              (text_mask (grid total)) 0 start s)
    = (Ok m, s) /\
    map (@length Z) (Py.cols 0 (width start) (grid total))
    = map (@length float) m /\
    Py.ncols (Py.cols 0 (width start) (grid total)) = width start /\
    calls (snd (generate prompts max_gen_len temperature top_p segment_size
                         hyper_input_type hyper_input_spans memory0 norm_term0 s))
    = calls (snd (forward_inference (Py.cols 0 (width start) (grid total))
                                    0 (Some m) memory0 norm_term0 s)) ++ rest /\
    decode_only rest.
Proof.
  intros Hruns.
  assert (Hcols : Py.ncols (Py.cols 0 (width start) (grid total)) = width start).
  { destruct Hruns as (_ & Hmin & _ & Hfit & [Hs0 Hst] & HS & _).
    unfold padded, first_width, need_segment.
    destruct prompts as [|t ps]; [discriminate|].
    apply Forall_inv in Hfit. cbn [map Py.cols Py.ncols Nat.eqb andb].
    rewrite slice_length, length_app, repeat_length.
    destruct (Nat.ltb_spec segment_size start); lia. }
  destruct Hruns as (Hb & Hmin & (longest & Hmax & Htot) & Hfit & [Hs0 Hst] & HS & Hok).
  rewrite Htot in *. clear Htot.
  destruct (init_grid_fits max_gen_len s Hb Hmax Hfit) as (start' & Hmin' & Hi).
  assert (start' = start) by congruence. subst start'.
  fold (padded prompts (total_len_of max_gen_len longest)) in Hi.
  set (tl := total_len_of max_gen_len longest) in *.
  assert (Hne : grid tl <> []).
  { unfold padded. destruct prompts; [discriminate|discriminate]. }
  assert (Hw : Forall (fun row => length row = tl) (grid tl)).
  { unfold padded. rewrite Forall_map. eapply Forall_impl; [|exact Hfit].
    intros t Ht. cbn beta in Ht. rewrite length_app, repeat_length. lia. }
  assert (Hitm : map (@length bool) (text_mask (grid tl))
                 = map (@length Z) (grid tl)).
  { unfold text_mask. rewrite map_map. apply map_ext. intro. apply length_map. }
  assert (Hok' : usable_spans (length (text_mask (grid tl)))).
  { unfold text_mask, padded. now rewrite !length_map. }
  destruct (@run_model_prefill_mask (text_mask (grid tl)) (grid tl)
              tl start memory0 norm_term0 s HS Hs0 (Nat.lt_le_incl _ _ Hst)
              Hne Hw Hitm Hok') as (m & rest1 & Em & Hsh & E1 & D1).
  rewrite generate_state. unfold generate_tokens.
  rewrite bind_eq with (a := (grid tl, start, tl)) (s1 := s) by exact Hi.
  rewrite snd_bind_silent_any by (intro; apply silent_ret).
  rewrite range_step_one.
  destruct (tl - start) as [|k] eqn:Ek; [lia|].
  cbn [seq decode_loop].
  match goal with
  | |- exists _ _, _ /\ _ /\ _ /\ calls (snd (bind ?c ?k ?st)) = _ /\ _ =>
      destruct (@calls_bind_tail decode_only _ _ c k st decode_only_nil)
        as (rest2 & E2 & D2)
  end.
  { intros r s1 Hr. apply decode_step_break_iff in Hr as Hk.
    destruct r as [l|l].
    - apply emits_decode_loop; [destruct Hk as [-> _]; lia|].
      apply Forall_forall. intros c Hc. apply in_seq in Hc. lia.
    - apply silent_emits; [apply decode_only_nil|apply silent_ret]. }
  exists m, (rest1 ++ rest2). split; [exact Em|]. split; [exact Hsh|].
  split; [exact Hcols|].
  split; [|now apply decode_only_app].
  rewrite E2, decode_step_state. cbn [tokens_of prev_pos_of memory_of norm_term_of].
  rewrite E1. now rewrite app_assoc.
Qed.

(** *** The forward calls of a whole run *)

Lemma spans_from_app a l1 l2 :
  spans_from a (l1 ++ l2) = spans_from a l1 ++ spans_from (a + list_sum l1) l2.
Proof.
  revert a. induction l1 as [|n l1 IH]; intro a; cbn [app spans_from list_sum].
  - now rewrite Nat.add_0_r.
  - change (list_sum (n :: l1)) with (n + list_sum l1).
    now rewrite IH, Nat.add_assoc.
Qed.

Lemma list_sum_repeat n k : list_sum (repeat n k) = k * n.
Proof.
  induction k as [|k IH]; [reflexivity|].
  change (list_sum (repeat n (S k))) with (n + list_sum (repeat n k)).
  rewrite IH. lia.
Qed.

(** A decode iteration feeds the model the one column at [prev_pos]. *)
Lemma decode_step_span itm cur ls total (s s' : self_state) r :
  prev_pos_of ls <> 0 -> cur = S (prev_pos_of ls) -> cur <= total ->
  tokens_of ls <> [] -> Forall (fun row => length row = total) (tokens_of ls) ->
  step itm cur ls s = (Ok r, s') ->
  calls s' = calls s ++ [Forward (prev_pos_of ls) 1 None].
Proof.
  intros Hp Hc Ht Hne Hw H.
  apply decode_step_inv in H as (lg & _ & _ & _ & Hm & _).
  assert (Hs : s' = snd (model itm (tokens_of ls) (prev_pos_of ls) cur
                               (memory_of ls) (norm_term_of ls) s))
    by now rewrite Hm.
  unfold run_model, need_segment in Hs.
  destruct (Nat.eqb_spec (prev_pos_of ls) 0) as [E|_]; [contradiction|].
  cbn [andb] in Hs. rewrite (forward_inference_decode _ _ _ _ _ Hp) in Hs.
  rewrite (ncols_cols _ _ Hne Hw) in Hs. subst s'. cbn.
  do 3 f_equal. lia.
Qed.

Lemma decode_loop_spans itm total k cur ls (s s' : self_state) ls' :
  prev_pos_of ls <> 0 -> cur = S (prev_pos_of ls) -> cur + k <= total ->
  tokens_of ls <> [] -> Forall (fun row => length row = total) (tokens_of ls) ->
  loop itm (seq cur k) ls s = (Ok ls', s') ->
  exists j evs,
    j <= k /\ (bsz prompts <> 1 -> j = k) /\
    calls s' = calls s ++ evs /\
    forward_spans evs = spans_from (prev_pos_of ls) (repeat 1 j).
Proof.
  revert cur ls s. induction k as [|k IH]; intros cur ls s Hp Hc Ht Hne Hw H.
  - cbn in H. injection H as _ <-. exists 0, []. rewrite app_nil_r. auto.
  - cbn [seq decode_loop] in H.
    apply bind_ok in H as (r & s1 & Hstep & H).
    assert (Hcalls : calls s1 = calls s ++ [Forward (prev_pos_of ls) 1 None]).
    { eapply decode_step_span with (total := total); eauto. lia. }
    pose proof Hstep as Hr. apply decode_step_break_iff in Hr.
    pose proof Hstep as Hwd. apply decode_step_widths in Hwd.
    destruct r as [l|l]; cbn [ls_of] in *.
    + destruct Hr as [Hl _].
      destruct (IH (S cur) l s1) as (j & evs & Hj & Hall & E & F).
      * rewrite Hl. lia.
      * now rewrite Hl.
      * lia.
      * intro E. rewrite E in Hwd. destruct (tokens_of ls); [contradiction|discriminate].
      * eapply Forall_length_of_shape; [exact Hwd|exact Hw].
      * exact H.
      * exists (S j), (Forward (prev_pos_of ls) 1 None :: evs).
        split; [lia|]. split; [intro Hb; now rewrite (Hall Hb)|].
        split; [rewrite E, Hcalls; now rewrite <- app_assoc|].
        cbn [forward_spans flat_map app repeat spans_from].
        change (flat_map _ evs) with (forward_spans evs).
        rewrite F, Hl, Hc. do 2 f_equal. lia.
    + destruct Hr as [Hb _]. cbn in H. injection H as _ <-.
      exists 1, [Forward (prev_pos_of ls) 1 None].
      split; [lia|]. split; [intro; contradiction|]. split; [exact Hcalls|reflexivity].
Qed.

Lemma forward_calls_tile memory0 norm_term0 (s s' : self_state) start total out :
  length prompts <= max_batch_size cfg ->
  Py.min_list (map (@length Z) prompts) = Some start ->
  (exists longest, Py.max_list (map (@length Z) prompts) = Some longest /\
                   total = total_len_of max_gen_len longest) ->
  Forall (fun t => length t <= total) prompts ->
  0 < start < total ->
  0 < segment_size ->
  generate prompts max_gen_len temperature top_p segment_size hyper_input_type
           hyper_input_spans memory0 norm_term0 s
  = (Ok out, s') ->
  exists evs sizes,
    calls s' = calls s ++ evs /\
    forward_spans evs = spans_from 0 sizes /\
    Forall (fun n => 0 < n <= segment_size) sizes /\
    start <= list_sum sizes <= total - 1 /\
    (bsz prompts <> 1 -> list_sum sizes = total - 1).
Proof.
  intros Hb Hmin (longest & Hmax & Htot) Hfit [Hs0 Hst] HS H.
  rewrite Htot in *. clear Htot.
  destruct (init_grid_fits max_gen_len s Hb Hmax Hfit) as (start' & Hmin' & Hi).
  assert (start' = start) by congruence. subst start'.
  fold (padded prompts (total_len_of max_gen_len longest)) in Hi.
  set (tl := total_len_of max_gen_len longest) in *.
  assert (Hne : grid tl <> []).
  { unfold padded. destruct prompts; [discriminate|discriminate]. }
  assert (Hw : Forall (fun row => length row = tl) (grid tl)).
  { unfold padded. rewrite Forall_map. eapply Forall_impl; [|exact Hfit].
    intros t Ht. cbn beta in Ht. rewrite length_app, repeat_length. lia. }
  unfold generate in H. apply bind_ok in H as (g & s1 & H & Hfin).
  injection Hfin as _ <-.
  unfold generate_tokens in H.
  rewrite bind_eq with (a := (grid tl, start, tl)) (s1 := s) in H by exact Hi.
  apply bind_ok in H as (ls' & s2 & H & Hfin). injection Hfin as _ <-.
  rewrite range_step_one in H.
  destruct (tl - start) as [|k] eqn:Ek; [lia|].
  cbn [seq decode_loop] in H.
  apply bind_ok in H as (r & s3 & Hstep & H).
  pose proof Hstep as Hm. apply decode_step_inv in Hm as (lg & _ & _ & _ & Hm & _).
  cbn [tokens_of prev_pos_of memory_of norm_term_of] in Hm.
  assert (Hpre : exists evs1,
             calls s3 = calls s ++ evs1 /\
             forward_spans evs1
             = spans_from 0 (repeat segment_size ((start - 1) / segment_size)
                               ++ [start - (start - 1) / segment_size * segment_size])).
  { eapply run_model_prefill_spans with (W := tl); eauto. lia. }
  destruct Hpre as (evs1 & E1 & F1).
  destruct (split_sizes_spec HS Hs0) as [Hsum Hlast].
  set (q := (start - 1) / segment_size) in *.
  set (last := start - q * segment_size) in *.
  assert (Hsz1 : Forall (fun n => 0 < n <= segment_size) (repeat segment_size q ++ [last])).
  { apply Forall_app. split.
    - apply Forall_forall. intros x Hx. apply repeat_spec in Hx. lia.
    - constructor; [lia|constructor]. }
  assert (Hs1 : list_sum (repeat segment_size q ++ [last]) = start).
  { rewrite list_sum_app, list_sum_repeat.
    change (list_sum [last]) with (last + 0). lia. }
  pose proof Hstep as Hr. apply decode_step_break_iff in Hr.
  pose proof Hstep as Hwd. apply decode_step_widths in Hwd.
  destruct r as [l|l]; cbn [ls_of tokens_of] in *.
  - destruct Hr as [Hl _].
    destruct (@decode_loop_spans (text_mask (grid tl)) tl k (S start) l s3 s2 ls')
      as (j & evs2 & Hj & Hall & E2 & F2).
    + rewrite Hl. lia.
    + now rewrite Hl.
    + lia.
    + intro E. rewrite E in Hwd. destruct (grid tl); [contradiction|discriminate].
    + eapply Forall_length_of_shape; [exact Hwd|exact Hw].
    + exact H.
    + exists (evs1 ++ evs2), ((repeat segment_size q ++ [last]) ++ repeat 1 j).
      split; [rewrite E2, E1; now rewrite <- app_assoc|].
      split; [rewrite forward_spans_app, spans_from_app, F1, F2, Hs1, Hl;
              reflexivity|].
      split.
      { apply Forall_app. split; [exact Hsz1|].
        apply Forall_forall. intros x Hx. apply repeat_spec in Hx. lia. }
      rewrite list_sum_app, Hs1, list_sum_repeat.
      split; [lia|]. intro Hb1. rewrite (Hall Hb1). lia.
  - destruct Hr as [Hb1 _]. cbn in H. injection H as _ <-.
    exists evs1, (repeat segment_size q ++ [last]).
    split; [exact E1|]. split; [exact F1|]. split; [exact Hsz1|].
    rewrite Hs1. split; [lia|]. intro; contradiction.
Qed.

(** X14: The forward calls of a run tile the sequence.  In a call of
    [generate] on prompts none of which is empty, and which returns, the
    forward calls are made on consecutive chunks of columns: the first
    starts at column 0, each one starts where the one before ended, none
    is empty or wider than the segment length bound.  When [total_len]
    leaves no position to decode after the shortest prompt, the call
    makes no forward call at all.  Otherwise the chunks cover the prompt
    of the shortest sequence and at most the first [total_len - 1]
    columns, and exactly those unless the batch has one sequence (which
    may stop early). *)
Theorem forward_calls_tile_the_sequence memory0 norm_term0
    (s s' : self_state) out :
  Forall (fun t => t <> []) prompts ->
  generate prompts max_gen_len temperature top_p segment_size hyper_input_type
           hyper_input_spans memory0 norm_term0 s
  = (Ok out, s') ->
  exists start longest evs sizes,
    Py.min_list (map (@length Z) prompts) = Some start /\
    Py.max_list (map (@length Z) prompts) = Some longest /\
    calls s' = calls s ++ evs /\
    forward_spans evs = spans_from 0 sizes /\
    Forall (fun n => 0 < n <= segment_size) sizes /\
    (total_len_of max_gen_len longest <= start -> evs = [] /\ sizes = []) /\
    (start < total_len_of max_gen_len longest ->
     start <= list_sum sizes <= total_len_of max_gen_len longest - 1 /\
     (bsz prompts <> 1 ->
      list_sum sizes = total_len_of max_gen_len longest - 1)).
Proof.
  intros Hne H. pose proof H as Hgen.
  unfold generate in H. apply bind_ok in H as (g & s1 & Hg & Hfin).
  injection Hfin as _ <-.
  apply generate_tokens_inv in Hg as (tokens & start & total & ls & Hi & Hl & _).
  pose proof Hi as Hinv. apply init_grid_inv in Hinv.
  destruct Hinv as (_ & Hb & longest & Hmax & Hmin & Htot & _).
  exists start, longest. subst total.
  set (total := total_len_of max_gen_len longest) in *.
  destruct (le_lt_dec total start) as [Hle|Hlt].
  - replace (total - start) with 0 in Hl by lia. cbn in Hl. injection Hl as _ <-.
    exists [], []. rewrite app_nil_r.
    repeat split; auto; lia.
  - assert (Hpos : 0 < max_seq_len cfg) by (unfold total, total_len_of in Hlt; lia).
    pose proof Hi as Hrows. apply init_grid_rows in Hrows; [|exact Hpos].
    destruct Hrows as [Hfit _].
    assert (Hs0 : 0 < start).
    { destruct (min_list_spec _ Hmin) as [Hin _].
      apply in_map_iff in Hin as (t & Ht & Hin).
      rewrite Forall_forall in Hne. specialize (Hne t Hin).
      destruct t; [contradiction|cbn in Ht; lia]. }
    assert (HS : 0 < segment_size).
    { destruct (total - start) as [|k] eqn:Ek; [lia|].
      cbn [seq decode_loop] in Hl.
      apply bind_ok in Hl as (r & s3 & Hstep & _).
      apply decode_step_inv in Hstep as (lg & _ & _ & _ & Hm & _).
      cbn [tokens_of prev_pos_of memory_of norm_term_of] in Hm.
      unfold run_model, need_segment in Hm.
      destruct segment_size as [|n]; [|lia].
      cbn [Nat.eqb andb] in Hm.
      destruct (Nat.ltb_spec 0 start) as [_|Hc]; [|lia].
      cbn in Hm. discriminate. }
    destruct (@forward_calls_tile memory0 norm_term0 s s1 start total out)
      as (evs & sizes & E & F & Hsz & Hsum & Hall); auto.
    { exists longest. now split. }
    exists evs, sizes. repeat split; auto; lia.
Qed.

End PrefillTheory.

(** *** Pooling over an empty mask *)

Section PoolingTheory.

Lemma zero_or_nan_zero : zero_or_nan 0%float.
Proof. right. now exists false. Qed.

Lemma zero_or_nan_mul_zero (x : float) : zero_or_nan (PrimFloat.mul x 0%float).
Proof.
  unfold zero_or_nan. rewrite mul_spec.
  change (Prim2SF 0%float) with (S754_zero false).
  destruct (Prim2SF x) as [sg|sg| |sg mx ex]; cbn; eauto.
Qed.

Lemma zero_or_nan_add (x y : float) :
  zero_or_nan x -> zero_or_nan y -> zero_or_nan (PrimFloat.add x y).
Proof.
  unfold zero_or_nan. rewrite add_spec.
  intros [Hx|[sx Hx]] [Hy|[sy Hy]]; rewrite Hx, Hy; cbn; eauto.
  destruct sx, sy; eauto.
Qed.

Lemma nan_div_zero (x : float) :
  zero_or_nan x -> PrimFloat.is_nan (PrimFloat.div x 0%float) = true.
Proof.
  intro Hx. unfold PrimFloat.is_nan. rewrite FloatAxioms.eqb_spec, div_spec.
  change (Prim2SF 0%float) with (S754_zero false).
  destruct Hx as [Hx|[sx Hx]]; rewrite Hx; reflexivity.
Qed.

Lemma fsum_zeros (mb : list float) :
  Forall (fun x => x = 0%float) mb -> fsum mb = 0%float.
Proof.
  destruct 1 as [|x l Hx Hl]; [reflexivity|]. subst x. cbn [fsum].
  induction Hl as [|y l Hy _ IH]; [reflexivity|]. subst y. exact IH.
Qed.

Lemma vadd_zero_or_nan (u v : vec) :
  Forall zero_or_nan u -> Forall zero_or_nan v -> Forall zero_or_nan (vadd u v).
Proof.
  intro Hu. revert v. induction Hu as [|x u Hx _ IH]; intros v Hv; [constructor|].
  destruct Hv as [|y v Hy Hv]; [constructor|].
  cbn [vadd]. constructor; [now apply zero_or_nan_add|now apply IH].
Qed.

Lemma vsum_zero_or_nan d (l : list vec) :
  Forall (Forall zero_or_nan) l -> Forall zero_or_nan (vsum d l).
Proof.
  destruct 1 as [|v l Hv Hl]; cbn [vsum].
  - apply Forall_forall. intros x Hx. apply repeat_spec in Hx. subst x.
    apply zero_or_nan_zero.
  - revert v Hv. induction Hl as [|w l Hw _ IH]; intros v Hv; [exact Hv|].
    cbn [fold_left]. apply IH. now apply vadd_zero_or_nan.
Qed.

Lemma mask_row_zeros (hb : list vec) (mb : list float) :
  Forall (fun x => x = 0%float) mb -> Forall (Forall zero_or_nan) (mask_row hb mb).
Proof.
  intro Hm. revert hb. induction Hm as [|x mb Hx _ IH]; intros [|v hb];
    cbn [mask_row]; try constructor; [|apply IH].
  subst x. apply Forall_forall. intros y Hy. apply in_map_iff in Hy.
  destruct Hy as (z & <- & _). apply zero_or_nan_mul_zero.
Qed.

Lemma masked_mean_row d (h : hidden) (m : fmask) p b mb :
  masked_mean d h m (denom_of m) = Some p ->
  nth_error m b = Some mb ->
  exists hb,
    nth_error h b = Some hb /\
    nth_error p b
    = Some (map (fun x => PrimFloat.div x (fsum mb)) (vsum d (mask_row hb mb))).
Proof.
  unfold masked_mean, denom_of.
  destruct (same_shape h m) eqn:Hs; [|discriminate]. cbn [andb].
  destruct (length (map fsum m) =? length h); [|discriminate].
  intros [= <-]. revert m b Hs.
  induction h as [|hb h IH]; intros [|mb0 m] b Hs Hb; try discriminate.
  - destruct b; discriminate.
  - cbn in Hs. apply andb_true_iff in Hs as [_ Hs].
    destruct b as [|b]; cbn in Hb |- *.
    + injection Hb as ->. now exists hb.
    + now apply IH.
Qed.

(** C4 as the code has it: the masked mean never raises.  When the
    shapes agree it returns a pooled vector, and the row of a sequence
    whose mask is zero everywhere holds NaN in every component (the
    division is the IEEE division 0/0 or NaN/0). *)
Theorem pooling_zero_mask_gives_nan (h : hidden) (m : fmask) b mb
    (s : self_state) :
  map (@length vec) h = map (@length float) m ->
  nth_error m b = Some mb ->
  Forall (fun x => x = 0%float) mb ->
  exists p pb,
    pool h (Some m) (Some (denom_of m)) s = (Ok p, s) /\
    nth_error p b = Some pb /\
    Forall (fun x => PrimFloat.is_nan x = true) pb.
Proof.
  intros Hs Hb Hz.
  assert (Hok : exists p, masked_mean (dim cfg) h m (denom_of m) = Some p).
  { unfold masked_mean.
    replace (same_shape h m) with true.
    - unfold denom_of.
      rewrite length_map, <- (length_map (@length float) m), <- Hs, length_map,
        Nat.eqb_refl. cbn. eauto.
    - symmetry. clear - Hs. revert m Hs.
      induction h as [|hb h IH]; intros [|mb m] Hs; try discriminate;
        [reflexivity|].
      injection Hs as H1 H2. cbn. now rewrite H1, Nat.eqb_refl, IH. }
  destruct Hok as (p & Hp).
  destruct (masked_mean_row _ _ _ _ Hp Hb) as (hb & _ & Hpb).
  exists p. eexists. split; [|split; [exact Hpb|]].
  - unfold pool. now rewrite Hp.
  - rewrite (fsum_zeros Hz). apply Forall_forall. intros x Hx.
    apply in_map_iff in Hx. destruct Hx as (y & <- & Hy).
    apply nan_div_zero.
    pose proof (vsum_zero_or_nan (dim cfg) (mask_row_zeros hb Hz)) as Hall.
    rewrite Forall_forall in Hall. now apply Hall.
Qed.

End PoolingTheory.

(** *** Guards that read a value as a truth value *)

(** X1: When the first hyper-adapted layer is layer 0, [layers[:0]] is empty
    and [if self.hyper_lora_start:] is false: the forward pass runs no
    layer and calls no hypernetwork; its logits are the output head on the
    normed embedding of the last token. *)
Lemma forward_inference_without_layers tokens sp pm mem nt (s : self_state) :
  hyper_lora_start cfg = Some 0 ->
  forward_inference tokens sp pm mem nt s
  = (match last_position (map (map llama_norm) (map (map tok_embeddings) tokens)) with
     | Some last => Ok (map llama_output last, mem, nt)
     | None => Raise Py.IndexError
     end,
     snd (log (Forward sp (Py.ncols tokens) pm) s)).
Proof.
  intro H. unfold forward_inference, plain_layers, hyper_enabled. rewrite H.
  cbn [Nat.min seq run_layers].
  erewrite bind_eq by reflexivity. erewrite bind_eq by reflexivity.
  erewrite bind_eq by reflexivity. unfold bind, orraise.
  destruct (last_position _); reflexivity.
Qed.

(** *** Edge cases of [generate] *)

Lemma bind_ext {St A B} (c c' : M St A) (k k' : A -> M St B) s :
  c s = c' s -> (forall a s1, k a s1 = k' a s1) -> bind c k s = bind c' k' s.
Proof. unfold bind. intros -> H. destruct (c' s) as [[a|e] s1]; auto. Qed.

Lemma lengths_all_equal (prompts : list (list Z)) n :
  prompts <> [] -> Forall (fun t => length t = n) prompts ->
  Py.max_list (map (@length Z) prompts) = Some n /\
  Py.min_list (map (@length Z) prompts) = Some n.
Proof.
  intros Hne Hall.
  assert (Hin : forall x, In x (map (@length Z) prompts) -> x = n).
  { intros x Hx. apply in_map_iff in Hx as (t & <- & Ht).
    rewrite Forall_forall in Hall. now apply Hall. }
  destruct prompts as [|t ps]; [contradiction|]. cbn [map Py.max_list Py.min_list].
  split; f_equal; apply Hin.
  - destruct (fold_max_in (map (@length Z) ps) (length t)) as [->|H];
      [now left|now right].
  - destruct (fold_min_in (map (@length Z) ps) (length t)) as [->|H];
      [now left|now right].
Qed.

Section EdgeTheory.
Variable max_gen_len : nat.
Variables temperature top_p : float.
Variable segment_size : nat.
Variable hyper_input_type : string.
Variable hyper_input_spans : list (nat * nat).
Variable memory0 : memory.
Variable norm_term0 : norm_term.

(** X4: [generate] checks the batch before it builds anything: a batch larger
    than [max_batch_size] fails the assertion of line 244 and an empty
    batch fails [min] on line 249 with a [ValueError]; in both cases no
    model call has been made and the adapter is as it was. *)
Theorem generate_checks_the_batch_first prompts (s : self_state) :
  (max_batch_size cfg < length prompts ->
   generate prompts max_gen_len temperature top_p segment_size hyper_input_type
            hyper_input_spans memory0 norm_term0 s
   = (Raise Py.AssertionError, s)) /\
  (prompts = [] ->
   generate prompts max_gen_len temperature top_p segment_size hyper_input_type
            hyper_input_spans memory0 norm_term0 s
   = (Raise Py.ValueError, s)).
Proof.
  split; intro H.
  - unfold generate, generate_tokens, init_grid, bsz.
    apply Nat.leb_gt in H. rewrite H. reflexivity.
  - rewrite H. reflexivity.
Qed.

Lemma finalize_full prompts n :
  Forall (fun t => length t = n) prompts ->
  finalize prompts max_gen_len
           (map (fun t => t ++ repeat (pad_id cfg) (n - length t)) prompts)
  = map (fun _ => tokenizer_decode []) prompts.
Proof.
  unfold finalize. induction 1 as [|t ps Ht _ IH]; [reflexivity|].
  cbn [map combine]. rewrite IH. f_equal. f_equal.
  unfold cut, Py.slice.
  rewrite skipn_all2 by (rewrite length_app, repeat_length; lia).
  now rewrite firstn_nil.
Qed.

(** X5: When every prompt already fills the grid (prompts of one length [n]
    with [max_gen_len = 0], or with [n = max_seq_len]), the range of the
    decode loop is empty: [generate] makes no model call and returns the
    decoding of the empty list for every prompt. *)
Theorem generate_without_room_calls_no_model prompts n (s : self_state) :
  prompts <> [] ->
  length prompts <= max_batch_size cfg ->
  Forall (fun t => length t = n) prompts ->
  total_len_of max_gen_len n = n ->
  generate prompts max_gen_len temperature top_p segment_size hyper_input_type
           hyper_input_spans memory0 norm_term0 s
  = (Ok (map (fun _ => tokenizer_decode []) prompts), s).
Proof.
  intros Hne Hb Hall Htot.
  destruct (lengths_all_equal Hne Hall) as [Hmax Hmin].
  assert (Hfit : Forall (fun t => length t <= total_len_of max_gen_len n) prompts).
  { rewrite Htot. eapply Forall_impl; [|exact Hall]. intros t Ht. cbn beta in Ht. lia. }
  destruct (init_grid_fits max_gen_len s Hb Hmax Hfit) as (start & Hmin' & Hi).
  assert (start = n) by congruence. subst start. rewrite Htot in Hi.
  unfold generate, generate_tokens. rewrite bind_assoc.
  erewrite bind_eq by exact Hi. cbv beta iota.
  rewrite range_step_one, Nat.sub_diag. cbn [seq decode_loop].
  cbv [bind ret]. cbn [tokens_of]. now rewrite finalize_full.
Qed.

(** X6: A segment length bound of zero is rejected at the first iteration:
    [cur_pos > 0] selects the segmented branch and
    [range(segment_size, ..., segment_size)] raises [ValueError] on its
    zero step, before any model call. *)
Theorem zero_segment_size_is_rejected prompts start longest (s : self_state) :
  length prompts <= max_batch_size cfg ->
  Py.min_list (map (@length Z) prompts) = Some start ->
  Py.max_list (map (@length Z) prompts) = Some longest ->
  Forall (fun t => length t <= total_len_of max_gen_len longest) prompts ->
  0 < start < total_len_of max_gen_len longest ->
  generate prompts max_gen_len temperature top_p 0 hyper_input_type
           hyper_input_spans memory0 norm_term0 s
  = (Raise Py.ValueError, s).
Proof.
  intros Hb Hmin Hmax Hfit [Hs0 Hst].
  destruct (init_grid_fits max_gen_len s Hb Hmax Hfit) as (start' & Hmin' & Hi).
  assert (start' = start) by congruence. subst start'.
  unfold generate, generate_tokens. rewrite bind_assoc.
  erewrite bind_eq by exact Hi. cbv beta iota.
  rewrite range_step_one.
  destruct (total_len_of max_gen_len longest - start) as [|k] eqn:Ek; [lia|].
  destruct start as [|st]; [lia|].
  reflexivity.
Qed.

(** *** Arguments [generate] does not read *)

Lemma sample_greedy tp cur logits :
  PrimFloat.ltb 0 temperature = false ->
  sample temperature tp cur logits = map argmax logits.
Proof. unfold sample. now intros ->. Qed.

Lemma decode_loop_greedy prompts tp tp' itm positions ls (s : self_state) :
  PrimFloat.ltb 0 temperature = false ->
  decode_loop prompts temperature tp segment_size hyper_input_type
              hyper_input_spans itm positions ls s
  = decode_loop prompts temperature tp' segment_size hyper_input_type
                hyper_input_spans itm positions ls s.
Proof.
  intro H. revert ls s.
  induction positions as [|cur rest IH]; intros ls s; [reflexivity|].
  cbn [decode_loop]. apply bind_ext.
  - unfold decode_step. apply bind_ext; [reflexivity|].
    intros [[lg mem] nt] s1. cbv beta iota zeta.
    rewrite !(sample_greedy _ _ _ H). reflexivity.
  - intros [l|l] s1; [apply IH|reflexivity].
Qed.

(** X7: Greedy decoding: when [temperature > 0] is false (a zero, a negative
    or a NaN temperature) the next token is the [argmax] of the logits
    and [top_p] is never read; two calls that differ in [top_p] only
    return the same sequences and leave the adapter in the same state. *)
Theorem greedy_decoding_ignores_top_p prompts top_p' (s : self_state) :
  PrimFloat.ltb 0 temperature = false ->
  generate prompts max_gen_len temperature top_p segment_size hyper_input_type
           hyper_input_spans memory0 norm_term0 s
  = generate prompts max_gen_len temperature top_p' segment_size hyper_input_type
             hyper_input_spans memory0 norm_term0 s.
Proof.
  intro H. unfold generate, generate_tokens.
  apply bind_ext; [|reflexivity].
  apply bind_ext; [reflexivity|]. intros [[tokens start] total] s1.
  apply bind_ext; [|reflexivity]. apply decode_loop_greedy, H.
Qed.

Lemma run_segments_ignores_spans spans' itm segs lsp acc (s : self_state) :
  is_instruction hyper_input_type = false ->
  run_segments segment_size hyper_input_type hyper_input_spans itm segs lsp acc s
  = run_segments segment_size hyper_input_type spans' itm segs lsp acc s.
Proof.
  intro H. revert lsp acc s.
  induction segs as [|seg rest IH]; intros lsp [[lg mem] nt] s; [reflexivity|].
  cbn [run_segments]. apply bind_ext.
  - destruct (lsp =? 0); [|reflexivity].
    apply bind_ext; [|reflexivity].
    unfold segment_prompt_mask. now rewrite H.
  - intros [[lg1 mem1] nt1] s1. apply IH.
Qed.

Lemma run_model_ignores_spans spans' itm tokens prev cur mem nt (s : self_state) :
  is_instruction hyper_input_type = false ->
  run_model segment_size hyper_input_type hyper_input_spans itm tokens prev cur mem nt s
  = run_model segment_size hyper_input_type spans' itm tokens prev cur mem nt s.
Proof.
  intro H. unfold run_model.
  destruct (need_segment segment_size prev cur).
  - apply bind_ext; [reflexivity|]. intros _ s1.
    apply bind_ext; [|reflexivity]. apply run_segments_ignores_spans, H.
  - destruct (prev =? 0); [|reflexivity].
    apply bind_ext; [|reflexivity].
    unfold prefill_prompt_mask. now rewrite H.
Qed.

Lemma decode_loop_ignores_spans prompts spans' itm positions ls (s : self_state) :
  is_instruction hyper_input_type = false ->
  decode_loop prompts temperature top_p segment_size hyper_input_type
              hyper_input_spans itm positions ls s
  = decode_loop prompts temperature top_p segment_size hyper_input_type
                spans' itm positions ls s.
Proof.
  intro H. revert ls s.
  induction positions as [|cur rest IH]; intros ls s; [reflexivity|].
  cbn [decode_loop]. apply bind_ext.
  - unfold decode_step. apply bind_ext; [|reflexivity].
    apply run_model_ignores_spans, H.
  - intros [l|l] s1; [apply IH|reflexivity].
Qed.

(** X8: [hyper_input_spans] is read under the instruction policy only.  With
    a [hyper_input_type] that does not occur in ['instruction'] (such as
    ['document'] or ['both']) the spans the caller passes have no effect:
    two calls that differ in them only return the same sequences and make
    the same calls. *)
Theorem spans_are_read_under_the_instruction_policy_only prompts spans'
    (s : self_state) :
  is_instruction hyper_input_type = false ->
  generate prompts max_gen_len temperature top_p segment_size hyper_input_type
           hyper_input_spans memory0 norm_term0 s
  = generate prompts max_gen_len temperature top_p segment_size hyper_input_type
             spans' memory0 norm_term0 s.
Proof.
  intro H. unfold generate, generate_tokens.
  apply bind_ext; [|reflexivity].
  apply bind_ext; [reflexivity|]. intros [[tokens start] total] s1.
  apply bind_ext; [|reflexivity]. apply decode_loop_ignores_spans, H.
Qed.

End EdgeTheory.

(** *** The two forward passes side by side *)

Lemma snd_bind_ext {A B B'} (c : M self_state A) (k : A -> M self_state B)
    (k' : A -> M self_state B') (s : self_state) :
  (forall a s1, snd (k a s1) = snd (k' a s1)) ->
  snd (bind c k s) = snd (bind c k' s).
Proof. intro H. unfold bind. destruct (c s) as [[a|e] s1]; [apply H|reflexivity]. Qed.

Lemma bind_same_calls {A B B'} (c : M self_state A) (k : A -> M self_state B)
    (k' : A -> M self_state B') (s : self_state) :
  (forall a s1, calls (snd (k a s1)) = calls (snd (k' a s1)) /\
                lora (snd (k a s1)) = lora (snd (k' a s1))) ->
  calls (snd (bind c k s)) = calls (snd (bind c k' s)) /\
  lora (snd (bind c k s)) = lora (snd (bind c k' s)).
Proof.
  intro H. unfold bind. destruct (c s) as [[a|e] s1]; [apply H|split; reflexivity].
Qed.

Lemma silent_loss labels (hmn : hidden * memory * norm_term) :
  silent (let '(h, mem, nt) := hmn in
          let output := map (map (fun v => llama_output (llama_norm v))) h in
          if Z.eqb (int64_sum (concat labels)) 0 then
            ret (PrimFloat.mul (tensor_mean output) 0%float, mem, nt)
          else
            assert (Z.eqb (vocab_size cfg) 32000) ;;;
            ret (criterion (concat output) (concat labels), mem, nt)).
Proof.
  destruct hmn as [[h mem] nt]. cbv zeta.
  destruct (Z.eqb _ 0); [apply silent_ret|].
  apply silent_bind; [apply silent_assert|]. intro. apply silent_ret.
Qed.

Section PassesTheory.
Variables tokens labels : list (list Z).
Variables (mem : memory) (nt : norm_term).

(** X9: The first call needs its mask.  With hyper-adapted layers, a call at
    position 0 whose [prompt_mask] is left at [None] stops at
    [torch.sum(prompt_mask, -1)] with a [TypeError], in the inference pass
    and in the training pass alike: the layers before the hyper-adapted
    ones have run, the hypernetwork has not been called and no LoRA
    tensor has been installed. *)
Theorem first_call_without_mask_is_a_type_error (s : self_state) :
  hyper_enabled = true ->
  forward_inference tokens 0 None mem nt s
  = (Raise Py.TypeError, snd (log (Forward 0 (Py.ncols tokens) None) s)) /\
  forward tokens labels 0 None mem nt s
  = (Raise Py.TypeError, snd (log (Forward 0 (Py.ncols tokens) None) s)).
Proof.
  intro H. unfold forward_inference, forward. rewrite H.
  split.
  - erewrite bind_eq by reflexivity. erewrite bind_eq by apply run_layers_eq.
    reflexivity.
  - erewrite bind_eq by reflexivity. erewrite bind_eq by apply run_layers_eq.
    reflexivity.
Qed.

(** X10: The training pass drives the layers as the inference pass does.
    Under the serial policy, or with no hyper-adapted layer, [forward]
    and [forward_inference] leave the adapter in the same state at every
    position; at position 0 they make the same calls and install the
    same LoRA tensors under the parallel policy too (the training pass
    also stores [self.pooling_states]). *)
Theorem training_pass_drives_the_layers_as_inference sp pm (s : self_state) :
  (serial_generate cfg = true \/ hyper_enabled = false ->
   snd (forward tokens labels sp pm mem nt s)
   = snd (forward_inference tokens sp pm mem nt s)) /\
  (sp = 0 ->
   calls (snd (forward tokens labels sp pm mem nt s))
   = calls (snd (forward_inference tokens sp pm mem nt s)) /\
   lora (snd (forward tokens labels sp pm mem nt s))
   = lora (snd (forward_inference tokens sp pm mem nt s))).
Proof.
  split.
  - intro H. unfold forward, forward_inference.
    apply snd_bind_ext. intros _ s1. cbv zeta.
    apply snd_bind_ext. intros hmn s2.
    rewrite snd_bind_silent_any by apply silent_loss.
    rewrite snd_bind_silent_any by apply emits_final.
    destruct H as [H|H]; rewrite H; reflexivity.
  - intros ->. unfold forward, forward_inference.
    apply bind_same_calls. intros _ s1. cbv zeta.
    apply bind_same_calls. intros hmn s2.
    rewrite snd_bind_silent_any by apply silent_loss.
    rewrite snd_bind_silent_any by apply emits_final.
    destruct hyper_enabled; [|split; reflexivity].
    apply bind_same_calls. intros denom s3.
    destruct (serial_generate cfg); cbn [negb Nat.eqb]; [split; reflexivity|].
    repeat match goal with
           | |- context [snd (bind ?c (fun _ => run_layers ?a ?b ?d ?e) ?st)] =>
               rewrite (@snd_bind_silent_any _ _ c (fun _ => run_layers a b d e) st)
                 by (intro; apply silent_run_layers)
           end.
    apply bind_same_calls. intros p s4.
    apply bind_same_calls. intros params s5.
    unfold bind. destruct (apply_all 0 hyper_layers params s5) as [[[]|e] s6];
      split; reflexivity.
Qed.

End PassesTheory.

(** *** The default input policy *)

Lemma masked_mean_length d (h : hidden) (m : fmask) den p :
  masked_mean d h m den = Some p -> length p = length m.
Proof.
  unfold masked_mean.
  destruct (same_shape h m) eqn:Hs; [|discriminate]. cbn [andb].
  destruct (Nat.eqb_spec (length den) (length h)) as [Hd|]; [|discriminate].
  intros [= <-]. apply same_shape_iff in Hs.
  apply (f_equal (@length nat)) in Hs. rewrite !length_map in Hs.
  rewrite length_map, !length_combine. lia.
Qed.

Lemma masked_mean_zero_mask d (h : hidden) (m : fmask) p :
  masked_mean d h m (denom_of m) = Some p ->
  Forall (Forall (fun x => x = 0%float)) m ->
  Forall (Forall (fun x => PrimFloat.is_nan x = true)) p.
Proof.
  intros Hp Hz. apply Forall_forall. intros pb Hin.
  apply In_nth_error in Hin as (b & Hb).
  destruct (nth_error m b) as [mb|] eqn:Hm.
  - destruct (masked_mean_row _ _ _ _ Hp Hm) as (hb & _ & Hpb).
    assert (Hq : Some pb
                 = Some (map (fun x => PrimFloat.div x (fsum mb))
                             (vsum d (mask_row hb mb))))
      by (rewrite <- Hb; exact Hpb).
    injection Hq as ->.
    assert (Hmb : Forall (fun x => x = 0%float) mb).
    { rewrite Forall_forall in Hz. apply Hz. eapply nth_error_In, Hm. }
    rewrite (fsum_zeros Hmb). apply Forall_forall. intros x Hx.
    apply in_map_iff in Hx. destruct Hx as (y & <- & Hy).
    apply nan_div_zero.
    pose proof (vsum_zero_or_nan d (mask_row_zeros hb Hmb)) as Hall.
    rewrite Forall_forall in Hall. now apply Hall.
  - apply nth_error_None in Hm. rewrite <- (masked_mean_length _ _ _ _ Hp) in Hm.
    assert (b < length p)
      by (apply nth_error_Some; intro Hn;
          pose proof (eq_trans (eq_sym Hb) Hn); discriminate).
    lia.
Qed.

Lemma zeros_like_zero (m : fmask) :
  Forall (Forall (fun x => x = 0%float)) (zeros_like m).
Proof.
  unfold zeros_like. apply Forall_map, Forall_forall. intros r _.
  apply Forall_map, Forall_forall. reflexivity.
Qed.

Section DefaultPolicyTheory.
Variable prompts : list (list Z).
Variable max_gen_len : nat.
Variables temperature top_p : float.
Variable segment_size : nat.
Variable hyper_input_type : string.
Variables (memory0 : memory) (norm_term0 : norm_term).

Hypothesis layer_shape :
  forall i lp h sp pm mem nt,
    map (@length vec) (fst (fst (layer_forward i lp h sp pm mem nt)))
    = map (@length vec) h.

(** X13: The default policy starves the hypernetwork.  Under the instruction
    policy (which the default [hyper_input_type = ''] selects) with no
    span given (the default [hyper_input_spans = []]), the prompt mask of
    the first call is zero everywhere, and the pooled vector the
    hypernetwork receives holds NaN in every component of every
    sequence. *)
Theorem default_policy_pools_nan (s : self_state) start total :
  hyper_enabled = true ->
  (serial_generate cfg = true -> hyper_layers <> []) ->
  is_instruction hyper_input_type = true ->
  runs prompts max_gen_len segment_size hyper_input_type [] start total ->
  exists m p idx rest,
    Forall (Forall (fun x => x = 0%float)) m /\
    Forall (Forall (fun x => PrimFloat.is_nan x = true)) p /\
    length p = length prompts /\
    calls (snd (generate prompts max_gen_len temperature top_p segment_size
                         hyper_input_type [] memory0 norm_term0 s))
    = calls s ++ Forward 0 (first_width segment_size start) (Some m)
              :: HyperNet p idx :: rest.
Proof.
  intros Hen Hne Hin Hruns.
  destruct (generate_trace_mask temperature top_p memory0 norm_term0 s Hruns)
    as (m & rest & Em & Hsh & Hcols & E & D).
  assert (Hz : Forall (Forall (fun x => x = 0%float)) m).
  { unfold segment_prompt_mask, prefill_prompt_mask in Em. rewrite Hin in Em.
    cbn [mark_spans_checked mark_spans] in Em.
    destruct (need_segment segment_size 0 start);
      injection Em as <-; apply zeros_like_zero. }
  destruct (forward_inference_prefill_pooled layer_shape _ _ memory0 norm_term0 s
              Hen Hne Hsh) as (p & idx & rest1 & Hp & Ef & _).
  exists m, p, idx, (rest1 ++ rest).
  split; [exact Hz|]. split; [exact (@masked_mean_zero_mask _ _ _ _ Hp Hz)|].
  split.
  - etransitivity; [exact (masked_mean_length _ _ _ _ Hp)|].
    apply (f_equal (@length nat)) in Hsh. rewrite !length_map in Hsh.
    rewrite <- Hsh. unfold Py.cols, padded. now rewrite !length_map.
  - rewrite Hcols in Ef. rewrite E.
    transitivity ((calls s ++ Forward 0 (first_width segment_size start) (Some m)
                           :: HyperNet p idx :: rest1) ++ rest);
      [f_equal; exact Ef|now rewrite <- app_assoc].
Qed.

End DefaultPolicyTheory.

End Adapter.

(** ** The theorems at work on the small adapter *)

Local Abbreviation demo_init := (init_state Demo.lora_param).

Lemma demo_layer_shape :
  forall i lp h sp pm mem nt,
    map (@length vec) (fst (fst (Net.layer_forward Demo.net i lp h sp pm mem nt)))
    = map (@length vec) h.
Proof.
  intros. cbn. rewrite map_map. apply map_ext. intro. apply length_map.
Qed.

Lemma prefill_is_split_into_segments_witness :
  exists q last,
    q * 2 + last = 5 /\ 0 < last <= 2 /\
    forward_spans
      (calls (snd (run_model (Demo.config true) Demo.net 2 "document" []
                             (text_mask (Demo.config true) [[2; 4; 6; 8; 9; 0; 0; 0]%Z])
                             [[2; 4; 6; 8; 9; 0; 0; 0]%Z] 0 5 tt tt demo_init)))
    = spans_from 0 (repeat 2 q ++ [last]).
Proof.
  destruct (@prefill_is_split_into_segments unit unit Demo.lora_param
              (Demo.config true) Demo.net 2 "document" []
              (text_mask (Demo.config true) [[2; 4; 6; 8; 9; 0; 0; 0]%Z])
              [[2; 4; 6; 8; 9; 0; 0; 0]%Z] 8 5 tt tt demo_init
              (snd (run_model (Demo.config true) Demo.net 2 "document" []
                              (text_mask (Demo.config true) [[2; 4; 6; 8; 9; 0; 0; 0]%Z])
                              [[2; 4; 6; 8; 9; 0; 0; 0]%Z] 0 5 tt tt demo_init))
              ([[9%float; 4%float]], tt, tt))
    as (q & last & evs & E & F & Hsum & Hlast & _).
  - lia.
  - lia.
  - lia.
  - discriminate.
  - repeat constructor.
  - vm_compute. reflexivity.
  - exists q, last. split; [exact Hsum|]. split; [exact Hlast|].
    rewrite E. exact F.
Defined.

Lemma parallel_regenerates_only_in_training_witness :
  (calls (snd (forward_inference (Demo.config false) Demo.net [[7%Z]] 3 None tt tt
                                 demo_init))
   = [Forward Demo.lora_param 3 1 None]) /\
  calls (snd (forward (Demo.config false) Demo.net [[7%Z]] [[0%Z]] 3 None tt tt
                      {| lora := fun _ => None;
                         pooling_states := Some [[3%float; 0%float]];
                         calls := [] |}))
  = [Forward Demo.lora_param 3 1 None;
     HyperNet Demo.lora_param [[3%float; 0%float]] None;
     ApplyLora 1 (0, [[3%float; 0%float]]);
     ApplyLora 2 (1, [[3%float; 0%float]])].
Proof.
  split.
  - apply (proj1 (@parallel_regenerates_only_in_training unit unit Demo.lora_param
                    (Demo.config false) Demo.net [[7%Z]] [[0%Z]] 3 None tt tt demo_init
                    ltac:(discriminate))).
  - apply (proj2 (@parallel_regenerates_only_in_training unit unit Demo.lora_param
                    (Demo.config false) Demo.net [[7%Z]] [[0%Z]] 3 None tt tt
                    {| lora := fun _ => None;
                       pooling_states := Some [[3%float; 0%float]];
                       calls := [] |}
                    ltac:(discriminate)) [[3%float; 0%float]]);
      [reflexivity|reflexivity|reflexivity|cbn; lia].
Defined.

(** Against C2 as stated: at the decode steps of a parallel-policy
    generation no hypernetwork call follows a forward call; the
    hypernetwork ran once, at prefill. *)
Lemma parallel_decode_step_counterexample :
  forward_spans
    (calls (snd (generate (Demo.config false) Demo.net [[5; 9; 2]%Z] 3 0%float
                          0.75%float 4 "document" [] tt tt demo_init)))
  = [(0, 3); (3, 1); (4, 1)] /\
  hyper_indices
    (calls (snd (generate (Demo.config false) Demo.net [[5; 9; 2]%Z] 3 0%float
                          0.75%float 4 "document" [] tt tt demo_init)))
  = [None] /\
  hyper_follows_decode
    (calls (snd (generate (Demo.config false) Demo.net [[5; 9; 2]%Z] 3 0%float
                          0.75%float 4 "document" [] tt tt demo_init)))
  = false.
Proof. vm_compute. repeat split. Qed.


Lemma document_pool_covers_first_call_witness :
  exists idx rest,
    calls (snd (generate (Demo.config true) Demo.net [[2; 4; 6; 8]%Z] 3 0%float
                         0.75%float 2 "document" [] tt tt demo_init))
    = Forward Demo.lora_param 0 2 (Some [[1%float; 1%float]])
      :: HyperNet Demo.lora_param [[3%float; 0%float]] idx :: rest.
Proof.
  destruct (@document_pool_covers_first_call unit unit Demo.lora_param
              (Demo.config true) Demo.net 2 "document" [] demo_layer_shape
              [[2; 4; 6; 8]%Z] 3 0%float 0.75%float tt tt demo_init 4 7)
    as (p & idx & rest & Hp & E).
  - reflexivity.
  - discriminate.
  - reflexivity.
  - unfold runs. cbn.
    split; [lia|]. split; [reflexivity|]. split; [exists 4; split; reflexivity|].
    split; [repeat constructor|]. split; [lia|]. split; [lia|].
    unfold spans_ok. discriminate.
  - exists idx, rest. rewrite E. vm_compute in Hp. injection Hp as <-.
    reflexivity.
Defined.

(** Against C6 as stated: in segmented prefill under the document policy
    the hypernetwork input is the mean of the first segment's tokens, not
    of every prompt token:
    the prompt [2; 4; 6; 8] with a segment of 2 pools 3 where the mean over
    the whole prompt is 5. *)
Lemma document_pool_counterexample :
  nth_error
    (calls (snd (generate (Demo.config true) Demo.net [[2; 4; 6; 8]%Z] 3 0%float
                          0.75%float 2 "document" [] tt tt demo_init))) 1
  = Some (HyperNet Demo.lora_param [[3%float; 0%float]] (Some 0)) /\
  masked_mean 2
    (fst (fst (layers_out Demo.net (fun _ => None) (plain_layers (Demo.config true)) 0
                 (Some (float_mask 0 4 (text_mask (Demo.config true)
                                          (padded (Demo.config true) [[2; 4; 6; 8]%Z] 7))))
                 (map (map Demo.tok_embeddings)
                      (Py.cols 0 4 (padded (Demo.config true) [[2; 4; 6; 8]%Z] 7)),
                  tt, tt))))
    (float_mask 0 4 (text_mask (Demo.config true)
                       (padded (Demo.config true) [[2; 4; 6; 8]%Z] 7)))
    (denom_of (float_mask 0 4 (text_mask (Demo.config true)
                                 (padded (Demo.config true) [[2; 4; 6; 8]%Z] 7))))
  = Some [[5%float; 0%float]] /\
  PrimFloat.eqb 3%float 5%float = false.
Proof. vm_compute. repeat split. Qed.

Lemma pooling_zero_mask_gives_nan_witness :
  exists p pb,
    pool (Demo.config true) [[[1%float; 2%float]; [3%float; 4%float]]]
         (Some [[0%float; 0%float]]) (Some (denom_of [[0%float; 0%float]])) demo_init
    = (Ok p, demo_init) /\
    nth_error p 0 = Some pb /\
    Forall (fun x => PrimFloat.is_nan x = true) pb.
Proof.
  apply (@pooling_zero_mask_gives_nan Demo.lora_param (Demo.config true)
           [[[1%float; 2%float]; [3%float; 4%float]]] [[0%float; 0%float]] 0
           [0%float; 0%float] demo_init).
  - reflexivity.
  - reflexivity.
  - repeat constructor.
Defined.

(** Against C4 as stated: a mask row without any unmasked position raises
    nothing.  The pooled row is NaN, and a generation called with the default arguments
    ([hyper_input_type = ''] and no span, which makes an all-zero mask)
    hands that NaN to the hypernetwork and returns normally. *)
Lemma pooling_zero_mask_counterexample :
  pool (Demo.config true) [[[1%float; 2%float]; [3%float; 4%float]]]
       (Some [[0%float; 0%float]]) (Some (denom_of [[0%float; 0%float]])) demo_init
  = (Ok [[PrimFloat.nan; PrimFloat.nan]], demo_init) /\
  fst (generate (Demo.config true) Demo.net [[5; 9; 2; 3]%Z] 3 0%float 0.75%float 4
                "" [] tt tt demo_init)
  = Ok ["7"%string] /\
  firstn 2 (calls (snd (generate (Demo.config true) Demo.net [[5; 9; 2; 3]%Z] 3 0%float
                                 0.75%float 4 "" [] tt tt demo_init)))
  = [Forward Demo.lora_param 0 4 (Some [[0%float; 0%float; 0%float; 0%float]]);
     HyperNet Demo.lora_param [[PrimFloat.nan; PrimFloat.nan]] (Some 0)].
Proof. vm_compute. repeat split. Qed.

(** C5 on the code: the span bound is asserted in the segmented branch
    only.  With the spans [(0, 2); (1, 6)] and a segment length bound of 4,
    a batch whose shortest prompt has 5 tokens (segmented prefill) stops
    with an [AssertionError] before any forward call; a batch whose
    shortest prompt has 3 tokens (non-segmented prefill) passes the span
    that ends at 6 unnoticed, clamps it to the 3 columns of the mask and
    returns normally. *)
Lemma span_bound_checked_in_segmented_branch_only :
  generate (Demo.config true) Demo.net [[5; 9; 2; 3; 4]; [4; 4; 4; 4; 4; 4]]%Z 2
           0%float 0.75%float 4 "instruction" [(0, 2); (1, 6)] tt tt demo_init
  = (Raise Py.AssertionError, demo_init) /\
  fst (generate (Demo.config true) Demo.net [[5; 9; 2]; [4; 4; 4; 4; 4; 4]]%Z 2
                0%float 0.75%float 4 "instruction" [(0, 2); (1, 6)] tt tt demo_init)
  = Ok ["7 7"%string; ""%string] /\
  firstn 1 (calls (snd (generate (Demo.config true) Demo.net
                                 [[5; 9; 2]; [4; 4; 4; 4; 4; 4]]%Z 2 0%float 0.75%float
                                 4 "instruction" [(0, 2); (1, 6)] tt tt demo_init)))
  = [Forward Demo.lora_param 0 3
       (Some [[1%float; 1%float; 0%float]; [0%float; 1%float; 1%float]])].
Proof. vm_compute. repeat split. Qed.

Lemma early_stop_only_for_one_sequence_witness :
  exists g s',
    generate_tokens (Demo.config true) Demo.net [[5; 9; 2]%Z] 5 0%float 0.75%float 4
                    "document" [] tt tt demo_init
    = (Ok g, s') /\
    (exists row,
        g = [row] /\
        forall p, 3 <= p -> nth_error row p = Some 1%Z ->
        forall q, p < q -> q < length row -> nth_error row q = Some 0%Z) /\
    exists tokens start total ls,
      init_grid (Demo.config true) [[5; 9; 2]%Z] 5 demo_init
      = (Ok (tokens, start, total), demo_init) /\
      g = tokens_of ls /\
      (stepped (Demo.config true) Demo.net [[5; 9; 2]%Z] 0%float 0.75%float 4
               "document" [] (text_mask (Demo.config true) tokens)
               (seq start (total - start))
               {| tokens_of := tokens; prev_pos_of := 0;
                  memory_of := tt; norm_term_of := tt |} demo_init ls s' \/
       exists pre cur post lm sm,
         seq start (total - start) = pre ++ cur :: post /\
         stepped (Demo.config true) Demo.net [[5; 9; 2]%Z] 0%float 0.75%float 4
                 "document" [] (text_mask (Demo.config true) tokens) pre
                 {| tokens_of := tokens; prev_pos_of := 0;
                    memory_of := tt; norm_term_of := tt |} demo_init lm sm /\
         decode_step (Demo.config true) Demo.net [[5; 9; 2]%Z] 0%float 0.75%float 4
                     "document" [] (text_mask (Demo.config true) tokens) cur lm sm
         = (Ok (Break ls), s') /\
         cell g 0 cur = Some 1%Z /\
         forall q, In q post -> cell g 0 q = Some 0%Z).
Proof.
  exists [[5; 9; 2; 7; 7; 1; 0; 0]%Z].
  exists (snd (generate_tokens (Demo.config true) Demo.net [[5; 9; 2]%Z] 5 0%float
                               0.75%float 4 "document" [] tt tt demo_init)).
  assert (Hrun : generate_tokens (Demo.config true) Demo.net [[5; 9; 2]%Z] 5 0%float
                                 0.75%float 4 "document" [] tt tt demo_init
                 = (Ok [[5; 9; 2; 7; 7; 1; 0; 0]%Z],
                    snd (generate_tokens (Demo.config true) Demo.net [[5; 9; 2]%Z] 5
                                         0%float 0.75%float 4 "document" [] tt tt
                                         demo_init))).
  { vm_compute. reflexivity. }
  split; [exact Hrun|].
  destruct (@early_stop_only_for_one_sequence unit unit Demo.lora_param
              (Demo.config true) Demo.net [[5; 9; 2]%Z] 5 0%float 0.75%float
              4 "document" [] tt tt demo_init _ _ Hrun)
    as (_ & Hpad & tokens & start & total & ls & Hi & _ & _ & Hg & _ & Hone).
  split; [exact (Hpad [5; 9; 2]%Z eq_refl)|].
  exists tokens, start, total, ls.
  split; [exact Hi|]. split; [exact Hg|]. exact (Hone eq_refl).
Defined.

Lemma prompt_positions_keep_prompt_tokens_witness :
  exists g s',
    generate_tokens (Demo.config true) Demo.net [[5; 9; 2]; [4; 4; 4; 4]]%Z 2 0%float
                    0.75%float 4 "document" [] tt tt demo_init
    = (Ok g, s') /\
    cell g 1 3 = Some 4%Z.
Proof.
  exists [[5; 9; 2; 7; 7; 1]; [4; 4; 4; 4; 7; 1]]%Z.
  exists (snd (generate_tokens (Demo.config true) Demo.net [[5; 9; 2]; [4; 4; 4; 4]]%Z 2
                               0%float 0.75%float 4 "document" [] tt tt demo_init)).
  assert (Hrun : generate_tokens (Demo.config true) Demo.net [[5; 9; 2]; [4; 4; 4; 4]]%Z
                                 2 0%float 0.75%float 4 "document" [] tt tt demo_init
                 = (Ok [[5; 9; 2; 7; 7; 1]; [4; 4; 4; 4; 7; 1]]%Z,
                    snd (generate_tokens (Demo.config true) Demo.net
                                         [[5; 9; 2]; [4; 4; 4; 4]]%Z 2 0%float
                                         0.75%float 4 "document" [] tt tt demo_init))).
  { vm_compute. reflexivity. }
  split; [exact Hrun|].
  apply (proj2 (@prompt_positions_keep_prompt_tokens unit unit Demo.lora_param
                  (Demo.config true) Demo.net [[5; 9; 2]; [4; 4; 4; 4]]%Z 2 0%float
                  0.75%float 4 "document" [] tt tt demo_init _ _
                  ltac:(cbn; lia) Hrun) 1 [4; 4; 4; 4]%Z 3 4%Z);
    [reflexivity|reflexivity|discriminate].
Defined.

Lemma generate_returns_cut_slices_witness :
  exists g,
    fst (generate_tokens (Demo.config true) Demo.net [[5; 9; 2]%Z] 3 0%float 0.75%float
                         4 "document" [] tt tt demo_init)
    = Ok g /\
    map (@length Z) g = [6] /\
    exists toks tail,
      Py.slice 3 6 (nth 0 g []) = toks ++ tail /\
      ~ In 1%Z toks /\
      hd_error tail = Some 1%Z /\
      fst (generate (Demo.config true) Demo.net [[5; 9; 2]%Z] 3 0%float 0.75%float 4
                    "document" [] tt tt demo_init)
      = Ok [Demo.tokenizer_decode toks].
Proof.
  destruct (@generate_returns_cut_slices unit unit Demo.lora_param
              (Demo.config true) Demo.net [[5; 9; 2]%Z] 3 0%float 0.75%float 4
              "document" [] tt tt demo_init
              (snd (generate (Demo.config true) Demo.net [[5; 9; 2]%Z] 3 0%float
                             0.75%float 4 "document" [] tt tt demo_init))
              ["7 7"%string])
    as (g & longest & Hg & Hmax & Hw & Hlen & Hrows).
  { vm_compute. reflexivity. }
  assert (Hgv : g = [[5; 9; 2; 7; 7; 1]%Z]).
  { vm_compute in Hg. now injection Hg. }
  subst g. eexists. rewrite Hg. split; [reflexivity|]. split; [reflexivity|].
  destruct (Hrows 0 [5; 9; 2]%Z _ eq_refl eq_refl)
    as (toks & tail & Hout & Hsl & Hno & Htail & _).
  exists toks, tail. cbn [nth]. split; [exact Hsl|]. split; [exact Hno|].
  destruct Htail as [->|Htail].
  - exfalso. rewrite app_nil_r in Hsl. subst toks. apply Hno. cbn. auto.
  - split; [exact Htail|]. cbn [nth_error] in Hout. injection Hout as Hout.
    rewrite <- Hout. vm_compute. reflexivity.
Defined.



Lemma forward_inference_without_layers_witness :
  forward_inference
    {| dim := 2; n_layers := 3; vocab_size := 32000; max_seq_len := 8;
       max_batch_size := 2; serial_generate := true; hyper_lora_start := Some 0;
       pad_id := 0; eos_id := 1 |}
    Demo.net [[5; 9; 2]%Z] 0 (Some [[1%float; 1%float; 1%float]]) tt tt demo_init
  = (Ok ([[2%float; 0%float]], tt, tt),
     snd (log (Forward Demo.lora_param 0 3 (Some [[1%float; 1%float; 1%float]]))
              demo_init)).
Proof.
  apply (@forward_inference_without_layers unit unit Demo.lora_param
           {| dim := 2; n_layers := 3; vocab_size := 32000; max_seq_len := 8;
              max_batch_size := 2; serial_generate := true; hyper_lora_start := Some 0;
              pad_id := 0; eos_id := 1 |}
           Demo.net [[5; 9; 2]%Z] 0 (Some [[1%float; 1%float; 1%float]]) tt tt
           demo_init eq_refl).
Defined.

(** [hyper_input_type in ('instruction')] tests for a substring: the
    default [''] and every substring of ['instruction'] select the
    instruction policy, ['document'] and ['both'] do not. *)
Lemma instruction_policy_is_a_substring_test :
  is_instruction "" = true /\
  is_instruction "instruction" = true /\
  is_instruction "struct" = true /\
  is_instruction "document" = false /\
  is_instruction "both" = false.
Proof. repeat split. Qed.

Lemma serial_hypernet_skipped_from_layer_zero_witness :
  length (hyper_layers (with_hyper_lora_start (Some 0) (Demo.config true))) = 3 /\
  exists out s' evs,
    generate (with_hyper_lora_start (Some 0) (Demo.config true)) Demo.net
             [[2; 4; 6; 8; 9]%Z] 3 0%float 0.75%float 2 "document" [] tt tt demo_init
    = (Ok out, s') /\
    length out = 1 /\
    calls s' = calls demo_init ++ evs /\
    forward_spans evs <> [] /\
    hyper_indices evs = [] /\ applied_layers evs = [].
Proof.
  split; [reflexivity|].
  apply (proj2 (proj2 (@serial_hypernet_skipped_from_layer_zero unit unit
                         Demo.lora_param
                         (with_hyper_lora_start (Some 0) (Demo.config true)) Demo.net
                         2 "document" [] demo_layer_shape
                         [[2; 4; 6; 8; 9]%Z] 3 0%float 0.75%float tt tt demo_init
                         eq_refl eq_refl)) 5 8).
  unfold runs. cbn.
  split; [lia|]. split; [reflexivity|]. split; [exists 5; split; reflexivity|].
  split; [repeat constructor|]. split; [lia|]. split; [lia|].
  unfold spans_ok. discriminate.
Defined.

(** The call of the witness, evaluated: three forward calls, no call of
    the hypernetwork. *)
Lemma layer_zero_run_calls_no_hypernet :
  fst (generate (with_hyper_lora_start (Some 0) (Demo.config true)) Demo.net
                [[2; 4; 6; 8; 9]%Z] 3 0%float 0.75%float 2 "document" [] tt tt
                demo_init)
  = Ok ["7 7 7"%string] /\
  forward_spans
    (calls (snd (generate (with_hyper_lora_start (Some 0) (Demo.config true)) Demo.net
                          [[2; 4; 6; 8; 9]%Z] 3 0%float 0.75%float 2 "document" []
                          tt tt demo_init)))
  = forward_spans (calls demo_init) ++ [(0, 2); (2, 2); (4, 1); (5, 1); (6, 1)] /\
  hyper_indices
    (calls (snd (generate (with_hyper_lora_start (Some 0) (Demo.config true)) Demo.net
                          [[2; 4; 6; 8; 9]%Z] 3 0%float 0.75%float 2 "document" []
                          tt tt demo_init)))
  = [].
Proof. vm_compute. repeat split. Qed.

Lemma generate_returns_witness :
  exists out s',
    generate (Demo.config true) Demo.net [[2; 4; 6; 8; 9]%Z] 3 0%float 0.75%float 2
             "document" [] tt tt demo_init
    = (Ok out, s') /\
    length out = 1.
Proof.
  apply (@generate_returns unit unit Demo.lora_param (Demo.config true) Demo.net
           2 "document" [] demo_layer_shape [[2; 4; 6; 8; 9]%Z] 3 0%float
           0.75%float tt tt demo_init 5 8).
  - unfold hyper_net_covers_layers. discriminate.
  - unfold runs. cbn.
    split; [lia|]. split; [reflexivity|]. split; [exists 5; split; reflexivity|].
    split; [repeat constructor|]. split; [lia|]. split; [lia|].
    unfold spans_ok. discriminate.
Defined.

(** ** The driver: batching and prompt construction *)

(** *** Slices and ranges on signed integers *)

Lemma firstn_add_skipn {A} (a b : nat) (l : list A) :
  firstn (a + b) l = firstn a l ++ firstn b (skipn a l).
Proof.
  revert l. induction a as [|a IH]; intro l; [reflexivity|].
  destruct l as [|x l]; cbn [Nat.add firstn skipn app].
  - now rewrite firstn_nil.
  - f_equal. apply IH.
Qed.

Lemma firstn_min_length {A} (n : nat) (l : list A) :
  firstn (Nat.min n (length l)) l = firstn n l.
Proof.
  destruct (Nat.le_gt_cases n (length l)) as [H|H].
  - now rewrite Nat.min_l.
  - rewrite Nat.min_r by lia. rewrite firstn_all. symmetry. apply firstn_all2. lia.
Qed.

Lemma zslice_nat {A} (i : nat) (size : Z) (l : list A) :
  (0 <= size)%Z ->
  PyZ.slice (Z.of_nat i) (Z.of_nat i + size) l
  = firstn (Z.to_nat size) (skipn i l).
Proof.
  intro Hs. unfold PyZ.slice, PyZ.clamp.
  destruct (Z.ltb_spec (Z.of_nat i) 0) as [H|_]; [lia|].
  destruct (Z.ltb_spec (Z.of_nat i + size) 0) as [H|_]; [lia|].
  destruct (Nat.le_gt_cases i (length l)) as [Hi|Hi].
  - replace (Z.to_nat (Z.min (Z.of_nat i) (Z.of_nat (length l)))) with i by lia.
    rewrite <- (firstn_min_length (Z.to_nat size)). f_equal.
    rewrite length_skipn. lia.
  - rewrite (skipn_all2 l (n := i)) by lia.
    rewrite skipn_all2 by lia. now rewrite !firstn_nil.
Qed.

Lemma zslice_head {A} (m : Z) (l : list A) :
  PyZ.slice 0 m l
  = firstn (Z.to_nat (if (m <? 0)%Z then m + Z.of_nat (length l) else m)) l.
Proof.
  unfold PyZ.slice, PyZ.clamp. cbn [Z.ltb Z.compare].
  replace (Z.to_nat (Z.min 0 (Z.of_nat (length l)))) with 0 by lia.
  cbn [skipn]. destruct (Z.ltb_spec m 0).
  - f_equal. lia.
  - rewrite <- (firstn_min_length (Z.to_nat m)). f_equal. lia.
Qed.

Lemma range_pos (len : nat) (size : Z) :
  (0 < size)%Z ->
  PyZ.range 0 (Z.of_nat len) size
  = Some (map (fun k => (Z.of_nat k * size)%Z)
              (seq 0 (Z.to_nat ((Z.of_nat len + size - 1) / size)))).
Proof.
  intro Hs. unfold PyZ.range.
  destruct (Z.eqb_spec size 0) as [E|_]; [lia|].
  destruct (Z.ltb_spec 0 size) as [_|H]; [|lia].
  rewrite Z.sub_0_r. reflexivity.
Qed.

(** The consecutive chunks of [sz] elements of a list. *)
Lemma chunks_concat {A} (sz n : nat) (l : list A) :
  concat (map (fun k => firstn sz (skipn (k * sz) l)) (seq 0 n))
  = firstn (n * sz) l.
Proof.
  induction n as [|n IH]; [reflexivity|].
  rewrite seq_S, map_app, concat_app, IH. cbn [map concat Nat.add].
  rewrite app_nil_r. replace (S n * sz) with (n * sz + sz) by lia.
  symmetry. apply firstn_add_skipn.
Qed.

Lemma chunk_count_spec (len : nat) (size : Z) :
  (0 < size)%Z ->
  let n := Z.to_nat ((Z.of_nat len + size - 1) / size) in
  len <= n * Z.to_nat size /\ n * Z.to_nat size < len + Z.to_nat size.
Proof.
  intros Hs n.
  pose proof (Z.div_mod (Z.of_nat len + size - 1) size ltac:(lia)) as Hd.
  pose proof (Z.mod_pos_bound (Z.of_nat len + size - 1) size Hs) as Hm.
  assert (Hq : (0 <= (Z.of_nat len + size - 1) / size)%Z)
    by (apply Z.div_pos; lia).
  assert (Hn : Z.of_nat (n * Z.to_nat size)
               = (size * ((Z.of_nat len + size - 1) / size))%Z).
  { subst n. rewrite Nat2Z.inj_mul, !Z2Nat.id by lia. lia. }
  split.
  - apply Nat2Z.inj_le. rewrite Hn. lia.
  - apply Nat2Z.inj_lt. rewrite Nat2Z.inj_add, Hn, Z2Nat.id by lia. lia.
Qed.

Lemma split_list_pos {A} (lst : list A) (size : Z) :
  (0 < size)%Z ->
  Example.split_list lst size
  = Ok (map (fun k => firstn (Z.to_nat size) (skipn (k * Z.to_nat size) lst))
            (seq 0 (Z.to_nat ((Z.of_nat (length lst) + size - 1) / size)))).
Proof.
  intro Hs. unfold Example.split_list. rewrite (range_pos _ Hs).
  f_equal. rewrite map_map. apply map_ext. intro k.
  replace (Z.of_nat k * size)%Z with (Z.of_nat (k * Z.to_nat size))
    by (rewrite Nat2Z.inj_mul, Z2Nat.id; lia).
  apply zslice_nat. lia.
Qed.

Lemma chunk_lengths {A} (lst : list A) (sz n k : nat) :
  0 < sz -> k < n -> n * sz < length lst + sz ->
  0 < length (firstn sz (skipn (k * sz) lst)) <= sz /\
  (S k < n -> length (firstn sz (skipn (k * sz) lst)) = sz).
Proof.
  intros Hs Hk Hn. rewrite length_firstn, length_skipn.
  assert (S k * sz <= n * sz) by (apply Nat.mul_le_mono_r; lia).
  split; [cbn in H; lia|].
  intro Hk1. assert (S (S k) * sz <= n * sz) by (apply Nat.mul_le_mono_r; lia).
  cbn in H, H0. lia.
Qed.

(** *** [split_list] *)

Lemma split_list_spec {A} (lst : list A) (size : Z) :
  (0 < size)%Z ->
  exists batches,
    Example.split_list lst size = Ok batches /\
    concat batches = lst /\
    Forall (fun b => 0 < length b <= Z.to_nat size) batches /\
    (forall i b, nth_error batches i = Some b -> S i < length batches ->
                 length b = Z.to_nat size) /\
    length lst <= length batches * Z.to_nat size < length lst + Z.to_nat size.
Proof.
  intro Hs. eexists. split; [apply (split_list_pos _ Hs)|].
  destruct (chunk_count_spec (length lst) Hs) as [Hlo Hhi].
  set (n := Z.to_nat ((Z.of_nat (length lst) + size - 1) / size)) in *.
  set (sz := Z.to_nat size) in *.
  assert (Hsz : 0 < sz) by (subst sz; lia).
  rewrite length_map, length_seq.
  split; [|split; [|split; [|lia]]].
  - rewrite chunks_concat. now apply firstn_all2.
  - apply Forall_map, Forall_forall. intros k Hk. apply in_seq in Hk.
    apply (chunk_lengths lst Hsz (n := n)); lia.
  - intros i b Hb Hi. rewrite nth_error_map in Hb.
    destruct (nth_error (seq 0 n) i) as [k|] eqn:Ek; [|discriminate].
    injection Hb as <-.
    rewrite nth_error_seq in Ek.
    destruct (Nat.ltb_spec i n); [|lia]. injection Ek as <-.
    apply (chunk_lengths lst Hsz (n := n)); lia.
Qed.

(** X19: [split_list] loses nothing.  For a positive [size] it returns, and
    the batches, concatenated in order, are the list it was given. *)
Theorem split_list_concat {A} (lst : list A) (size : Z) :
  (0 < size)%Z ->
  exists batches,
    Example.split_list lst size = Ok batches /\ concat batches = lst.
Proof.
  intro Hs. destruct (split_list_spec lst Hs) as (bs & Hb & Hc & _).
  now exists bs.
Qed.

(** X20: The batches of [split_list] are full: none is empty, none holds more
    than [size] elements, every batch but the last holds exactly [size],
    and there are [ceil(len(lst) / size)] of them. *)
Theorem split_list_batches_are_full {A} (lst : list A) (size : Z) batches :
  (0 < size)%Z ->
  Example.split_list lst size = Ok batches ->
  Forall (fun b => 0 < length b <= Z.to_nat size) batches /\
  (forall i b, nth_error batches i = Some b -> S i < length batches ->
               length b = Z.to_nat size) /\
  length lst <= length batches * Z.to_nat size < length lst + Z.to_nat size.
Proof.
  intros Hs H. destruct (split_list_spec lst Hs) as (bs & Hb & _ & Hr).
  assert (bs = batches) by congruence. now subst bs.
Qed.

(** X21: The sizes [split_list] does not accept.  A [size] of zero raises the
    [ValueError] of [range]; a negative [size] raises nothing and returns
    no batch at all, whatever the list holds. *)
Theorem split_list_needs_a_positive_size {A} (lst : list A) (size : Z) :
  Example.split_list lst 0 = Raise Py.ValueError /\
  ((size < 0)%Z -> Example.split_list lst size = Ok []).
Proof.
  split; [reflexivity|]. intro Hs.
  unfold Example.split_list, PyZ.range.
  destruct (Z.eqb_spec size 0) as [E|_]; [lia|].
  destruct (Z.ltb_spec 0 size) as [H|_]; [lia|].
  replace (Z.to_nat ((0 - Z.of_nat (length lst) - size - 1) / - size)) with 0;
    [reflexivity|].
  assert ((0 - Z.of_nat (length lst) - size - 1) / - size < 1)%Z
    by (apply Z.div_lt_upper_bound; lia).
  lia.
Qed.

(** *** The examples of a rank *)

Lemma ceil_div_pos (len world_size : nat) :
  0 < world_size ->
  exists num : nat,
    PyZ.ceil_div (Z.of_nat len) (Z.of_nat world_size) = Some (Z.of_nat num) /\
    len <= world_size * num.
Proof.
  intro HW. unfold PyZ.ceil_div.
  destruct (Z.eqb_spec (Z.of_nat world_size) 0) as [E|_]; [lia|].
  pose proof (Z.div_mod (- Z.of_nat len) (Z.of_nat world_size) ltac:(lia)) as Hd.
  pose proof (Z.mod_pos_bound (- Z.of_nat len) (Z.of_nat world_size) ltac:(lia)) as Hm.
  assert (Hq : (- Z.of_nat len / Z.of_nat world_size <= 0)%Z)
    by (apply Z.div_le_upper_bound; lia).
  exists (Z.to_nat (- (- Z.of_nat len / Z.of_nat world_size))).
  split; [now rewrite Z2Nat.id by lia|].
  apply Nat2Z.inj_le. rewrite Nat2Z.inj_mul, Z2Nat.id by lia. lia.
Qed.

(** X22: The ranks share the examples out.  With a positive [world_size],
    the slices the ranks [0 .. world_size-1] take, concatenated in rank
    order, are the examples [ann]: every example goes to exactly one
    rank. *)
Theorem ranks_partition_the_examples {A} (ann : list A) (world_size : nat) :
  0 < world_size ->
  exists shards,
    Forall2 (fun rank shard =>
               Example.local_ann ann (Z.of_nat rank) (Z.of_nat world_size) = Ok shard)
            (seq 0 world_size) shards /\
    concat shards = ann.
Proof.
  intro HW. destruct (ceil_div_pos (length ann) HW) as (num & Hc & Hlo).
  exists (map (fun r => firstn num (skipn (r * num) ann)) (seq 0 world_size)).
  split.
  - induction (seq 0 world_size) as [|r l IH]; constructor; [|exact IH].
    unfold Example.local_ann. rewrite Hc. f_equal.
    replace (Z.of_nat r * Z.of_nat num)%Z with (Z.of_nat (r * num)) by lia.
    replace ((Z.of_nat r + 1) * Z.of_nat num)%Z
      with (Z.of_nat (r * num) + Z.of_nat num)%Z by lia.
    rewrite zslice_nat by lia. now rewrite Nat2Z.id.
  - rewrite chunks_concat. apply firstn_all2. lia.
Qed.

(** *** The prompt of an example *)

Lemma skipn_length_app {A} (l1 l2 : list A) : skipn (length l1) (l1 ++ l2) = l2.
Proof. induction l1 as [|x l1 IH]; [reflexivity|exact IH]. Qed.

Lemma firstn_length_app {A} (l1 l2 : list A) : firstn (length l1) (l1 ++ l2) = l1.
Proof. induction l1 as [|x l1 IH]; [reflexivity|]. cbn. now rewrite IH. Qed.

Lemma slice_middle {A} (l1 l2 l3 : list A) :
  Py.slice (length l1) (length l1 + length l2) (l1 ++ l2 ++ l3) = l2.
Proof.
  unfold Py.slice. rewrite skipn_length_app.
  replace (length l1 + length l2 - length l1) with (length l2) by lia.
  apply firstn_length_app.
Qed.

Section PromptTheory.
Variable encode : string -> bool -> bool -> list Z.
Variables max_seq_len min_gen_len : Z.

Local Abbreviation build_prompt := (Example.build_prompt encode max_seq_len min_gen_len).
Local Abbreviation max_input_length :=
  (Example.max_input_length encode max_seq_len min_gen_len).

(** X24: The spans locate their tokens.  In the prompt of an example, the
    instruction span covers exactly the tokens of the instruction and
    the document span covers exactly the tokens of the input that were
    kept; the instruction span ends before the document span starts,
    and both lie inside the prompt. *)
Theorem spans_locate_their_tokens (x : Example.example) :
  let '(prompt, (a, b), (c, d)) := build_prompt x in
  Py.slice a b prompt = encode (Example.instruction x) false false /\
  Py.slice c d prompt
  = PyZ.slice 0 (max_input_length x) (encode (Example.input x) false false) /\
  a <= b <= c /\ c <= d <= length prompt.
Proof.
  unfold Example.build_prompt. cbv zeta.
  set (p0 := encode (fst (fst Example.prompt_input)) true false).
  set (ins := encode (Example.instruction x) false false).
  set (p1 := encode (snd (fst Example.prompt_input)) false false).
  set (p2 := encode (snd Example.prompt_input) false false).
  set (inp := PyZ.slice 0 _ (encode (Example.input x) false false)).
  split; [|split; [|split]].
  - rewrite <- !app_assoc. apply slice_middle.
  - apply slice_middle.
  - rewrite !length_app. lia.
  - rewrite !length_app. lia.
Qed.

(** X25: The truncation keeps the prompt within its budget.  When the fixed
    parts of the prompt fit ([max_input_length >= 0]), the prompt holds
    at most [max_seq_len - min_gen_len] tokens, and an input that fits
    the room left is kept whole. *)
Theorem truncation_keeps_the_prompt_within_budget (x : Example.example) :
  (0 <= max_input_length x)%Z ->
  (Z.of_nat (length (fst (fst (build_prompt x)))) <= max_seq_len - min_gen_len)%Z /\
  ((Z.of_nat (length (encode (Example.input x) false false)) <= max_input_length x)%Z ->
   fst (fst (build_prompt x))
   = (encode (fst (fst Example.prompt_input)) true false
      ++ encode (Example.instruction x) false false
      ++ encode (snd (fst Example.prompt_input)) false false)
     ++ encode (Example.input x) false false
     ++ encode (snd Example.prompt_input) false false).
Proof.
  intro Hm. unfold Example.build_prompt. cbv zeta. cbn [fst].
  fold (max_input_length x). rewrite zslice_head.
  destruct (Z.ltb_spec (max_input_length x) 0) as [H|_]; [lia|].
  split.
  - unfold Example.max_input_length in *.
    rewrite !length_app, length_firstn in *. lia.
  - intro Hfit. rewrite firstn_all2 by lia. reflexivity.
Qed.

(** X26: A budget the fixed parts exceed.  When [max_input_length] is
    negative, [input_token[:max_input_length]] does not drop the input:
    it cuts [-max_input_length] tokens off its end and keeps the rest,
    and the prompt is longer than [max_seq_len - min_gen_len]. *)
Theorem negative_room_cuts_the_input_from_its_end (x : Example.example) :
  (max_input_length x < 0)%Z ->
  let '(prompt, _, (c, d)) := build_prompt x in
  Py.slice c d prompt
  = firstn (length (encode (Example.input x) false false)
            - Z.to_nat (- max_input_length x))
           (encode (Example.input x) false false) /\
  (max_seq_len - min_gen_len < Z.of_nat (length prompt))%Z.
Proof.
  intro Hm. unfold Example.build_prompt. cbv zeta.
  fold (max_input_length x). rewrite zslice_head.
  destruct (Z.ltb_spec (max_input_length x) 0) as [_|H]; [|lia].
  split.
  - rewrite slice_middle. f_equal. lia.
  - unfold Example.max_input_length in *.
    rewrite !length_app in *. lia.
Qed.

End PromptTheory.

(** *** The batches of a rank *)

Section BatchTheory.
Variable words : string -> nat.

Local Abbreviation key := (fun x : Example.example => words (Example.input x)).
Local Abbreviation by_words :=
  (fun x y : Example.example => words (Example.input x) <= words (Example.input y)).

Lemma insert_by_perm (x : Example.example) l :
  Permutation (PyZ.insert_by key x l) (x :: l).
Proof.
  induction l as [|y l IH]; cbn [PyZ.insert_by]; [reflexivity|].
  destruct (key x <=? key y); [reflexivity|].
  rewrite IH. apply perm_swap.
Qed.

Lemma sorted_by_perm (l : list Example.example) :
  Permutation (PyZ.sorted_by key l) l.
Proof.
  induction l as [|x l IH]; [reflexivity|].
  cbn [PyZ.sorted_by fold_right]. fold (PyZ.sorted_by key l).
  rewrite insert_by_perm. now constructor.
Qed.

Lemma insert_by_sorted (x : Example.example) l :
  StronglySorted by_words l -> StronglySorted by_words (PyZ.insert_by key x l).
Proof.
  induction 1 as [|y l Hs IH Hy]; cbn [PyZ.insert_by].
  - repeat constructor.
  - destruct (Nat.leb_spec (key x) (key y)) as [Hxy|Hxy].
    + constructor; [now constructor|]. constructor; [exact Hxy|].
      eapply Forall_impl; [|exact Hy]. cbn beta. intros z Hz. lia.
    + constructor; [exact IH|].
      eapply Permutation_Forall; [symmetry; apply insert_by_perm|].
      constructor; [lia|exact Hy].
Qed.

Lemma sorted_by_sorted (l : list Example.example) :
  StronglySorted by_words (PyZ.sorted_by key l).
Proof.
  induction l as [|x l IH]; [constructor|].
  cbn [PyZ.sorted_by fold_right]. now apply insert_by_sorted.
Qed.

(** X23: The batches of a rank are length-bucketed.  When [max_batch_size]
    is positive and the batches are built, they hold the examples of the
    rank, each exactly once; read in order, the examples come by
    ascending word count of their input (so every example of a batch is
    at most as long as every example of a later batch); no batch is
    empty and none has more than [max_batch_size] examples. *)
Theorem batches_are_length_bucketed (ann : list Example.example)
    (local_rank world_size max_batch_size : Z) batches :
  (0 < max_batch_size)%Z ->
  Example.batches words ann local_rank world_size max_batch_size = Ok batches ->
  exists shard,
    Example.local_ann ann local_rank world_size = Ok shard /\
    Permutation (concat batches) shard /\
    StronglySorted by_words (concat batches) /\
    Forall (fun b => 0 < length b <= Z.to_nat max_batch_size) batches.
Proof.
  intros Hs H. unfold Example.batches in H.
  destruct (Example.local_ann ann local_rank world_size) as [shard|e];
    [|discriminate].
  exists shard. split; [reflexivity|].
  destruct (split_list_spec (PyZ.sorted_by key shard) Hs)
    as (bs & Hb & Hc & Hf & _).
  assert (bs = batches) by congruence. subst bs.
  rewrite Hc. split; [apply sorted_by_perm|]. split; [apply sorted_by_sorted|].
  exact Hf.
Qed.

End BatchTheory.

(** *** From the driver to [generate] *)

Section DriverTheory.
Variable lora_param : Type.
Variable cfg : Config.
Variable encode : string -> bool -> bool -> list Z.
Variable words : string -> nat.
Variables budget min_gen_len : Z.
Variable hyper_input_type : string.



End DriverTheory.

(** ** The parameters [get_trainable_params] selects *)

Lemma contains_eq (s t : string) :
  Py.contains s t
  = if String.prefix s t then true
    else match t with
         | EmptyString => false
         | String _ t' => Py.contains s t'
         end.
Proof. destruct t; reflexivity. Qed.

Lemma prefix_app (s t : string) : String.prefix s (s ++ t) = true.
Proof.
  induction s as [|a s IH]; [destruct t; reflexivity|]. cbn.
  destruct (ascii_dec a a); [exact IH|contradiction].
Qed.

(** [s in t] holds whenever [s] occurs somewhere in [t]. *)
Lemma contains_app (s pre post : string) :
  Py.contains s (pre ++ s ++ post) = true.
Proof.
  induction pre as [|a pre IH]; cbn [append]; rewrite contains_eq.
  - now rewrite prefix_app.
  - destruct (String.prefix _ _); [reflexivity|exact IH].
Qed.

Section TrainableTheory.
Import Trainable.
Variable w_bias : bool.

Lemma select_cases (para : parameter) :
  select w_bias (freeze para)
  = if Py.contains "lora" (name para) || Py.contains "gate" (name para)
       || (String.prefix "llama." (name para) && w_bias
           && (Py.contains "norm" (name para) || Py.contains "bias" (name para)))
    then unfreeze para else freeze para.
Proof.
  unfold select, unfreeze, freeze. cbv zeta. cbn [name].
  destruct (String.prefix "llama." (name para)), w_bias,
    (Py.contains "norm" (name para)), (Py.contains "bias" (name para));
    cbn [orb andb name data];
    destruct (Py.contains "lora" (name para)), (Py.contains "gate" (name para));
    reflexivity.
Qed.

(** X15: Exactly the trained parameters are cast.  After
    [get_trainable_params] every parameter keeps its name and its place;
    a parameter that requires gradients holds float32 data, and a frozen
    parameter holds the data it had, in the dtype it had. *)
Theorem trained_parameters_are_float32 (params : list parameter) :
  Forall2 (fun para para' =>
             name para' = name para /\
             (requires_grad para' = true -> data para' = Float32) /\
             (requires_grad para' = false -> data para' = data para))
          params (get_trainable_params w_bias params).
Proof.
  unfold get_trainable_params. rewrite map_map.
  induction params as [|para l IH]; constructor; [|exact IH].
  rewrite select_cases. destruct (_ || _); cbn;
    (split; [reflexivity|split; [reflexivity || discriminate|
                                 reflexivity || discriminate]]).
Qed.

(** X16: LoRA and gate parameters always train.  A parameter whose name has
    ['lora'] or ['gate'] anywhere in it (the hypernetwork
    [lora_hyper_net.*] included) requires gradients and holds float32
    data after the call, whatever [w_bias] is and wherever the parameter
    lives. *)
Theorem lora_and_gate_parameters_always_train (params : list parameter)
    para pre post :
  In para params ->
  name para = (pre ++ "lora" ++ post)%string \/
  name para = (pre ++ "gate" ++ post)%string ->
  In {| name := name para; requires_grad := true; data := Float32 |}
     (get_trainable_params w_bias params).
Proof.
  intros Hin Hn. unfold get_trainable_params. rewrite map_map.
  apply in_map_iff. exists para. split; [|exact Hin].
  rewrite select_cases.
  replace (Py.contains "lora" (name para) || Py.contains "gate" (name para)) with true;
    [reflexivity|].
  destruct Hn as [-> | ->]; rewrite contains_app; [reflexivity|].
  now rewrite orb_true_r.
Qed.

(** X17: What the call never trains.  A parameter with neither ['lora'] nor
    ['gate'] in its name ends frozen, with its data untouched, when
    [w_bias] is off or when its name does not start with ['llama.']:
    norms and biases train only inside the base model and only with
    [w_bias]. *)
Theorem base_parameters_need_w_bias (params : list parameter) :
  Forall2 (fun para para' =>
             Py.contains "lora" (name para) = false ->
             Py.contains "gate" (name para) = false ->
             w_bias = false \/ String.prefix "llama." (name para) = false ->
             para' = freeze para)
          params (get_trainable_params w_bias params).
Proof.
  unfold get_trainable_params. rewrite map_map.
  induction params as [|para l IH]; constructor; [|exact IH].
  intros Hl Hg Hw. rewrite select_cases, Hl, Hg.
  destruct Hw as [-> | ->]; [now rewrite andb_false_r|reflexivity].
Qed.

(** X18: Selecting twice selects the same: [get_trainable_params] forgets
    the flags it finds and decides by the names alone, so a second call
    changes nothing. *)
Theorem get_trainable_params_is_idempotent (params : list parameter) :
  get_trainable_params w_bias (get_trainable_params w_bias params)
  = get_trainable_params w_bias params.
Proof.
  unfold get_trainable_params. rewrite !map_map. apply map_ext. intro para.
  rewrite (select_cases para). destruct (_ || _) eqn:E.
  - change (freeze (unfreeze para)) with (freeze {| name := name para;
      requires_grad := true; data := Float32 |}).
    rewrite select_cases. cbn [name]. rewrite E. reflexivity.
  - change (freeze (freeze para)) with (freeze para).
    rewrite select_cases, E. reflexivity.
Qed.

End TrainableTheory.

(** ** The further theorems at work *)

Lemma generate_checks_the_batch_first_witness :
  generate (Demo.config true) Demo.net [[5]; [6]; [7]]%Z 3 0%float 0.75%float 2
           "document" [] tt tt demo_init
  = (Raise Py.AssertionError, demo_init) /\
  generate (Demo.config true) Demo.net [] 3 0%float 0.75%float 2
           "document" [] tt tt demo_init
  = (Raise Py.ValueError, demo_init).
Proof.
  split.
  - apply (proj1 (@generate_checks_the_batch_first unit unit Demo.lora_param
                    (Demo.config true) Demo.net 3 0%float 0.75%float 2 "document" []
                    tt tt [[5]; [6]; [7]]%Z demo_init)).
    cbn. lia.
  - apply (proj2 (@generate_checks_the_batch_first unit unit Demo.lora_param
                    (Demo.config true) Demo.net 3 0%float 0.75%float 2 "document" []
                    tt tt [] demo_init)).
    reflexivity.
Defined.

Lemma generate_without_room_calls_no_model_witness :
  generate (Demo.config true) Demo.net [[5; 9; 2]; [4; 4; 4]]%Z 0 0%float 0.75%float 2
           "document" [] tt tt demo_init
  = (Ok (map (fun _ => Net.tokenizer_decode Demo.net []) [[5; 9; 2]; [4; 4; 4]]%Z),
     demo_init).
Proof.
  apply (@generate_without_room_calls_no_model unit unit Demo.lora_param
           (Demo.config true) Demo.net 0 0%float 0.75%float 2 "document" []
           tt tt [[5; 9; 2]; [4; 4; 4]]%Z 3 demo_init).
  - discriminate.
  - cbn. lia.
  - repeat constructor.
  - reflexivity.
Defined.

Lemma zero_segment_size_is_rejected_witness :
  generate (Demo.config true) Demo.net [[5; 9; 2]]%Z 3 0%float 0.75%float 0
           "document" [] tt tt demo_init
  = (Raise Py.ValueError, demo_init).
Proof.
  apply (@zero_segment_size_is_rejected unit unit Demo.lora_param
           (Demo.config true) Demo.net 3 0%float 0.75%float "document" []
           tt tt [[5; 9; 2]]%Z 3 3 demo_init).
  - cbn. lia.
  - reflexivity.
  - reflexivity.
  - constructor; [cbn; lia|constructor].
  - cbn. lia.
Defined.

Lemma greedy_decoding_ignores_top_p_witness :
  generate (Demo.config true) Demo.net [[2; 4; 6; 8; 9]]%Z 3 0%float 0.75%float 2
           "document" [] tt tt demo_init
  = generate (Demo.config true) Demo.net [[2; 4; 6; 8; 9]]%Z 3 0%float 0.25%float 2
             "document" [] tt tt demo_init.
Proof.
  apply (@greedy_decoding_ignores_top_p unit unit Demo.lora_param
           (Demo.config true) Demo.net 3 0%float 0.75%float 2 "document" []
           tt tt [[2; 4; 6; 8; 9]]%Z 0.25%float demo_init).
  reflexivity.
Defined.

Lemma spans_are_read_under_the_instruction_policy_only_witness :
  generate (Demo.config true) Demo.net [[2; 4; 6; 8; 9]]%Z 3 0%float 0.75%float 2
           "document" [(1, 3)] tt tt demo_init
  = generate (Demo.config true) Demo.net [[2; 4; 6; 8; 9]]%Z 3 0%float 0.75%float 2
             "document" [(0, 9)] tt tt demo_init.
Proof.
  apply (@spans_are_read_under_the_instruction_policy_only unit unit
           Demo.lora_param (Demo.config true) Demo.net 3 0%float 0.75%float 2
           "document" [(1, 3)] tt tt [[2; 4; 6; 8; 9]]%Z [(0, 9)] demo_init).
  reflexivity.
Defined.

Lemma first_call_without_mask_is_a_type_error_witness :
  forward_inference (Demo.config false) Demo.net [[5; 9; 2]]%Z 0 None tt tt demo_init
  = (Raise Py.TypeError, snd (log (Forward Demo.lora_param 0 3 None) demo_init)) /\
  forward (Demo.config false) Demo.net [[5; 9; 2]]%Z [[0; 9; 2]]%Z 0 None tt tt
          demo_init
  = (Raise Py.TypeError, snd (log (Forward Demo.lora_param 0 3 None) demo_init)).
Proof.
  apply (@first_call_without_mask_is_a_type_error unit unit Demo.lora_param
           (Demo.config false) Demo.net [[5; 9; 2]]%Z [[0; 9; 2]]%Z tt tt demo_init).
  reflexivity.
Defined.

Lemma training_pass_drives_the_layers_as_inference_witness :
  snd (forward (Demo.config true) Demo.net [[5; 9; 2]]%Z [[0; 9; 2]]%Z 0
               (Some [[1; 1; 1]]%float) tt tt demo_init)
  = snd (forward_inference (Demo.config true) Demo.net [[5; 9; 2]]%Z 0
                           (Some [[1; 1; 1]]%float) tt tt demo_init) /\
  calls (snd (forward (Demo.config false) Demo.net [[5; 9; 2]]%Z [[0; 9; 2]]%Z 0
                      (Some [[1; 1; 1]]%float) tt tt demo_init))
  = calls (snd (forward_inference (Demo.config false) Demo.net [[5; 9; 2]]%Z 0
                                  (Some [[1; 1; 1]]%float) tt tt demo_init)).
Proof.
  split.
  - apply (proj1 (@training_pass_drives_the_layers_as_inference unit unit
                    Demo.lora_param (Demo.config true) Demo.net [[5; 9; 2]]%Z
                    [[0; 9; 2]]%Z tt tt 0 (Some [[1; 1; 1]]%float) demo_init)).
    left. reflexivity.
  - apply (proj2 (@training_pass_drives_the_layers_as_inference unit unit
                    Demo.lora_param (Demo.config false) Demo.net [[5; 9; 2]]%Z
                    [[0; 9; 2]]%Z tt tt 0 (Some [[1; 1; 1]]%float) demo_init)).
    reflexivity.
Defined.

Lemma default_policy_pools_nan_witness :
  exists m p idx rest,
    Forall (Forall (fun x => x = 0%float)) m /\
    Forall (Forall (fun x => PrimFloat.is_nan x = true)) p /\
    length p = 1 /\
    calls (snd (generate (Demo.config false) Demo.net [[2; 4; 6; 8; 9]]%Z 3 0%float
                         0.75%float 2 EmptyString [] tt tt demo_init))
    = calls demo_init ++ Forward Demo.lora_param 0 (first_width 2 5) (Some m)
                      :: HyperNet Demo.lora_param p idx :: rest.
Proof.
  apply (@default_policy_pools_nan unit unit Demo.lora_param (Demo.config false)
           Demo.net [[2; 4; 6; 8; 9]]%Z 3 0%float 0.75%float 2 EmptyString tt tt
           demo_layer_shape demo_init 5 8).
  - reflexivity.
  - discriminate.
  - reflexivity.
  - unfold runs. cbn.
    split; [lia|]. split; [reflexivity|]. split; [exists 5; split; reflexivity|].
    split; [repeat constructor|]. split; [lia|]. split; [lia|].
    unfold spans_ok. intros _. split; [cbn; lia|constructor].
Defined.

Lemma forward_calls_tile_the_sequence_witness :
  exists start longest evs sizes,
    Py.min_list (map (@length Z) [[2; 4; 6]; [3; 5; 7; 9; 6]]%Z) = Some start /\
    Py.max_list (map (@length Z) [[2; 4; 6]; [3; 5; 7; 9; 6]]%Z) = Some longest /\
    calls (snd (generate (Demo.config true) Demo.net [[2; 4; 6]; [3; 5; 7; 9; 6]]%Z 3
                         0%float 0.75%float 2 "document" [] tt tt demo_init))
    = calls demo_init ++ evs /\
    forward_spans evs = spans_from 0 sizes /\
    Forall (fun n => 0 < n <= 2) sizes /\
    (total_len_of (Demo.config true) 3 longest <= start -> evs = [] /\ sizes = []) /\
    (start < total_len_of (Demo.config true) 3 longest ->
     start <= list_sum sizes <= total_len_of (Demo.config true) 3 longest - 1 /\
     (bsz [[2; 4; 6]; [3; 5; 7; 9; 6]]%Z <> 1 ->
      list_sum sizes = total_len_of (Demo.config true) 3 longest - 1)).
Proof.
  apply (@forward_calls_tile_the_sequence unit unit Demo.lora_param
           (Demo.config true) Demo.net 2 "document" []
           [[2; 4; 6]; [3; 5; 7; 9; 6]]%Z 3 0%float 0.75%float tt tt demo_init
           (snd (generate (Demo.config true) Demo.net [[2; 4; 6]; [3; 5; 7; 9; 6]]%Z 3
                          0%float 0.75%float 2 "document" [] tt tt demo_init))
           (match fst (generate (Demo.config true) Demo.net
                                [[2; 4; 6]; [3; 5; 7; 9; 6]]%Z 3
                                0%float 0.75%float 2 "document" [] tt tt demo_init)
            with
            | Ok out => out
            | Raise _ => []
            end)).
  - repeat constructor; discriminate.
  - vm_compute. reflexivity.
Defined.

Lemma split_list_concat_witness :
  exists batches,
    Example.split_list [1; 2; 3; 4; 5]%Z 2 = Ok batches /\
    concat batches = [1; 2; 3; 4; 5]%Z.
Proof. apply (@split_list_concat Z [1; 2; 3; 4; 5]%Z 2). lia. Defined.

Lemma split_list_batches_are_full_witness :
  Forall (fun b => 0 < length b <= Z.to_nat 2) [[1; 2]; [3; 4]; [5]]%Z /\
  (forall i b, nth_error [[1; 2]; [3; 4]; [5]]%Z i = Some b ->
               S i < length [[1; 2]; [3; 4]; [5]]%Z -> length b = Z.to_nat 2) /\
  length [1; 2; 3; 4; 5]%Z <= length [[1; 2]; [3; 4]; [5]]%Z * Z.to_nat 2
  < length [1; 2; 3; 4; 5]%Z + Z.to_nat 2.
Proof.
  apply (@split_list_batches_are_full Z [1; 2; 3; 4; 5]%Z 2 [[1; 2]; [3; 4]; [5]]%Z).
  - lia.
  - reflexivity.
Defined.

Lemma split_list_needs_a_positive_size_witness :
  Example.split_list [1; 2; 3; 4; 5]%Z 0 = Raise Py.ValueError /\
  Example.split_list [1; 2; 3; 4; 5]%Z (-2) = Ok [].
Proof.
  split.
  - apply (proj1 (@split_list_needs_a_positive_size Z [1; 2; 3; 4; 5]%Z 0)).
  - apply (proj2 (@split_list_needs_a_positive_size Z [1; 2; 3; 4; 5]%Z (-2))). lia.
Defined.

Lemma ranks_partition_the_examples_witness :
  exists shards,
    Forall2 (fun rank shard =>
               Example.local_ann [1; 2; 3; 4; 5]%Z (Z.of_nat rank) (Z.of_nat 2)
               = Ok shard)
            (seq 0 2) shards /\
    concat shards = [1; 2; 3; 4; 5]%Z.
Proof. apply (@ranks_partition_the_examples Z [1; 2; 3; 4; 5]%Z 2). lia. Defined.

Lemma truncation_keeps_the_prompt_within_budget_witness :
  (Z.of_nat (length (fst (fst (Example.build_prompt DemoDriver.encode 270 30
                                                    DemoDriver.long))))
   <= 270 - 30)%Z.
Proof.
  apply (proj1 (@truncation_keeps_the_prompt_within_budget DemoDriver.encode 270 30
                  DemoDriver.long ltac:(vm_compute; discriminate))).
Defined.

Lemma negative_room_cuts_the_input_from_its_end_witness :
  let '(prompt, _, (c, d)) := Example.build_prompt DemoDriver.encode 240 30
                                                   DemoDriver.long in
  Py.slice c d prompt
  = firstn (length (DemoDriver.encode (Example.input DemoDriver.long) false false)
            - Z.to_nat (- Example.max_input_length DemoDriver.encode 240 30
                            DemoDriver.long))
           (DemoDriver.encode (Example.input DemoDriver.long) false false) /\
  (240 - 30 < Z.of_nat (length prompt))%Z.
Proof.
  apply (@negative_room_cuts_the_input_from_its_end DemoDriver.encode 240 30
           DemoDriver.long).
  vm_compute. reflexivity.
Defined.

Lemma batches_are_length_bucketed_witness :
  exists shard,
    Example.local_ann DemoDriver.ann 0 1 = Ok shard /\
    Permutation (concat [[DemoDriver.short; DemoDriver.middle]; [DemoDriver.long]])
                shard /\
    StronglySorted
      (fun x y => DemoDriver.words (Example.input x)
                  <= DemoDriver.words (Example.input y))
      (concat [[DemoDriver.short; DemoDriver.middle]; [DemoDriver.long]]) /\
    Forall (fun b => 0 < length b <= Z.to_nat 2)
           [[DemoDriver.short; DemoDriver.middle]; [DemoDriver.long]].
Proof.
  apply (@batches_are_length_bucketed DemoDriver.words DemoDriver.ann 0 1 2
           [[DemoDriver.short; DemoDriver.middle]; [DemoDriver.long]]).
  - lia.
  - reflexivity.
Defined.


Lemma lora_and_gate_parameters_always_train_witness :
  In {| Trainable.name := "lora_hyper_net.encoder.weight";
        Trainable.requires_grad := true; Trainable.data := Trainable.Float32 |}
     (Trainable.get_trainable_params false DemoDriver.params).
Proof.
  apply (@lora_and_gate_parameters_always_train false DemoDriver.params
           {| Trainable.name := "lora_hyper_net.encoder.weight";
              Trainable.requires_grad := false;
              Trainable.data := Trainable.BFloat16 |}
           EmptyString "_hyper_net.encoder.weight").
  - right. right. left. reflexivity.
  - left. reflexivity.
Defined.

(** *** The policy names of the driver and of [generate] *)

Section PolicyTheory.
Variable encode : string -> bool -> bool -> list Z.
Variables budget min_gen_len : Z.

Lemma flat_map_nil {A B} (l : list A) : flat_map (fun _ : A => @nil B) l = [].
Proof. induction l as [|x l IH]; [reflexivity|exact IH]. Qed.

(** X27: The driver compares the policy name with [==], [generate] tests it
    with [in].  Under the name ['instruction'] the driver passes one
    span per prompt, the instruction span of that prompt.  Under any
    other name that [generate] takes for the instruction policy (the
    empty name and every other substring of ['instruction']) the driver
    passes no span at all. *)
Theorem driver_spans_follow_the_policy_name (hyper_input_type : string)
    (batch : list Example.example) :
  (hyper_input_type = "instruction"%string ->
   snd (Example.batch_inputs encode budget min_gen_len hyper_input_type batch)
   = map (fun x => Example.Span
                     (snd (fst (Example.build_prompt encode budget min_gen_len x))))
         batch) /\
  (is_instruction hyper_input_type = true ->
   hyper_input_type <> "instruction"%string ->
   snd (Example.batch_inputs encode budget min_gen_len hyper_input_type batch) = []).
Proof.
  unfold Example.batch_inputs. cbn [snd]. split.
  - intros ->. unfold Example.spans_of. cbn [String.eqb Ascii.eqb Bool.eqb].
    induction batch as [|x l IH]; [reflexivity|].
    cbn [flat_map map]. rewrite IH.
    destruct (Example.build_prompt encode budget min_gen_len x) as [[p i] d].
    reflexivity.
  - intros Hin Hne.
    assert (E : forall i d, Example.spans_of hyper_input_type i d = []).
    { intros i d. unfold Example.spans_of.
      destruct (String.eqb_spec hyper_input_type "instruction"); [contradiction|].
      destruct (String.eqb_spec hyper_input_type "document") as [->|_];
        [discriminate|].
      destruct (String.eqb_spec hyper_input_type "both") as [->|_];
        [discriminate|reflexivity]. }
    induction batch as [|x l IH]; [reflexivity|].
    cbn [flat_map]. rewrite IH.
    destruct (Example.build_prompt encode budget min_gen_len x) as [[p i] d].
    now rewrite E.
Qed.

End PolicyTheory.

Lemma driver_spans_follow_the_policy_name_witness :
  snd (Example.batch_inputs DemoDriver.encode 300 30 "instruction"
         [DemoDriver.short; DemoDriver.middle])
  = [Example.Span (177, 190); Example.Span (177, 192)] /\
  snd (Example.batch_inputs DemoDriver.encode 300 30 "struct"
         [DemoDriver.short; DemoDriver.middle])
  = [].
Proof.
  split.
  - rewrite (proj1 (@driver_spans_follow_the_policy_name DemoDriver.encode 300 30
                      "instruction" [DemoDriver.short; DemoDriver.middle])
               eq_refl).
    vm_compute. reflexivity.
  - apply (proj2 (@driver_spans_follow_the_policy_name DemoDriver.encode 300 30
                    "struct" [DemoDriver.short; DemoDriver.middle])).
    + reflexivity.
    + discriminate.
Defined.

(** ** The substring test of the input policy *)

Lemma prefix_split (s t : string) :
  String.prefix s t = true -> exists post, t = (s ++ post)%string.
Proof.
  revert t. induction s as [|a s IH]; intros t H.
  - now exists t.
  - destruct t as [|b t]; [discriminate|]. cbn in H.
    destruct (ascii_dec a b) as [->|]; [|discriminate].
    destruct (IH t H) as (post & ->). now exists post.
Qed.

Lemma contains_split (s t : string) :
  Py.contains s t = true -> exists pre post, t = (pre ++ s ++ post)%string.
Proof.
  induction t as [|a t IH]; rewrite contains_eq;
    destruct (String.prefix s _) eqn:Hp.
  - intros _. destruct (prefix_split _ _ Hp) as (post & E).
    now exists EmptyString, post.
  - discriminate.
  - intros _. destruct (prefix_split _ _ Hp) as (post & E).
    now exists EmptyString, post.
  - intro H. destruct (IH H) as (pre & post & ->).
    now exists (String a pre), post.
Qed.

(** X2: The instruction policy is selected by a substring test.
    [hyper_input_type in ('instruction')] holds exactly when
    [hyper_input_type] occurs in the string ['instruction']: for the
    name itself, for the empty default and for every other piece of the
    name, and for nothing else. *)
Theorem instruction_policy_accepts_the_substrings (hyper_input_type : string) :
  is_instruction hyper_input_type = true <->
  exists pre post, "instruction"%string = (pre ++ hyper_input_type ++ post)%string.
Proof.
  unfold is_instruction. split.
  - apply contains_split.
  - intros (pre & post & ->). apply contains_app.
Qed.

(** ** The loss of the training pass *)

Section LossTheory.
Variables memory norm_term lora_param : Type.
Variable cfg : Config.
Variable net : Net.Collaborators memory norm_term lora_param.
Variables tokens labels : list (list Z).
Variable start_pos : nat.
Variable prompt_mask : option fmask.
Variables (mem : memory) (nt : norm_term).

(** X11: A batch whose labels sum to zero skips the criterion.  When
    [labels.sum()], the wrapping sum of the int64 label tensor, is 0,
    [forward] does not read the vocabulary size: the call behaves the
    same, in result and in state, for every vocabulary size (the
    assertion [vocab_size == 32000] is not evaluated), and a loss it
    returns is [output.mean() * 0], a zero, or a NaN when the mean is
    not finite. *)
Theorem zero_label_sum_skips_the_criterion (s : self_state lora_param) :
  int64_sum (concat labels) = 0%Z ->
  (forall v,
      forward (with_vocab_size v cfg) net tokens labels start_pos prompt_mask mem nt s
      = forward cfg net tokens labels start_pos prompt_mask mem nt s) /\
  (forall loss mem' nt' s',
      forward cfg net tokens labels start_pos prompt_mask mem nt s
      = (Ok (loss, mem', nt'), s') ->
      (exists output, loss = PrimFloat.mul (Net.tensor_mean net output) 0%float) /\
      zero_or_nan loss).
Proof.
  intro Hz. split.
  - intro v. unfold forward. rewrite Hz. reflexivity.
  - intros loss mem' nt' s' H. unfold forward in H.
    apply bind_ok in H as (u & s1 & _ & H). cbv zeta in H.
    apply bind_ok in H as (hmn1 & s2 & _ & H).
    apply bind_ok in H as ([[h m] n] & s3 & _ & H).
    cbv zeta in H. rewrite Hz in H. cbn [Z.eqb] in H.
    injection H as <- _ _ _. split; [eauto|apply zero_or_nan_mul_zero].
Qed.

(** X12: The criterion needs the LLaMA vocabulary.  With labels whose
    wrapping int64 sum is not 0 and a vocabulary size other than 32000,
    [forward] never returns a loss; where the same call over a
    vocabulary of 32000 returns one, the call raises [AssertionError],
    after the layers have run and in the state that call leaves. *)
Theorem criterion_requires_the_llama_vocabulary (s : self_state lora_param) :
  int64_sum (concat labels) <> 0%Z ->
  vocab_size cfg <> 32000%Z ->
  (exists e s',
      forward cfg net tokens labels start_pos prompt_mask mem nt s = (Raise e, s')) /\
  (forall r s',
      forward (with_vocab_size 32000 cfg) net tokens labels start_pos prompt_mask
              mem nt s
      = (Ok r, s') ->
      forward cfg net tokens labels start_pos prompt_mask mem nt s
      = (Raise Py.AssertionError, s')).
Proof.
  intros Hz Hv. apply Z.eqb_neq in Hz. apply Z.eqb_neq in Hv. split.
  - destruct (forward cfg net tokens labels start_pos prompt_mask mem nt s)
      as [[[[loss m] n]|e] s'] eqn:H; [exfalso|now exists e, s'].
    unfold forward in H.
    apply bind_ok in H as (u & s1 & _ & H). cbv zeta in H.
    apply bind_ok in H as (hmn1 & s2 & _ & H).
    apply bind_ok in H as ([[h m1] n1] & s3 & _ & H).
    cbv zeta in H. rewrite Hz in H.
    apply bind_ok in H as (u1 & s4 & Ha & _).
    apply assert_ok in Ha as [Ha _]. congruence.
  - intros r s' H. unfold forward in H |- *.
    apply bind_ok in H as (u & s1 & H1 & H). cbv zeta in H.
    apply bind_ok in H as (hmn1 & s2 & H2 & H).
    apply bind_ok in H as ([[h m1] n1] & s3 & H3 & H).
    cbv zeta in H. rewrite Hz in H.
    apply bind_ok in H as (u1 & s4 & Ha & H).
    apply assert_ok in Ha as [_ ->]. injection H as _ <-.
    rewrite (bind_eq _ _ _ H1). cbv zeta.
    rewrite bind_eq with (a := hmn1) (s1 := s2) by exact H2.
    rewrite bind_eq with (a := (h, m1, n1)) (s1 := s3) by exact H3.
    cbv zeta. rewrite Hz, Hv. reflexivity.
Qed.

End LossTheory.

Lemma zero_label_sum_skips_the_criterion_witness :
  forward (with_vocab_size 50000 (Demo.config true)) Demo.net [[5; 9; 2; 3]]%Z
          [[4611686018427387904; 4611686018427387904;
            4611686018427387904; 4611686018427387904]]%Z
          0 (Some [[1; 1; 1; 1]]%float) tt tt demo_init
  = forward (Demo.config true) Demo.net [[5; 9; 2; 3]]%Z
            [[4611686018427387904; 4611686018427387904;
              4611686018427387904; 4611686018427387904]]%Z
            0 (Some [[1; 1; 1; 1]]%float) tt tt demo_init.
Proof.
  apply (proj1 (@zero_label_sum_skips_the_criterion unit unit Demo.lora_param
                  (Demo.config true) Demo.net [[5; 9; 2; 3]]%Z
                  [[4611686018427387904; 4611686018427387904;
                    4611686018427387904; 4611686018427387904]]%Z
                  0 (Some [[1; 1; 1; 1]]%float) tt tt demo_init eq_refl)).
Defined.

Lemma criterion_requires_the_llama_vocabulary_witness :
  forward (with_vocab_size 50000 (Demo.config true)) Demo.net [[5; 9; 2]]%Z
          [[0; 9; 2]]%Z 0 (Some [[1; 1; 1]]%float) tt tt demo_init
  = (Raise Py.AssertionError,
     snd (forward (Demo.config true) Demo.net [[5; 9; 2]]%Z [[0; 9; 2]]%Z 0
                  (Some [[1; 1; 1]]%float) tt tt demo_init)).
Proof.
  eapply (proj2 (@criterion_requires_the_llama_vocabulary unit unit Demo.lora_param
                   (with_vocab_size 50000 (Demo.config true)) Demo.net [[5; 9; 2]]%Z
                   [[0; 9; 2]]%Z 0 (Some [[1; 1; 1]]%float) tt tt demo_init
                   ltac:(vm_compute; discriminate) ltac:(vm_compute; discriminate))).
  vm_compute. reflexivity.
Defined.
